(** * Interview-practice application: server routes, evaluator and session

    A shallow embedding of the parts of the application that the
    specification's testable properties talk about:

    - [Interviews]: [server/routes/interviews.js] (update and start) over
      the schema of [server/models/Interview.js];
    - [Answers]: [server/routes/answers.js] (create, update, batch) over the
      Answer schema;
    - [AI]: [server/controllers/ai.js] ([evaluateAnswer], its JSON
      extraction, and [createFallbackEvaluation]);
    - [Context]: [saveAnswer] and [mockEvaluateAnswer] of
      [src/context/InterviewContext.tsx];
    - [Session]: the question page [src/pages/Interview.tsx] as a state
      machine over user and timer events.

    External services (the database driver, the LLM, uploads, timers) are
    inputs of the functions: each call's outcome is an argument. *)

From Stdlib Require Import ZArith QArith Qround String Ascii List Lia DecimalString.
From stdpp Require Import gmap strings list.

Local Open Scope string_scope.
Local Open Scope list_scope.
Local Open Scope Z_scope.

(** ** JSON values, as request bodies and stored documents carry them *)

#[warnings="-register-all"]
Inductive Json :=
| JNull
| JBool (b : bool)
| JNum (q : Q)
| JStr (s : string)
| JArr (items : list Json)
| JObj (fields : list (string * Json)).

(** JavaScript truthiness of a JSON value ([if (criteriaData)] and the like). *)
Definition truthy (v : Json) : bool :=
  match v with
  | JNull => false
  | JBool b => b
  | JNum q => negb (Qeq_bool q 0)
  | JStr s => negb (String.eqb s "")
  | JArr _ | JObj _ => true
  end.

Definition json_str (v : option Json) : option string :=
  match v with
  | Some (JStr s) => Some s
  | _ => None
  end.

(** The authenticated caller, as the [protect] middleware leaves it in
    [req.user]. *)
Record User := { user_id : string; user_role : string }.

Definition is_admin (u : User) : bool := String.eqb (user_role u) "admin".

(** What a route answers: a status code with either data or an error text.
    A route answers 400 with the message of whatever error it catches; where
    that message is the database driver's or the runtime's, the model puts
    a text of its own. Identifiers are taken to be well-formed ObjectIds. *)
Inductive Response (A : Type) :=
| Success (code : nat) (data : A)
| Failure (code : nat) (error : string).
Arguments Success {A} code data.
Arguments Failure {A} code error.

Definition succeeded {A} (r : Response A) : bool :=
  match r with Success _ _ => true | Failure _ _ => false end.

(** ** Interviews: [server/models/Interview.js], [server/routes/interviews.js] *)

Module Interviews.

(** [status] has the enum ['scheduled','in-progress','completed','cancelled']. *)
Inductive Status := scheduled | in_progress | completed | cancelled.

Definition status_name (s : Status) : string :=
  match s with
  | scheduled => "scheduled"
  | in_progress => "in-progress"
  | completed => "completed"
  | cancelled => "cancelled"
  end.

Definition status_of_name (n : string) : option Status :=
  if String.eqb n "scheduled" then Some scheduled
  else if String.eqb n "in-progress" then Some in_progress
  else if String.eqb n "completed" then Some completed
  else if String.eqb n "cancelled" then Some cancelled
  else None.

Definition status_eqb (a b : Status) : bool :=
  match a, b with
  | scheduled, scheduled | in_progress, in_progress
  | completed, completed | cancelled, cancelled => true
  | _, _ => false
  end.

(** The order the specification gives the life cycle:
    scheduled, then in-progress, then completed; cancelled is reachable
    from everywhere. [forward a b] says that going from [a] to [b] does
    not step back in it. *)
Definition rank (s : Status) : nat :=
  match s with
  | scheduled => 0
  | in_progress => 1
  | completed => 2
  | cancelled => 3
  end.

Definition forward (a b : Status) : Prop := (rank a <= rank b)%nat.

(** The fields of the schema the routes below read or write. [duration]
    is a number of minutes (whole minutes here); [scheduledDate] is a
    stored Date, as milliseconds since the epoch. *)
Record Interview := {
  candidate : string;
  status : Status;
  scheduledDate : Z;
  scheduledTime : string;
  duration : Z
}.

Definition set_status (s : Status) (i : Interview) : Interview :=
  {| candidate := candidate i; status := s;
     scheduledDate := scheduledDate i; scheduledTime := scheduledTime i;
     duration := duration i |}.

(** A JavaScript Date: a time value in milliseconds, or Invalid Date
    (time value NaN). *)
Inductive JsDate := ValidDate (ms : Z) | InvalidDate.

(** [a < b] on Dates: false as soon as one side is NaN. *)
Definition date_lt (a b : JsDate) : bool :=
  match a, b with
  | ValidDate x, ValidDate y => x <? y
  | _, _ => false
  end.

(** [new Date(d.getTime() + ms)]. *)
Definition date_plus (d : JsDate) (ms : Z) : JsDate :=
  match d with
  | ValidDate x => ValidDate (x + ms)
  | InvalidDate => InvalidDate
  end.

(** [x || 30] on a number. *)
Definition or_default (x d : Z) : Z := if x =? 0 then d else x.

Definition msg_not_found := "Interview not found".
Definition msg_not_authorized := "Not authorized".
Definition msg_too_early := "Interview has not started yet.".
Definition msg_too_late := "Interview window has passed.".
Definition msg_wrong_state := "Interview cannot be started in current state.".
Definition msg_update_forbidden := "Not authorized to update this interview".


Section Routes.

(** The Date built-ins the start route goes through:
    [Date.prototype.toString] (the template literal interpolates the
    stored Date) and the Date constructor applied to a string. *)
Variable date_to_string : Z -> string.
Variable date_of_string : string -> JsDate.

(** [new Date(`${interview.scheduledDate}T${interview.scheduledTime}`)] *)
Definition scheduledStart (i : Interview) : JsDate :=
  date_of_string (date_to_string (scheduledDate i) +:+ "T" +:+ scheduledTime i).

(** [new Date(scheduledStart.getTime() + (interview.duration || 30) * 60000)] *)
Definition scheduledEnd (i : Interview) : JsDate :=
  date_plus (scheduledStart i) (or_default (duration i) 30 * 60000).

(** [now] lies before the start or after the end of the window. *)
Definition outside_window (i : Interview) (now : Z) : bool :=
  date_lt (ValidDate now) (scheduledStart i) || date_lt (scheduledEnd i) (ValidDate now).

(** [router.post('/:id/start')]. [db] is the Interview collection,
    [u] the authenticated caller, [now] the clock ([new Date()]). *)
Definition start (db : gmap string Interview) (u : User) (id : string) (now : Z)
  : Response Interview * gmap string Interview :=
  match db !! id with
  | None => (Failure 404 msg_not_found, db)
  | Some interview =>
      if negb (String.eqb (candidate interview) (user_id u)) then
        (Failure 403 msg_not_authorized, db)
      else if date_lt (ValidDate now) (scheduledStart interview) then
        (Failure 403 msg_too_early, db)
      else if date_lt (scheduledEnd interview) (ValidDate now) then
        (Failure 403 msg_too_late, db)
      else if negb (status_eqb (status interview) scheduled) then
        (Failure 400 msg_wrong_state, db)
      else
        let interview' := set_status in_progress interview in
        (Success 200 interview', <[id := interview']> db)
  end.

End Routes.

(** [allowedUpdates.includes(key)] filter over [Object.keys(req.body)]. *)
Definition keep_keys (allowed : list string) (body : gmap string Json)
  : gmap string Json :=
  filter (fun kv => kv.1 ∈ allowed) body.

(** [Interview.findByIdAndUpdate(id, body, {new: true, runValidators: true})]
    on the modelled paths: a key sets its path after casting; a value that
    cannot be cast, or a status outside the enum, makes the call throw
    ([None]). Keys of paths not modelled here leave the record as it is. *)
Definition cast_string (v : Json) : option string :=
  match v with
  | JStr s => Some s
  | _ => None
  end.

Definition cast_whole (v : Json) : option Z :=
  match v with
  | JNum q => if Qeq_bool q (inject_Z (Qfloor q)) then Some (Qfloor q) else None
  | _ => None
  end.

Definition apply_update (body : gmap string Json) (i : Interview) : option Interview :=
  c ← match body !! "candidate" with
      | None => Some (candidate i) | Some v => cast_string v end;
  s ← match body !! "status" with
      | None => Some (status i) | Some v => cast_string v ≫= status_of_name end;
  d ← match body !! "scheduledDate" with
      | None => Some (scheduledDate i) | Some v => cast_whole v end;
  t ← match body !! "scheduledTime" with
      | None => Some (scheduledTime i) | Some v => cast_string v end;
  n ← match body !! "duration" with
      | None => Some (duration i) | Some v => cast_whole v end;
  Some {| candidate := c; status := s; scheduledDate := d;
          scheduledTime := t; duration := n |}.

(** [router.put('/:id')]. *)
Definition update (db : gmap string Interview) (u : User) (id : string)
    (body : gmap string Json) : Response Interview * gmap string Interview :=
  match db !! id with
  | None => (Failure 404 msg_not_found, db)
  | Some interview =>
      if negb (String.eqb (candidate interview) (user_id u)) && negb (is_admin u) then
        (Failure 403 msg_update_forbidden, db)
      else
        let body' := if negb (is_admin u) then keep_keys ["status"] body else body in
        match apply_update body' interview with
        | None => (Failure 400 "Validation failed", db)
        | Some interview' => (Success 200 interview', <[id := interview']> db)
        end
  end.

(** [router.post('/')] (admins only, by [authorize('admin')]):
    [Interview.create(req.body)] takes the status the body names, or the
    schema default ['scheduled']. *)
Definition create_status (body : gmap string Json) : option Status :=
  match body !! "status" with
  | None => Some scheduled
  | Some v => cast_string v ≫= status_of_name
  end.

End Interviews.

(** ** Answers: the Answer schema and [server/routes/answers.js] *)

Module Answers.

Import Interviews.

(** A stored Answer: its [_id] and the values of its paths. The
    collection is a list in insertion order; nothing in the schema makes
    (interview, question) unique. *)
Record Stored := { doc_id : nat; fields : gmap string Json }.

Definition schema_paths : list string :=
  ["interview"; "question"; "audioUrl"; "transcript"; "code"; "codeLanguage";
   "score"; "feedback"; "criteria"; "createdAt"].

Definition zero_criteria : Json :=
  JObj [("technicalAccuracy", JNum 0); ("completeness", JNum 0);
        ("clarity", JNum 0); ("examples", JNum 0)].

(** Schema defaults of a new document ([createdAt] is [Date.now]). *)
Definition defaults (now : Z) : gmap string Json :=
  {[ "codeLanguage" := JStr "javascript";
     "criteria" := zero_criteria;
     "createdAt" := JNum (inject_Z now) ]}.

(** A new ObjectId: one no stored document has. *)
Definition fresh_id (docs : list Stored) : nat :=
  S (foldr Nat.max 0%nat (map doc_id docs)).

Definition find_by_id (id : nat) (docs : list Stored) : option Stored :=
  List.find (fun d => Nat.eqb (doc_id d) id) docs.

(** Replace the first document the predicate selects. *)
Fixpoint update_first (p : Stored -> bool) (f : Stored -> Stored)
    (docs : list Stored) : option (Stored * list Stored) :=
  match docs with
  | [] => None
  | d :: rest =>
      if p d then Some (f d, f d :: rest)
      else '(d', rest') ← update_first p f rest; Some (d', d :: rest')
  end.

Definition set_fields (upd : gmap string Json) (d : Stored) : Stored :=
  {| doc_id := doc_id d; fields := keep_keys schema_paths upd ∪ fields d |}.

Definition has_id (id : nat) (d : Stored) : bool := Nat.eqb (doc_id d) id.

(** The filter [{ interview: i, question: q }]. *)
Definition for_pair (i q : string) (d : Stored) : bool :=
  bool_decide (json_str (fields d !! "interview") = Some i) &&
  bool_decide (json_str (fields d !! "question") = Some q).

Definition count_pair (i q : string) (docs : list Stored) : nat :=
  length (List.filter (for_pair i q) docs).

(** At most one Answer for every (interview, question). *)
Definition one_per_question (docs : list Stored) : Prop :=
  forall i q, (count_pair i q docs <= 1)%nat.


Definition admin_updates : list string := ["score"; "feedback"; "criteria"].
Definition candidate_updates : list string :=
  ["audioUrl"; "transcript"; "code"; "codeLanguage"].


Inductive BatchBody := NotAnArray | Items (answers : list (gmap string Json)).

Section Routes.

(** The schema validators ([required], [min], [max], casting):
    [valid] as [create] and [save] run them over a whole document,
    [valid_update] as [findByIdAndUpdate] with [runValidators] runs
    them over the paths an update sets. *)
Variable valid : gmap string Json -> bool.
Variable valid_update : gmap string Json -> bool.

(** [router.post('/')]: after the ownership check, [Answer.create(req.body)]. *)
Definition create (interviews : gmap string Interview) (docs : list Stored)
    (u : User) (body : gmap string Json) (now : Z)
  : Response Stored * list Stored :=
  match json_str (body !! "interview") ≫= (interviews !!.) with
  | None => (Failure 404 "Interview not found", docs)
  | Some interview =>
      if negb (String.eqb (candidate interview) (user_id u)) && negb (is_admin u) then
        (Failure 403 "Not authorized to create answers for this interview", docs)
      else
        let d := {| doc_id := fresh_id docs;
                    fields := keep_keys schema_paths body ∪ defaults now |} in
        if valid (fields d) then (Success 201 d, docs ++ [d])
        else (Failure 400 "Validation failed", docs)
  end.

Definition set_criteria (c : Json) (d : Stored) : Stored :=
  {| doc_id := doc_id d; fields := <["criteria" := c]> (fields d) |}.

(** The second half of the update route, once the body is whitelisted:
    every key but [criteria] goes through [findByIdAndUpdate] with
    validators; [criteria], when truthy, is then assigned and saved. *)
Definition write_update (docs : list Stored) (id : nat) (body : gmap string Json)
  : Response Stored * list Stored :=
  let updateData := delete "criteria" body in
  let criteriaData := body !! "criteria" in
  if negb (valid_update (keep_keys schema_paths updateData)) then
    (Failure 400 "Validation failed", docs)
  else
    match update_first (has_id id) (set_fields updateData) docs with
    | None => (Failure 400 "Cannot set properties of null", docs)
    | Some (answer1, docs1) =>
        match criteriaData with
        | Some c =>
            if truthy c then
              if negb (valid (fields (set_criteria c answer1))) then
                (Failure 400 "Validation failed", docs1)
              else
                match update_first (has_id id) (set_criteria c) docs1 with
                | None => (Failure 400 "No document found", docs1)
                | Some (answer2, docs2) => (Success 200 answer2, docs2)
                end
            else (Success 200 answer1, docs1)
        | None => (Success 200 answer1, docs1)
        end
    end.

(** [router.put('/:id')]. An admin is never checked against the
    interview; any other caller has to be its candidate, and reading
    the candidate of a missing interview throws. *)
Definition update (interviews : gmap string Interview) (docs : list Stored)
    (u : User) (id : nat) (body : gmap string Json)
  : Response Stored * list Stored :=
  match find_by_id id docs with
  | None => (Failure 404 "Answer not found", docs)
  | Some answer =>
      if is_admin u then write_update docs id (keep_keys admin_updates body)
      else
        match json_str (fields answer !! "interview") ≫= (interviews !!.) with
        | None => (Failure 400 "Cannot read properties of null", docs)
        | Some interview =>
            if String.eqb (candidate interview) (user_id u)
            then write_update docs id (keep_keys candidate_updates body)
            else (Failure 403 "Not authorized to update this answer", docs)
        end
  end.

(** One turn of the batch loop:
    [Answer.findOneAndUpdate({interview, question}, ans,
    {upsert: true, new: true, setDefaultsOnInsert: true})].
    [None] when the filter cannot be cast to two ids (the call throws). *)
Definition upsert (docs : list Stored) (ans : gmap string Json) (now : Z)
  : option (Stored * list Stored) :=
  i ← json_str (ans !! "interview");
  q ← json_str (ans !! "question");
  match update_first (for_pair i q) (set_fields ans) docs with
  | Some r => Some r
  | None =>
      let d := {| doc_id := fresh_id docs;
                  fields := keep_keys schema_paths ans ∪ defaults now |} in
      Some (d, docs ++ [d])
  end.

Fixpoint batch_loop (docs : list Stored) (answers : list (gmap string Json))
    (now : Z) (results : list Stored)
  : Response (list Stored) * list Stored :=
  match answers with
  | [] => (Success 201 results, docs)
  | ans :: rest =>
      match upsert docs ans now with
      | None => (Failure 400 "Cast to ObjectId failed", docs)
      | Some (d, docs') => batch_loop docs' rest now (results ++ [d])
      end
  end.

(** [router.post('/batch')]. *)
Definition batch (docs : list Stored) (body : BatchBody) (now : Z)
  : Response (list Stored) * list Stored :=
  match body with
  | NotAnArray => (Failure 400 "Request body must be an array of answers", docs)
  | Items answers => batch_loop docs answers now []
  end.

End Routes.

End Answers.

(** ** JavaScript string operations

    A string is its sequence of code units; the model covers code units
    below 256 (Latin-1 text). *)

Module JsString.

Definition code (c : ascii) : N := N_of_ascii c.

(** The class [\s] of regular expressions. *)
Definition is_space (c : ascii) : bool :=
  let n := code c in
  ((9 <=? n) && (n <=? 13) || (n =? 32) || (n =? 160))%N.

(** Line terminators, which [.] does not match. *)
Definition is_line_end (c : ascii) : bool :=
  let n := code c in ((n =? 10) || (n =? 13))%N.

(** The class [\w]. *)
Definition is_word_char (c : ascii) : bool :=
  let n := code c in
  ((48 <=? n) && (n <=? 57) || (65 <=? n) && (n <=? 90)
   || (97 <=? n) && (n <=? 122) || (n =? 95))%N.

Definition lower_char (c : ascii) : ascii :=
  let n := code c in
  if ((65 <=? n) && (n <=? 90)
      || (192 <=? n) && (n <=? 222) && negb (n =? 215))%N
  then ascii_of_N (n + 32) else c.

Fixpoint toLowerCase (s : string) : string :=
  match s with
  | EmptyString => EmptyString
  | String c r => String (lower_char c) (toLowerCase r)
  end.

Fixpoint startsWith (s p : string) : bool :=
  match p, s with
  | EmptyString, _ => true
  | String _ _, EmptyString => false
  | String a p', String b s' => Ascii.eqb a b && startsWith s' p'
  end.

Fixpoint includes (s sub : string) : bool :=
  startsWith s sub ||
  match s with
  | EmptyString => false
  | String _ r => includes r sub
  end.

Fixpoint drop (n : nat) (s : string) : string :=
  match n, s with
  | O, _ => s
  | S _, EmptyString => EmptyString
  | S k, String _ r => drop k r
  end.

Fixpoint skip_spaces (s : string) : string :=
  match s with
  | String c r => if is_space c then skip_spaces r else s
  | EmptyString => s
  end.

Fixpoint all_chars (p : ascii -> bool) (s : string) : bool :=
  match s with
  | EmptyString => true
  | String c r => p c && all_chars p r
  end.

(** [s.split(/\s+/).filter(w => w.length > 0).length]: the number of
    maximal runs of non-space code units. [inside] tells whether the
    previous code unit belonged to a run. *)
Fixpoint count_words_from (inside : bool) (s : string) : nat :=
  match s with
  | EmptyString => O
  | String c r =>
      if is_space c then count_words_from false r
      else if inside then count_words_from true r
      else S (count_words_from true r)
  end.

Definition count_words (s : string) : nat := count_words_from false s.

(** The boolean value of a string: the empty string is falsy. *)
Definition nonempty (s : string) : bool := negb (String.eqb s "").

(** [x ? ... : ...] on a string that may be [undefined]. *)
Definition given (s : option string) : bool :=
  match s with Some x => nonempty x | None => false end.

(** A text between double quotes. *)
Definition quoted (s : string) : string :=
  String (ascii_of_N 34) s +:+ String (ascii_of_N 34) EmptyString.

(** Decimal text of a count, as a template literal prints it. *)
Definition of_nat (n : nat) : string :=
  DecimalString.NilEmpty.string_of_uint (Nat.to_uint n).

End JsString.

(** ** The evaluator: [server/controllers/ai.js] *)

Module AI.

Import JsString.

Record Criteria := {
  technicalAccuracy : Q; completeness : Q; clarity : Q; examples : Q
}.

Record Evaluation := { score : Q; feedback : string; criteria : Criteria }.

(** *** Extraction of the evaluation from the generated text *)

(** The text from its first opening brace on. *)
Fixpoint from_open_brace (s : string) : option string :=
  match s with
  | EmptyString => None
  | String c r => if Ascii.eqb c "{" then Some s else from_open_brace r
  end.

(** The longest prefix that ends with a closing brace. *)
Fixpoint to_last_close (s : string) : option string :=
  match s with
  | EmptyString => None
  | String c r =>
      match to_last_close r with
      | Some p => Some (String c p)
      | None => if Ascii.eqb c "}" then Some (String c EmptyString) else None
      end
  end.

(** The text has no occurrence of the character. *)
Definition without (x : ascii) (s : string) : bool :=
  all_chars (fun c => negb (Ascii.eqb c x)) s.

(** [generatedText.match(/{[\s\S]*}/g)], element 0: the greedy match
    runs from the first opening brace to the last closing brace after
    it; [None] is the [null] of a failed match. *)
Definition jsonMatch (text : string) : option string :=
  match from_open_brace text with
  | Some (String b r) => p ← to_last_close r; Some (String b p)
  | _ => None
  end.

(** The structured answer substituted when nothing can be parsed. *)
Definition neutral (generatedText : string) : Json :=
  JObj [("score", JNum 5); ("feedback", JStr generatedText);
        ("criteria", JObj [("technicalAccuracy", JNum 5); ("completeness", JNum 5);
                           ("clarity", JNum 5); ("examples", JNum 5)])].

Inductive CohereOutcome :=
| CohereThrows (message : string)
| CohereReplies (generations : option (list string)).

(** What the handler does with the request: a 200 answer with the
    evaluation and its method, or an [ErrorResponse] passed to [next]. *)
Inductive Reply :=
| Evaluated (data : Json) (evaluationMethod : string)
| NextError (message : string) (statusCode : nat).

Record EvaluateBody := {
  question : option string;
  transcript : option string;
  techStack : option string;
  code : option string
}.

(** A request with a question and a transcript or code. *)
Definition well_formed (body : EvaluateBody) : Prop :=
  given (question body) = true /\ given (transcript body) || given (code body) = true.

Section Evaluate.

(** [JSON.parse]; [None] when it throws. *)
Variable JSON_parse : string -> option Json.

(** Lines 193-230: the evaluation taken from the generated text. *)
Definition extractEvaluation (generatedText : string) : Json :=
  match jsonMatch generatedText with
  | Some m =>
      match JSON_parse m with
      | Some evaluationResponse => evaluationResponse
      | None => neutral generatedText
      end
  | None => neutral generatedText
  end.

Definition cohere_failed (message : string) : Reply :=
  NextError ("Cohere AI evaluation failed: " +:+ message
             +:+ ". Please check your Cohere API key and try again.") 500.

(** [evaluateAnswer]. [apiKey] says whether COHERE_API_KEY is set;
    [outcome] is what [cohere.generate] does. The construction of the
    client is taken to succeed. *)
Definition evaluateAnswer (body : EvaluateBody) (apiKey : bool)
    (outcome : CohereOutcome) : Reply :=
  if negb (given (question body))
     || (negb (given (transcript body)) && negb (given (code body))) then
    NextError "Please provide question and either transcript or code" 400
  else if negb apiKey then
    NextError "Cohere API key is not configured. Please set COHERE_API_KEY in your environment variables." 500
  else
    match outcome with
    | CohereThrows message => cohere_failed message
    | CohereReplies None | CohereReplies (Some []) =>
        cohere_failed "No generations returned from Cohere API"
    | CohereReplies (Some (generatedText :: _)) =>
        Evaluated (extractEvaluation generatedText) "cohere"
    end.

End Evaluate.

(** *** [createFallbackEvaluation]

    Arithmetic is over exact rationals where the source has doubles. *)

Definition react_keywords :=
  ["component"; "jsx"; "virtual dom"; "state"; "props"; "hooks"; "lifecycle"; "render"].
Definition node_keywords :=
  ["event loop"; "callback"; "async"; "express"; "middleware"; "server"].
Definition python_keywords :=
  ["list"; "tuple"; "dictionary"; "class"; "function"; "django"; "flask"].
Definition java_keywords :=
  ["class"; "interface"; "inheritance"; "polymorphism"; "spring"].

Definition generalKeywords :=
  ["algorithm"; "performance"; "optimization"; "design"; "pattern";
   "architecture"; "framework"; "library"; "function"; "method"].

Definition questionKeywords (question : string) : list string :=
  let questionLower := toLowerCase question in
  if includes questionLower "react" then react_keywords
  else if includes questionLower "node" then node_keywords
  else if includes questionLower "python" then python_keywords
  else if includes questionLower "java" then java_keywords
  else [].

Definition techStackKeywords (techStack : option string) : list string :=
  match techStack with
  | Some t =>
      if nonempty t then
        let l := toLowerCase t in
        (if includes l "react"
         then ["component"; "jsx"; "virtual dom"; "state"; "props"; "hooks"] else [])
        ++ (if includes l "node"
            then ["event loop"; "callback"; "async"; "express"; "middleware"] else [])
        ++ (if includes l "python" then python_keywords else [])
        ++ (if includes l "java" then java_keywords else [])
      else []
  | None => []
  end.

Definition greetings := ["hi"; "hello"; "hey"; "greetings"; "my name is"].

(** [\b] after a match that ends in a word character: the rest is empty
    or starts with a non-word character. *)
Definition at_word_end (rest : string) : bool :=
  match rest with
  | EmptyString => true
  | String c _ => negb (is_word_char c)
  end.

(** [/^\s*(hi|hello|hey|greetings|my name is)\b.*?$/i] on a lower-cased
    text: leading spaces, one of the alternatives ending at a word
    boundary, then no line terminator up to the end of the text. *)
Definition isJustGreeting (normalizedTranscript : string) : bool :=
  let s := skip_spaces normalizedTranscript in
  existsb (fun g =>
    startsWith s g &&
    let rest := drop (String.length g) s in
    at_word_end rest && all_chars (fun c => negb (is_line_end c)) rest) greetings.

Definition qmin (a b : Q) : Q := if Qle_bool a b then a else b.

(** [Math.round]: the nearest integer, halves upwards. *)
Definition round (x : Q) : Z := Qfloor (x + (1 # 2))%Q.

(** [Math.round(x * 10) / 10]. *)
Definition round1 (x : Q) : Q := (inject_Z (round (x * 10)) / 10)%Q.

Definition q_of_nat (n : nat) : Q := inject_Z (Z.of_nat n).

Definition count_in (text : string) (keywords : list string) : nat :=
  length (List.filter (fun k => includes text (toLowerCase k)) keywords).

Definition penalty_feedback (greeting testing : bool) : string :=
  "This answer is "
  +:+ (if greeting then "just a greeting"
       else if testing then "just a test message" else "too short")
  +:+ " and does not address the technical question. A complete answer should explain the technical concepts in detail. Irrelevant answers receive a score of 1/10.".

(** [x ? x.toLowerCase() : ''] *)
Definition normalized (x : option string) : string :=
  match x with
  | Some t => if nonempty t then toLowerCase t else ""
  | None => ""
  end.

Definition all_ones : Criteria :=
  {| technicalAccuracy := 1; completeness := 1; clarity := 1; examples := 1 |}.

Definition createFallbackEvaluation (question : string) (transcript : option string)
    (techStack : option string) (code : option string) : Evaluation :=
  let qk := questionKeywords question in
  let keywords := qk ++ techStackKeywords techStack ++ generalKeywords in
  let normalizedTranscript := normalized transcript in
  let normalizedCode := normalized code in
  let greeting := isJustGreeting normalizedTranscript in
  let wordCount := count_words normalizedTranscript in
  let isVeryShort := (wordCount <? 20)%nat in
  let isTesting :=
    includes (toLowerCase normalizedTranscript) "testing"
    || includes (toLowerCase normalizedTranscript) "test" in
  if greeting || isVeryShort || isTesting then
    {| score := 1%Q;
       feedback := penalty_feedback greeting isTesting;
       criteria := {| technicalAccuracy := 1%Q; completeness := 1%Q;
                      clarity := 1%Q; examples := 1%Q |} |}
  else
    let questionKeywordCount :=
      length (List.filter (fun k =>
        includes normalizedTranscript (toLowerCase k)
        || includes normalizedCode (toLowerCase k)) qk) in
    let transcriptKeywordCount := count_in normalizedTranscript keywords in
    let codeKeywordCount := count_in normalizedCode keywords in
    let totalKeywordCount := (transcriptKeywordCount + codeKeywordCount)%nat in
    let relevanceScore :=
      if (0 <? length qk)%nat
      then qmin 10 (q_of_nat questionKeywordCount / q_of_nat (length qk) * 10)%Q
      else 5%Q in
    let keywordScore := qmin 10 (q_of_nat totalKeywordCount / 8 * 10)%Q in
    let transcriptLength :=
      if given transcript then String.length (default "" transcript) else O in
    let codeLength := if given code then String.length (default "" code) else O in
    let transcriptLengthScore := qmin 10 (q_of_nat transcriptLength / 500 * 10)%Q in
    let codeLengthScore := qmin 10 (q_of_nat codeLength / 200 * 10)%Q in
    let lengthScore :=
      if given transcript && given code
      then (transcriptLengthScore * (6 # 10) + codeLengthScore * (4 # 10))%Q
      else if given transcript then transcriptLengthScore
      else if given code then codeLengthScore
      else 0%Q in
    let score :=
      round1 (relevanceScore * (5 # 10) + keywordScore * (3 # 10)
              + lengthScore * (2 # 10))%Q in
    let said_transcript :=
      "Your verbal answer contains " +:+ of_nat transcriptKeywordCount
      +:+ " relevant technical terms and is " +:+ of_nat transcriptLength
      +:+ " characters long." in
    let said_code :=
      "Your code submission contains " +:+ of_nat codeKeywordCount
      +:+ " relevant technical terms and is " +:+ of_nat codeLength
      +:+ " characters long." in
    let feedback :=
      "This evaluation was generated using a fallback system. "
      +:+ (if Qle_bool 5 relevanceScore then ""
           else "The answer does not seem to directly address the question asked. ")
      +:+ (if given transcript && given code then said_transcript +:+ " " +:+ said_code
           else if given transcript then said_transcript
           else if given code then said_code
           else "") in
    {| score := qmin 10 score;
       feedback := feedback;
       criteria :=
         {| technicalAccuracy := round1 relevanceScore;
            completeness := round1 keywordScore;
            clarity := if given transcript then qmin (q_of_nat wordCount / 10)%Q 10 else 3%Q;
            examples :=
              if includes normalizedTranscript "example"
                 || (50 <? String.length normalizedCode)%nat
              then 7%Q else 3%Q |} |}.

End AI.

(** ** The client: types shared by the context and the question page *)

Module Client.

Inductive ToastKind := info | success | warning | error.
Definition Toast : Type := ToastKind * string.

Definition is_warning (t : Toast) : bool :=
  match t.1 with warning => true | _ => false end.
Definition is_error (t : Toast) : bool :=
  match t.1 with error => true | _ => false end.

(** A recorded audio Blob: its size and MIME type. *)
Record Blob := { blob_size : nat; blob_type : string }.

(** [new Blob()] and [new Blob([], { type: 'audio/webm' })]. *)
Definition empty_blob : Blob := {| blob_size := 0; blob_type := "" |}.
Definition empty_webm : Blob := {| blob_size := 0; blob_type := "audio/webm" |}.

Record Question := { q_id : string; q_stackId : string; q_text : string }.

Record Answer := {
  a_id : string;
  a_questionId : string;
  a_audioUrl : string;
  a_transcript : string;
  a_code : string;
  a_codeLanguage : string;
  a_score : option Q;
  a_feedback : option string;
  a_criteria : option AI.Criteria
}.

Record Interview := {
  i_id : string;
  i_candidateId : string;
  i_stackId : string;
  i_answers : list Answer
}.

(** What [aiAPI.evaluate] resolves with: [data.data] when it is there,
    and [data.evaluationMethod]. *)
Record EvalData := {
  e_score : option Q;
  e_feedback : option string;
  e_criteria : option AI.Criteria
}.

Inductive EvaluateOutcome :=
| EvaluateRejects
| EvaluateResolves (data : option EvalData) (evaluationMethod : option string).

(** [aiAPI.transcribe]: rejected, or resolved with a text (or without). *)
Inductive TranscribeOutcome :=
| TranscribeRejects
| TranscribeResolves (text : option string).

(** [uploadAPI.uploadAudio]: rejected, or resolved with [data.success]
    and [data.data.fileUrl]. *)
Inductive UploadOutcome :=
| UploadRejects
| UploadResolves (ok : bool) (fileUrl : string).

(** The upload did not deliver a file URL. *)
Definition upload_failed (u : UploadOutcome) : bool :=
  match u with
  | UploadResolves true _ => false
  | _ => true
  end.

(** The body of [answerAPI.create]. *)
Record CreateBody := {
  c_interview : string;
  c_question : string;
  c_transcript : string;
  c_audioUrl : string;
  c_code : string;
  c_codeLanguage : string;
  c_score : option Q;
  c_feedback : string;
  c_criteria : AI.Criteria
}.

(** [answerAPI.create]: rejected, or resolved with the [_id] of the
    stored Answer (when the answer carries one). *)
Inductive CreateOutcome :=
| CreateRejects
| CreateResolves (id : option string).

(** The requests a handler sends, in order. *)
Inductive Request :=
| ReqTranscribe (audio : Blob)
| ReqEvaluate (question transcript : string) (code : option string)
| ReqUpload (audio : Blob)
| ReqCreate (body : CreateBody).

Definition is_create (r : Request) : bool :=
  match r with ReqCreate _ => true | _ => false end.

(** A string or a default: [s || d]. *)
Definition str_or (s d : string) : string :=
  if JsString.nonempty s then s else d.

End Client.

(** ** [src/context/InterviewContext.tsx]: [saveAnswer] *)

Module Context.

Import Client JsString.

(** [mockEvaluateAnswer]: [random] is the value of [Math.random()]. *)
Definition mock_score (random : Q) : Z := Qfloor (random * 5) + 6.

Definition mock_feedback (score : Z) : string :=
  if 9 <=? score then
    "Excellent answer that demonstrates deep understanding of the concept. The explanation was clear, comprehensive, and included relevant examples."
  else if 7 <=? score then
    "Good answer that covers the main points. Some additional detail or examples would have strengthened the response."
  else
    "Satisfactory answer that addresses the basic concept. The explanation could be more precise and include more technical details.".

Definition mockEvaluateAnswer (random : Q) : Z * string :=
  let score := mock_score random in (score, mock_feedback score).

(** The outcomes of the calls one [saveAnswer] makes. *)
Record Env := {
  transcribed : TranscribeOutcome;
  evaluated : EvaluateOutcome;
  random : Q;
  uploaded : UploadOutcome;
  created : CreateOutcome
}.

Definition failure_marker : string :=
  "[TRANSCRIPTION FAILED] Unable to transcribe audio. Please check audio quality or try again.".

(** What comes out of the three stages of [saveAnswer]. [None] for a
    transcript is [undefined]. *)
Record Log := { toasts : list Toast; requests : list Request }.

Definition say (t : Toast) (l : Log) : Log :=
  {| toasts := toasts l ++ [t]; requests := requests l |}.
Definition send (r : Request) (l : Log) : Log :=
  {| toasts := toasts l; requests := requests l ++ [r] |}.

Definition too_short_warning : Toast :=
  (warning, "Your answer is too short or incomplete. Please provide a more detailed response.").
Definition local_only_warning : Toast :=
  (warning, "Answer saved locally but failed to store on server").
Definition upload_error : Toast := (error, "Failed to upload audio").

(** The create requests sent so far, and the toasts of one sort shown so
    far. *)
Definition creates (l : Log) : list Request := List.filter is_create (requests l).
Definition toasts_where (f : Toast -> bool) (l : Log) : list Toast :=
  List.filter f (toasts l).
Definition warnings : Log -> list Toast := toasts_where is_warning.
Definition is_upload_error (t : Toast) : bool :=
  is_error t && String.eqb t.2 "Failed to upload audio".
Definition upload_errors : Log -> list Toast := toasts_where is_upload_error.

(** Lines 417-450: obtain a transcript when none was passed. *)
Definition getTranscript (useFreeMode : bool) (audioBlob : Blob)
    (transcript : option string) (env : Env) (l : Log) : option string * Log :=
  if given transcript then (transcript, l)
  else
    let l := send (ReqTranscribe audioBlob) l in
    match transcribed env with
    | TranscribeResolves (Some text) =>
        if nonempty text then (Some text, l)
        else if useFreeMode then (transcript, l)
        else (Some failure_marker,
              say (error, "Transcription failed. Check error logs for details.") l)
    | TranscribeResolves None =>
        if useFreeMode then (transcript, l)
        else (Some failure_marker,
              say (error, "Transcription failed. Check error logs for details.") l)
    | TranscribeRejects =>
        (Some failure_marker,
         say (error, "Transcription failed. Check error logs for details.") l)
    end.

(** [finalTranscript.trim().split(/\s+/).length] *)
Definition wordCount (finalTranscript : string) : nat :=
  Nat.max 1 (count_words finalTranscript).

Definition mock_note : string :=
  String (ascii_of_N 10) (String (ascii_of_N 10)
    "Note: This is an auto-generated mock evaluation because the AI evaluation service failed.").

Definition two_newlines : string :=
  String (ascii_of_N 10) (String (ascii_of_N 10) "").

(** The text a template literal prints for a feedback that may be
    [undefined]. *)
Definition printed (feedback : option string) : string :=
  default "undefined" feedback.

(** Lines 460-509: evaluation, with the mock evaluation as the backup. *)
Definition getEvaluation (question finalTranscript : string) (code : option string)
    (env : Env) (l : Log)
    : (option Q * option string * option AI.Criteria) * Log :=
  let l := send (ReqEvaluate question finalTranscript code) l in
  match evaluated env with
  | EvaluateResolves (Some evaluation) method =>
      let m := match method with Some m => str_or m "unknown" | None => "unknown" end in
      if String.eqb m "cohere" then
        ((e_score evaluation,
          Some ("[EVALUATED BY COHERE AI] " +:+ two_newlines +:+ printed (e_feedback evaluation)),
          e_criteria evaluation),
         say (success, "Answer evaluated using Cohere AI") l)
      else if String.eqb m "fallback" then
        ((e_score evaluation,
          Some ("[EVALUATED BY FALLBACK SYSTEM] " +:+ two_newlines +:+ printed (e_feedback evaluation)),
          e_criteria evaluation),
         say (info, "Answer evaluated using fallback system") l)
      else ((e_score evaluation, e_feedback evaluation, e_criteria evaluation), l)
  | _ =>
      let '(score, feedback) := mockEvaluateAnswer (random env) in
      ((Some (inject_Z score),
        Some ("[MOCK EVALUATION] " +:+ feedback +:+ mock_note), None),
       say (error, "Evaluation failed, using backup method") l)
  end.

(** The score [saveAnswer] ends up with: the one of the evaluation, or the
    mock one when the evaluation failed. *)
Definition saved_score (env : Env) : option Q :=
  match evaluated env with
  | EvaluateResolves (Some evaluation) _ => e_score evaluation
  | _ => Some (inject_Z (mock_score (random env)))
  end.

(** The test before the too-short warning. *)
Definition too_short (finalTranscript : string) : bool :=
  (wordCount finalTranscript <? 5)%nat
  && negb (includes finalTranscript "[TRANSCRIPTION FAILED]").

(** [criteria.x || 0] on each axis. *)
Definition q_or_zero (q : Q) : Q := if Qeq_bool q 0 then 0%Q else q.

Definition formatCriteria (c : option AI.Criteria) : AI.Criteria :=
  match c with
  | Some c =>
      {| AI.technicalAccuracy := q_or_zero (AI.technicalAccuracy c);
         AI.completeness := q_or_zero (AI.completeness c);
         AI.clarity := q_or_zero (AI.clarity c);
         AI.examples := q_or_zero (AI.examples c) |}
  | None =>
      {| AI.technicalAccuracy := 0; AI.completeness := 0;
         AI.clarity := 0; AI.examples := 0 |}
  end.

(** Lines 546-633: upload the audio, then create the Answer; both sit in
    one [try], so a failed upload skips the create. Returns the id the
    server gave, if any. *)
Definition uploadAndCreate (interviewId questionId : string) (audioBlob : Blob)
    (transcriptToSave : string) (code codeLanguage : string)
    (score : option Q) (feedback : option string) (criteria : option AI.Criteria)
    (env : Env) (l : Log) : option string * Log :=
  let uploadBlob :=
    if nonempty (blob_type audioBlob) then audioBlob
    else {| blob_size := blob_size audioBlob; blob_type := "audio/webm" |} in
  let l := send (ReqUpload uploadBlob) l in
  let failed := say local_only_warning in
  match uploaded env with
  | UploadRejects | UploadResolves false _ => (None, failed l)
  | UploadResolves true serverAudioUrl =>
      let body :=
        {| c_interview := interviewId; c_question := questionId;
           c_transcript := transcriptToSave; c_audioUrl := serverAudioUrl;
           c_code := code; c_codeLanguage := str_or codeLanguage "javascript";
           c_score := score; c_feedback := default "" feedback;
           c_criteria := formatCriteria criteria |} in
      let l := send (ReqCreate body) l in
      match created env with
      | CreateRejects => (None, failed l)
      | CreateResolves id => (id, l)
      end
  end.

Record Saved := {
  rejected : bool;
  interviews_after : list Interview;
  log : Log
}.

Definition add_answer (interviewId : string) (updated : Interview) (i : Interview)
  : Interview :=
  if String.eqb (i_id i) interviewId then updated else i.

Section SaveAnswer.

(** [URL.createObjectURL]. *)
Variable createObjectURL : Blob -> string.

(** [saveAnswer(interviewId, questionId, audioBlob, transcript, code,
    codeLanguage)] over the context's [interviews] and the questions of
    [questionsByStack], in the order the lookup goes through them;
    [tempId] is [Date.now().toString()]. The [codeEvaluation] excerpt of
    the Answer is not modelled. *)
Definition saveAnswer (interviews : list Interview) (questions : list Question)
    (useFreeMode : bool) (tempId : string)
    (interviewId questionId : string) (audioBlob : Blob)
    (transcript code codeLanguage : option string) (env : Env) (l : Log) : Saved :=
  let fail := {| rejected := true; interviews_after := interviews;
                 log := say (error, "Failed to save answer") l |} in
  match List.find (fun i => String.eqb (i_id i) interviewId) interviews with
  | None => fail
  | Some interview =>
      let audioUrl := createObjectURL audioBlob in
      match List.find (fun q => String.eqb (q_id q) questionId) questions with
      | None => fail
      | Some question =>
          let '(finalTranscript, l) :=
            getTranscript useFreeMode audioBlob transcript env l in
          match finalTranscript with
          | None =>
              {| rejected := true; interviews_after := interviews;
                 log := say (error, "Failed to save answer") l |}
          | Some finalTranscript =>
              let l :=
                if too_short finalTranscript then say too_short_warning l
                else l in
              let '((score, feedback, criteria), l) :=
                getEvaluation (q_text question) finalTranscript code env l in
              let '(serverId, l) :=
                uploadAndCreate interviewId questionId audioBlob finalTranscript
                  (default "" code) (default "" codeLanguage)
                  score feedback criteria env l in
              let answer :=
                {| a_id := default tempId serverId;
                   a_questionId := questionId;
                   a_audioUrl := audioUrl;
                   a_transcript := finalTranscript;
                   a_code := default "" code;
                   a_codeLanguage := default "" codeLanguage;
                   a_score := score; a_feedback := feedback;
                   a_criteria := criteria |} in
              let updatedInterview :=
                {| i_id := i_id interview; i_candidateId := i_candidateId interview;
                   i_stackId := i_stackId interview;
                   i_answers := i_answers interview ++ [answer] |} in
              {| rejected := false;
                 interviews_after := map (add_answer interviewId updatedInterview) interviews;
                 log := say (success, "Answer saved!") l |}
          end
      end
  end.

End SaveAnswer.

End Context.

(** ** [src/pages/Interview.tsx]: the question page as a state machine

    One event handler runs to its end, its state updates are applied
    together, and then the effect on [autoSubmitCountdown], [isAnswering]
    and [timeRemaining] runs if one of the three changed. An awaiting
    handler is taken as one step; [isSubmitting], which is true only while
    one runs, is therefore left out, and so are the two storage copies of
    the progress and [handleFinishInterview]. *)

Module Session.

Import Client JsString.

(** Maximum time per question in seconds. *)
Definition MAX_QUESTION_TIME : Z := 120.

Record LocalAnswer := {
  l_questionId : string;
  l_questionText : string;
  l_audioBlob : option Blob;
  l_audioUrl : string;
  l_transcript : string;
  l_code : string;
  l_score : option Q;
  l_feedback : option string;
  l_criteria : option AI.Criteria
}.

(** The countdown state and the three timers: [timerRef] and
    [autoSubmitRef] say whether the interval is running, [effectTimer]
    whether the effect's one-second timeout is pending. *)
Record Timers := {
  timeRemaining : Z;
  autoSubmitCountdown : Z;
  timerWarning : bool;
  hasTimerStarted : bool;
  timerRef : bool;
  autoSubmitRef : bool;
  effectTimer : bool
}.

Record Page := {
  currentQuestionIndex : nat;
  isAnswering : bool;
  answeredQuestions : gset string;
  localAnswers : list LocalAnswer;
  showComplete : bool;
  showCodeEditor : bool;
  code : string;
  timers : Timers;
  interviews : list Interview;
  log : Context.Log
}.

Definition with_timers (f : Timers -> Timers) (p : Page) : Page :=
  {| currentQuestionIndex := currentQuestionIndex p; isAnswering := isAnswering p;
     answeredQuestions := answeredQuestions p; localAnswers := localAnswers p;
     showComplete := showComplete p; showCodeEditor := showCodeEditor p;
     code := code p; timers := f (timers p);
     interviews := interviews p; log := log p |}.

Definition with_log (f : Context.Log -> Context.Log) (p : Page) : Page :=
  {| currentQuestionIndex := currentQuestionIndex p; isAnswering := isAnswering p;
     answeredQuestions := answeredQuestions p; localAnswers := localAnswers p;
     showComplete := showComplete p; showCodeEditor := showCodeEditor p;
     code := code p; timers := timers p;
     interviews := interviews p; log := f (log p) |}.

Definition setIsAnswering (b : bool) (p : Page) : Page :=
  {| currentQuestionIndex := currentQuestionIndex p; isAnswering := b;
     answeredQuestions := answeredQuestions p; localAnswers := localAnswers p;
     showComplete := showComplete p; showCodeEditor := showCodeEditor p;
     code := code p; timers := timers p;
     interviews := interviews p; log := log p |}.

Definition setAnsweredQuestions (f : gset string -> gset string) (p : Page) : Page :=
  {| currentQuestionIndex := currentQuestionIndex p; isAnswering := isAnswering p;
     answeredQuestions := f (answeredQuestions p); localAnswers := localAnswers p;
     showComplete := showComplete p; showCodeEditor := showCodeEditor p;
     code := code p; timers := timers p;
     interviews := interviews p; log := log p |}.

Definition setLocalAnswers (f : list LocalAnswer -> list LocalAnswer) (p : Page) : Page :=
  {| currentQuestionIndex := currentQuestionIndex p; isAnswering := isAnswering p;
     answeredQuestions := answeredQuestions p; localAnswers := f (localAnswers p);
     showComplete := showComplete p; showCodeEditor := showCodeEditor p;
     code := code p; timers := timers p;
     interviews := interviews p; log := log p |}.

Definition setCurrentQuestionIndex (f : nat -> nat) (p : Page) : Page :=
  {| currentQuestionIndex := f (currentQuestionIndex p); isAnswering := isAnswering p;
     answeredQuestions := answeredQuestions p; localAnswers := localAnswers p;
     showComplete := showComplete p; showCodeEditor := showCodeEditor p;
     code := code p; timers := timers p;
     interviews := interviews p; log := log p |}.

Definition setShowComplete (b : bool) (p : Page) : Page :=
  {| currentQuestionIndex := currentQuestionIndex p; isAnswering := isAnswering p;
     answeredQuestions := answeredQuestions p; localAnswers := localAnswers p;
     showComplete := b; showCodeEditor := showCodeEditor p;
     code := code p; timers := timers p;
     interviews := interviews p; log := log p |}.

Definition setEditor (shown : bool) (text : string) (p : Page) : Page :=
  {| currentQuestionIndex := currentQuestionIndex p; isAnswering := isAnswering p;
     answeredQuestions := answeredQuestions p; localAnswers := localAnswers p;
     showComplete := showComplete p; showCodeEditor := shown;
     code := text; timers := timers p;
     interviews := interviews p; log := log p |}.

Definition setInterviews (l : list Interview) (p : Page) : Page :=
  {| currentQuestionIndex := currentQuestionIndex p; isAnswering := isAnswering p;
     answeredQuestions := answeredQuestions p; localAnswers := localAnswers p;
     showComplete := showComplete p; showCodeEditor := showCodeEditor p;
     code := code p; timers := timers p;
     interviews := l; log := log p |}.

Definition toast (k : ToastKind) (message : string) : Page -> Page :=
  with_log (Context.say (k, message)).

Definition request (r : Request) : Page -> Page := with_log (Context.send r).

Definition setTimeRemaining (t : Z) (x : Timers) : Timers :=
  {| timeRemaining := t; autoSubmitCountdown := autoSubmitCountdown x;
     timerWarning := timerWarning x; hasTimerStarted := hasTimerStarted x;
     timerRef := timerRef x; autoSubmitRef := autoSubmitRef x;
     effectTimer := effectTimer x |}.

Definition setAutoSubmitCountdown (c : Z) (x : Timers) : Timers :=
  {| timeRemaining := timeRemaining x; autoSubmitCountdown := c;
     timerWarning := timerWarning x; hasTimerStarted := hasTimerStarted x;
     timerRef := timerRef x; autoSubmitRef := autoSubmitRef x;
     effectTimer := effectTimer x |}.

Definition setTimerWarning (b : bool) (x : Timers) : Timers :=
  {| timeRemaining := timeRemaining x; autoSubmitCountdown := autoSubmitCountdown x;
     timerWarning := b; hasTimerStarted := hasTimerStarted x;
     timerRef := timerRef x; autoSubmitRef := autoSubmitRef x;
     effectTimer := effectTimer x |}.

Definition setHasTimerStarted (b : bool) (x : Timers) : Timers :=
  {| timeRemaining := timeRemaining x; autoSubmitCountdown := autoSubmitCountdown x;
     timerWarning := timerWarning x; hasTimerStarted := b;
     timerRef := timerRef x; autoSubmitRef := autoSubmitRef x;
     effectTimer := effectTimer x |}.

Definition setTimerRef (b : bool) (x : Timers) : Timers :=
  {| timeRemaining := timeRemaining x; autoSubmitCountdown := autoSubmitCountdown x;
     timerWarning := timerWarning x; hasTimerStarted := hasTimerStarted x;
     timerRef := b; autoSubmitRef := autoSubmitRef x;
     effectTimer := effectTimer x |}.

Definition setAutoSubmitRef (b : bool) (x : Timers) : Timers :=
  {| timeRemaining := timeRemaining x; autoSubmitCountdown := autoSubmitCountdown x;
     timerWarning := timerWarning x; hasTimerStarted := hasTimerStarted x;
     timerRef := timerRef x; autoSubmitRef := b;
     effectTimer := effectTimer x |}.

Definition setEffectTimer (b : bool) (x : Timers) : Timers :=
  {| timeRemaining := timeRemaining x; autoSubmitCountdown := autoSubmitCountdown x;
     timerWarning := timerWarning x; hasTimerStarted := hasTimerStarted x;
     timerRef := timerRef x; autoSubmitRef := autoSubmitRef x;
     effectTimer := b |}.

(** The outcomes of the calls a handler of the page makes itself (the
    upload and the evaluation it starts, the [fetch] of the uploaded
    file) and of the calls of the [saveAnswer] it then runs. *)
Record Outcomes := {
  upload1 : UploadOutcome;
  evaluation1 : EvaluateOutcome;
  fetched : option Blob;
  saving : Context.Env
}.

Inductive Event :=
| StartAnswering       (* "Answer This Question" *)
| TimerTick            (* the interval of [timerRef] fires *)
| GraceTick            (* the interval of [autoSubmitRef] fires *)
| EffectTimeout        (* the timeout set by the countdown effect fires *)
| RecordingDone (audio : Blob) (transcript : option string)
| ToggleCodeEditor
| EditCode (text : string)
| SaveResponse         (* "Save Response" *)
| NextQuestion         (* [handleNextQuestion] *)
| SkipQuestion         (* [handleSkipQuestion] *)
| NextOutline.         (* the outline "Next Question" button *)

Definition placeholder : string := "[TRANSCRIPT FROM WEB SPEECH API NOT AVAILABLE]".
Definition no_verbal : string := "No verbal response provided.".

(** [x || null] on a score, a feedback text. *)
Definition score_or_null (x : option Q) : option Q :=
  match x with
  | Some q => if Qeq_bool q 0 then None else Some q
  | None => None
  end.

Definition text_or_null (x : option string) : option string :=
  match x with
  | Some t => if nonempty t then Some t else None
  | None => None
  end.

Definition other_question (qid : string) (a : LocalAnswer) : bool :=
  negb (String.eqb (l_questionId a) qid).

(** [prev => [...prev.filter(a => a.questionId !== id), localAnswer]] *)
Definition replace_local (a : LocalAnswer) (prev : list LocalAnswer) : list LocalAnswer :=
  List.filter (other_question (l_questionId a)) prev ++ [a].

Definition set_evaluation (qid : string) (e : EvalData) (a : LocalAnswer) : LocalAnswer :=
  if String.eqb (l_questionId a) qid then
    {| l_questionId := l_questionId a; l_questionText := l_questionText a;
       l_audioBlob := l_audioBlob a; l_audioUrl := l_audioUrl a;
       l_transcript := l_transcript a; l_code := l_code a;
       l_score := score_or_null (e_score e);
       l_feedback := text_or_null (e_feedback e);
       l_criteria := e_criteria e |}
  else a.

Definition time_up_warning : Toast :=
  (warning, "Time's up! Your answer was not recorded. You can try again or navigate to another question.").
Definition thirty_seconds_warning : Toast :=
  (warning, "30 seconds remaining for this question!").

(** [handleTimeUp], the handler the grace interval calls at its end. *)
Definition handleTimeUp (p : Page) : Page :=
  with_timers (setHasTimerStarted false)
    (setIsAnswering false (with_log (Context.say time_up_warning) p)).

(** [handleStartAnswering]: reset the time and start the interval. *)
Definition handleStartAnswering (p : Page) : Page :=
  with_timers (fun x => setTimerRef true (setHasTimerStarted true
                          (setTimeRemaining MAX_QUESTION_TIME x)))
    (setIsAnswering true p).

(** One firing of the interval of [timerRef]. *)
Definition timerTick (p : Page) : Page :=
  let newTime := timeRemaining (timers p) - 1 in
  let p :=
    if newTime =? 30
    then with_log (Context.say thirty_seconds_warning)
           (with_timers (setTimerWarning true) p)
    else p in
  let p :=
    if newTime <=? 0
    then with_timers (fun x => setAutoSubmitRef true (setAutoSubmitCountdown 5
                                 (setTimerRef false x))) p
    else p in
  with_timers (setTimeRemaining (Z.max 0 newTime)) p.

(** One firing of the interval of [autoSubmitRef]. *)
Definition graceTick (p : Page) : Page :=
  let newCount := autoSubmitCountdown (timers p) - 1 in
  if newCount <=? 0
  then with_timers (setAutoSubmitCountdown 0)
         (handleTimeUp (with_timers (setAutoSubmitRef false) p))
  else with_timers (setAutoSubmitCountdown newCount) p.

(** The timeout of the countdown effect: [setAutoSubmitCountdown(prev => prev - 1)]. *)
Definition effectTimeout (p : Page) : Page :=
  with_timers (fun x => setEffectTimer false
                 (setAutoSubmitCountdown (autoSubmitCountdown x - 1) x)) p.

(** [handleNextQuestion] and [handleSkipQuestion], which have one body. *)
Definition handleNextQuestion (questions : list Question) (p : Page) : Page :=
  let p := with_timers (fun x => setAutoSubmitCountdown 0 (setHasTimerStarted false
                          (setAutoSubmitRef false (setTimerRef false x))))
             (setIsAnswering false p) in
  if (currentQuestionIndex p <? length questions - 1)%nat
  then setCurrentQuestionIndex S p
  else setShowComplete true p.

(** An upload started by the page: the request, and the error toast
    when it does not deliver. *)
Definition pageUpload (audio : Blob) (o : Outcomes) (p : Page) : Page :=
  let p := request (ReqUpload audio) p in
  if upload_failed (upload1 o) then with_log (Context.say Context.upload_error) p else p.

(** An evaluation asked by the page, when there is something to
    evaluate: the request, the evaluation received (if any), and the error
    toast. [strict] is the check of [handleSaveResponse] that the answer
    carries data. *)
Definition pageEvaluate (ask strict : bool) (question transcript : string)
    (code : option string) (o : Outcomes) (p : Page) : option EvalData * Page :=
  if ask then
    let p := request (ReqEvaluate question (str_or transcript no_verbal) code) p in
    match evaluation1 o with
    | EvaluateResolves (Some e) _ => (Some e, p)
    | EvaluateResolves None _ =>
        (None, if strict then toast error "Invalid AI evaluation response format" p else p)
    | EvaluateRejects => (None, toast error "Failed to get AI evaluation" p)
    end
  else (None, p).

Section Handlers.

Variable createObjectURL : Blob -> string.
(** The questions of the interview, [currentInterview?.id], the mode
    of the context, and [Date.now().toString()]. *)
Variable questions : list Question.
Variable currentInterview : option string.
Variable useFreeMode : bool.
Variable tempId : string.

(** [questions[currentQuestionIndex] || null] *)
Definition currentQuestion (p : Page) : option Question :=
  questions !! currentQuestionIndex p.

(** The [saveAnswer] of the context, called from the page. *)
Definition callSaveAnswer (interviewId questionId : string) (audio : Blob)
    (transcript shownCode : string) (o : Outcomes) (p : Page) : Page :=
  let r := Context.saveAnswer createObjectURL (interviews p) questions useFreeMode
             tempId interviewId questionId audio (Some transcript) (Some shownCode)
             None (saving o) (log p) in
  setInterviews (Context.interviews_after r) (with_log (fun _ => Context.log r) p).

(** The [onRecordingComplete] given to the AudioRecorder: the recording
    is kept in [localAnswers], nothing else. *)
Definition onRecordingComplete (audioBlob : Blob) (transcript : option string)
    (p : Page) : Page :=
  match currentQuestion p with
  | None => p
  | Some question =>
      let localAnswer :=
        {| l_questionId := q_id question; l_questionText := q_text question;
           l_audioBlob := Some audioBlob; l_audioUrl := createObjectURL audioBlob;
           l_transcript := default "" transcript;
           l_code := if showCodeEditor p then code p else "";
           l_score := None; l_feedback := None; l_criteria := None |} in
      toast success ("Recording completed! Click " +:+ quoted "Save Response" +:+ " when you are ready to submit.")
        (setLocalAnswers (replace_local localAnswer) p)
  end.

(** [handleSaveResponse]. *)
Definition handleSaveResponse (o : Outcomes) (p : Page) : Page :=
  match currentInterview, currentQuestion p with
  | Some interviewId, Some question =>
      let p := toast info "Saving your response..." p in
      let codeToSave := code p in
      let existingAnswer :=
        List.find (fun a => String.eqb (l_questionId a) (q_id question)) (localAnswers p) in
      let audioBlob := existingAnswer ≫= l_audioBlob in
      let transcript := from_option l_transcript "" existingAnswer in
      let shownCode := if showCodeEditor p then codeToSave else "" in
      let localAnswer :=
        {| l_questionId := q_id question; l_questionText := q_text question;
           l_audioBlob := audioBlob;
           l_audioUrl := from_option createObjectURL "" audioBlob;
           l_transcript := transcript; l_code := shownCode;
           l_score := None; l_feedback := None; l_criteria := None |} in
      let p := setLocalAnswers (replace_local localAnswer) p in
      let p := setAnsweredQuestions (fun prev => prev ∪ {[ q_id question ]}) p in
      let p := from_option (fun b => pageUpload b o p) p audioBlob in
      let asked :=
        pageEvaluate (nonempty transcript || (showCodeEditor p && nonempty codeToSave))
          true (q_text question) transcript
          (if showCodeEditor p && nonempty codeToSave then Some codeToSave else None)
          o p in
      let p :=
        match asked.1 with
        | Some e => setLocalAnswers (map (set_evaluation (q_id question) e)) asked.2
        | None => asked.2
        end in
      let audioBlobToSave :=
        match audioBlob with
        | Some b => b
        | None => {| blob_size := String.length shownCode; blob_type := "audio/webm" |}
        end in
      let p := callSaveAnswer interviewId (q_id question) audioBlobToSave
                 transcript shownCode o p in
      toast success ("Response saved successfully! Click " +:+ quoted "Next Question" +:+ " when you are ready to continue.") p
  | _, _ => p
  end.

(** [handleRecordingComplete]. *)
Definition handleRecordingComplete (o : Outcomes) (audioBlob : Blob)
    (transcript : option string) (p : Page) : Page :=
  match currentInterview, currentQuestion p with
  | Some interviewId, Some question =>
      let actualTranscript :=
        match transcript with
        | Some t => if nonempty t && negb (includes t placeholder) then t else ""
        | None => ""
        end in
      let p := pageUpload audioBlob o p in
      let shownCode := if showCodeEditor p then code p else "" in
      let asked :=
        pageEvaluate (nonempty actualTranscript || (showCodeEditor p && nonempty (code p)))
          false (q_text question) actualTranscript
          (if showCodeEditor p then Some (code p) else None) o p in
      let aiEvaluation := asked.1 in
      let p := asked.2 in
      let audioBlobToSave := default empty_webm (fetched o) in
      let p := callSaveAnswer interviewId (q_id question) audioBlobToSave
                 actualTranscript shownCode o p in
      let localAnswer :=
        {| l_questionId := q_id question; l_questionText := q_text question;
           l_audioBlob := Some audioBlob; l_audioUrl := createObjectURL audioBlob;
           l_transcript := actualTranscript; l_code := shownCode;
           l_score := score_or_null (aiEvaluation ≫= e_score);
           l_feedback := text_or_null (aiEvaluation ≫= e_feedback);
           l_criteria := aiEvaluation ≫= e_criteria |} in
      let p := setLocalAnswers (replace_local localAnswer) p in
      let p := setAnsweredQuestions (fun prev => prev ∪ {[ q_id question ]}) p in
      toast success "Answer recorded and evaluated! You can continue editing your code or move to the next question when ready." p
  | _, _ => p
  end.

(** The handler of an event. An event whose button is not rendered or
    is disabled, or whose timer is not running, changes nothing. *)
Definition handle (o : Outcomes) (e : Event) (p : Page) : Page :=
  match e with
  | TimerTick => if timerRef (timers p) then timerTick p else p
  | GraceTick => if autoSubmitRef (timers p) then graceTick p else p
  | EffectTimeout => if effectTimer (timers p) then effectTimeout p else p
  | _ =>
      if showComplete p then p
      else
        match e with
        | StartAnswering => if isAnswering p then p else handleStartAnswering p
        | NextOutline =>
            if isAnswering p then p
            else setCurrentQuestionIndex
                   (fun prev => Nat.min (length questions - 1) (prev + 1)) p
        | SkipQuestion => handleNextQuestion questions p
        | _ =>
            if negb (isAnswering p) then p
            else
              match e with
              | RecordingDone audio transcript => onRecordingComplete audio transcript p
              | ToggleCodeEditor => setEditor (negb (showCodeEditor p)) (code p) p
              | EditCode text =>
                  if showCodeEditor p then setEditor true text p else p
              | SaveResponse => handleSaveResponse o p
              | NextQuestion => handleNextQuestion questions p
              | _ => p
              end
        end
  end.

Definition same_deps (a b : Page) : bool :=
  (autoSubmitCountdown (timers a) =? autoSubmitCountdown (timers b))
  && Bool.eqb (isAnswering a) (isAnswering b)
  && (timeRemaining (timers a) =? timeRemaining (timers b)).

(** The effect on [autoSubmitCountdown, isAnswering, timeRemaining]
    (lines 144-157), run after a render in which one of the three
    differs from the render before: its cleanup clears the pending
    timeout, then it either sets a new one or, at countdown 0 while
    answering with no time left, calls [handleRecordingComplete(new
    Blob(), '')]. *)
Definition countdownEffect (o : Outcomes) (before after : Page) : Page :=
  if same_deps before after then after
  else
    let c := autoSubmitCountdown (timers after) in
    if (0 <? c) && (c <=? 5) then with_timers (setEffectTimer true) after
    else
      let p := with_timers (setEffectTimer false) after in
      if (c =? 0) && isAnswering p && (timeRemaining (timers p) =? 0)
      then handleRecordingComplete o empty_blob (Some "") p
      else p.

Definition step (o : Outcomes) (e : Event) (p : Page) : Page :=
  countdownEffect o p (handle o e p).

(** A run: the events in order, each with the outcomes of the calls it
    makes. *)
Fixpoint run (events : list (Event * Outcomes)) (p : Page) : Page :=
  match events with
  | [] => p
  | (e, o) :: rest => run rest (step o e p)
  end.

End Handlers.

(** Between two questions: no answer is being given and no timer runs. *)
Definition idle (p : Page) : Prop :=
  isAnswering p = false /\ showComplete p = false /\
  autoSubmitCountdown (timers p) = 0 /\
  timerRef (timers p) = false /\ autoSubmitRef (timers p) = false /\
  effectTimer (timers p) = false.

(** The timers once the time of a question and its grace are over. *)
Definition timers_over : Timers :=
  {| timeRemaining := 0; autoSubmitCountdown := 0;
     timerWarning := true; hasTimerStarted := false;
     timerRef := false; autoSubmitRef := false; effectTimer := false |}.

(** The page as it mounts. *)
Definition mounted (interviews : list Interview) : Page :=
  {| currentQuestionIndex := 0; isAnswering := false;
     answeredQuestions := ∅; localAnswers := [];
     showComplete := false; showCodeEditor := false; code := "";
     timers := {| timeRemaining := MAX_QUESTION_TIME; autoSubmitCountdown := 0;
                  timerWarning := false; hasTimerStarted := false;
                  timerRef := false; autoSubmitRef := false; effectTimer := false |};
     interviews := interviews;
     log := {| Context.toasts := []; Context.requests := [] |} |}.

End Session.

(** ** An instance of [JSON.parse]

    The grammar of JSON without escapes in strings and without exponents
    in numbers, enough to read an evaluation object. The properties below
    hold for any parser; this one runs the examples. *)

Module MiniJson.

Import JsString.

Definition is_digit (c : ascii) : bool := ((48 <=? code c) && (code c <=? 57))%N.

(** JSON white space: space, tab, line feed, carriage return. *)
Definition is_ws (c : ascii) : bool :=
  let n := code c in ((n =? 32) || (n =? 9) || (n =? 10) || (n =? 13))%N.

Fixpoint skip_ws (s : string) : string :=
  match s with
  | String c r => if is_ws c then skip_ws r else s
  | EmptyString => s
  end.

(** A run of digits: its value on top of [acc], its length, the rest. *)
Fixpoint digits (acc : N) (count : nat) (s : string) : N * nat * string :=
  match s with
  | String c r =>
      if is_digit c then digits (acc * 10 + (code c - 48))%N (S count) r
      else (acc, count, s)
  | EmptyString => (acc, count, s)
  end.

(** An unsigned number: digits, then an optional fraction. *)
Definition number (s : string) : option (Q * string) :=
  match digits 0 0 s with
  | (_, O, _) => None
  | (n, _, String c r) =>
      if (code c =? 46)%N then
        match digits 0 0 r with
        | (_, O, _) => None
        | (m, k, r') =>
            let scale := Pos.pow 10 (Pos.of_nat k) in
            Some (Qred (Z.of_N (n * Npos scale + m) # scale), r')
        end
      else Some (inject_Z (Z.of_N n), String c r)
  | (n, _, EmptyString) => Some (inject_Z (Z.of_N n), EmptyString)
  end.

(** The characters of a string up to its closing quote. *)
Fixpoint string_body (s : string) : option (string * string) :=
  match s with
  | EmptyString => None
  | String c r =>
      if (code c =? 34)%N then Some (EmptyString, r)
      else if ((code c =? 92) || (code c <? 32))%N then None
      else '(t, r') ← string_body r; Some (String c t, r')
  end.

Fixpoint value (fuel : nat) (s : string) {struct fuel} : option (Json * string) :=
  match fuel with
  | O => None
  | S f =>
      let s := skip_ws s in
      if startsWith s "null" then Some (JNull, drop 4 s)
      else if startsWith s "true" then Some (JBool true, drop 4 s)
      else if startsWith s "false" then Some (JBool false, drop 5 s)
      else
        match s with
        | String c r =>
            if (code c =? 34)%N then '(t, r') ← string_body r; Some (JStr t, r')
            else if (code c =? 45)%N then '(q, r') ← number r; Some (JNum (- q), r')
            else if is_digit c then '(q, r') ← number s; Some (JNum q, r')
            else if (code c =? 91)%N then
              if startsWith (skip_ws r) "]" then Some (JArr [], drop 1 (skip_ws r))
              else items f r []
            else if (code c =? 123)%N then
              if startsWith (skip_ws r) "}" then Some (JObj [], drop 1 (skip_ws r))
              else members f r []
            else None
        | EmptyString => None
        end
  end
with items (fuel : nat) (s : string) (acc : list Json) {struct fuel}
  : option (Json * string) :=
  match fuel with
  | O => None
  | S f =>
      '(v, r) ← value f s;
      match skip_ws r with
      | String c r' =>
          if (code c =? 44)%N then items f r' (acc ++ [v])
          else if (code c =? 93)%N then Some (JArr (acc ++ [v]), r')
          else None
      | EmptyString => None
      end
  end
with members (fuel : nat) (s : string) (acc : list (string * Json)) {struct fuel}
  : option (Json * string) :=
  match fuel with
  | O => None
  | S f =>
      match skip_ws s with
      | String c r =>
          if (code c =? 34)%N then
            '(k, r1) ← string_body r;
            match skip_ws r1 with
            | String c2 r2 =>
                if (code c2 =? 58)%N then
                  '(v, r3) ← value f r2;
                  match skip_ws r3 with
                  | String c3 r4 =>
                      if (code c3 =? 44)%N then members f r4 (acc ++ [(k, v)])
                      else if (code c3 =? 125)%N then Some (JObj (acc ++ [(k, v)]), r4)
                      else None
                  | EmptyString => None
                  end
                else None
            | EmptyString => None
            end
          else None
      | EmptyString => None
      end
  end.

Definition parse (s : string) : option Json :=
  '(v, r) ← value (2 * String.length s + 2) s;
  match skip_ws r with
  | EmptyString => Some v
  | String _ _ => None
  end.

End MiniJson.

(** * The rest of the routes, the invitation link and the end of a session

    - [InterviewAccess]: the reading and deleting routes of
      [server/routes/interviews.js];
    - [Invitation]: [verifyInterviewToken] of [server/controllers/email.js];
    - [AnswerAccess]: the reading and deleting routes of
      [server/routes/answers.js];
    - [Refresh]: the state update of [refreshInterview] in
      [src/context/InterviewContext.tsx];
    - [Finish]: [handleFinishInterview], [formatTime] and the progress bar
      of [src/pages/Interview.tsx]. *)

(** ** [server/routes/interviews.js]: reading and deleting *)

Module InterviewAccess.

Import Interviews.

(** [Interview.find(query)]: every interview for an admin, the caller's
    own for anybody else. *)
Definition visible (db : gmap string Interview) (u : User) : gmap string Interview :=
  if negb (is_admin u)
  then filter (fun kv => candidate kv.2 = user_id u) db
  else db.

(** [router.get('/')]: the interviews found, each with its id. *)
Definition get_all (db : gmap string Interview) (u : User)
  : Response (list (string * Interview)) :=
  Success 200 (map_to_list (visible db u)).

Definition msg_access_forbidden := "Not authorized to access this interview".

(** [router.get('/:id')]. *)
Definition get_one (db : gmap string Interview) (u : User) (id : string)
  : Response Interview :=
  match db !! id with
  | None => Failure 404 msg_not_found
  | Some interview =>
      if negb (String.eqb (candidate interview) (user_id u)) && negb (is_admin u) then
        Failure 403 msg_access_forbidden
      else Success 200 interview
  end.

(** [router.delete('/:id')], the handler behind [authorize('admin')]:
    [interview.deleteOne()] removes the interview and nothing else. *)
Definition remove (db : gmap string Interview) (id : string)
  : Response unit * gmap string Interview :=
  match db !! id with
  | None => (Failure 404 msg_not_found, db)
  | Some _ => (Success 200 tt, delete id db)
  end.

(** Two interviews that differ in their status at most. *)
Definition same_but_status (a b : Interview) : Prop :=
  candidate b = candidate a /\ scheduledDate b = scheduledDate a /\
  scheduledTime b = scheduledTime a /\ duration b = duration a.

(** What a request on the interview [id] leaves of the collection: the
    interview is still there and has changed in its status at most, and
    every other interview is as it was. *)
Definition status_only (id : string) (db db' : gmap string Interview) : Prop :=
  (forall j, j <> id -> db' !! j = db !! j) /\
  (forall i, db !! id = Some i ->
     exists i', db' !! id = Some i' /\ same_but_status i i') /\
  (db !! id = None -> db' !! id = None).

End InterviewAccess.

(** ** [server/controllers/email.js]: [verifyInterviewToken] *)

Module Invitation.

Import Interviews JsString.

(** [a <= b] on Dates: false as soon as one side is NaN. *)
Definition date_le (a b : JsDate) : bool :=
  match a, b with
  | ValidDate x, ValidDate y => x <=? y
  | _, _ => false
  end.

(** [Math.ceil((scheduledDateTime.getTime() - now.getTime()) / (1000 * 60))] *)
Definition minutesUntilStart (scheduled now : Z) : Z := - ((now - scheduled) / 60000).

Definition msg_invalid_token := "Invalid interview token".
Definition msg_not_active := "Interview is not currently active".
Definition msg_expired :=
  "Interview time window has expired. The link is only valid for 10 minutes after the scheduled start time. Please contact the recruiter.".
Definition msg_early (minutes : Z) : string :=
  "Interview has not started yet. Please join at the scheduled time in "
  +:+ of_nat (Z.to_nat minutes) +:+ " minute(s).".

Definition msg_no_interview (id : string) : string :=
  "Interview not found with id of " +:+ id.

Section Verify.

Variable date_to_string : Z -> string.
Variable date_of_string : string -> JsDate.

(** [timeWindowEnd]: ten minutes after the scheduled start
    ([setMinutes(getMinutes() + 10)], in a time zone whose offset does
    not change within these ten minutes). *)
Definition timeWindowEnd (i : Interview) : JsDate :=
  date_plus (scheduledStart date_to_string date_of_string i) 600000.

(** [verifyInterviewToken]: [token] is [req.query.token], [now] the
    clock. *)
Definition verifyInterviewToken (db : gmap string Interview) (id : string)
    (token : option string) (now : Z) : Response Interview :=
  match db !! id with
  | None => Failure 404 (msg_no_interview id)
  | Some interview =>
      if negb (bool_decide (token = Some id)) then Failure 401 msg_invalid_token
      else
        let scheduledDateTime := scheduledStart date_to_string date_of_string interview in
        let isWithinTimeWindow :=
          date_le scheduledDateTime (ValidDate now)
          && date_le (ValidDate now) (timeWindowEnd interview) in
        let isTooEarly := date_lt (ValidDate now) scheduledDateTime in
        if negb isWithinTimeWindow then
          if isTooEarly then
            match scheduledDateTime with
            | ValidDate s => Failure 403 (msg_early (minutesUntilStart s now))
            | InvalidDate => Failure 403 msg_not_active
            end
          else if date_lt (timeWindowEnd interview) (ValidDate now) then
            Failure 410 msg_expired
          else Failure 403 msg_not_active
        else Success 200 interview
  end.

End Verify.

End Invitation.

(** ** [server/routes/answers.js]: reading and deleting *)

Module AnswerAccess.

Import Interviews Answers.

(** The interview an Answer refers to. *)
Definition interview_of (d : Stored) : option string :=
  json_str (fields d !! "interview").

(** The filter [{ interview: { $in: userInterviewIds } }], where the ids
    are those of [Interview.find({ candidate: req.user.id })]. *)
Definition of_own_interview (interviews : gmap string Interview) (u : User)
    (d : Stored) : bool :=
  match interview_of d ≫= (interviews !!.) with
  | Some interview => String.eqb (candidate interview) (user_id u)
  | None => false
  end.

(** The filter [{ interview: id }]. *)
Definition of_interview (id : string) (d : Stored) : bool :=
  bool_decide (interview_of d = Some id).

(** [router.get('/')]; [query] is [req.query.interview]. *)
Definition get_all (interviews : gmap string Interview) (docs : list Stored)
    (u : User) (query : option string) : Response (list Stored) :=
  if JsString.given query then
    let id := default "" query in
    match interviews !! id with
    | None => Failure 404 "Interview not found"
    | Some interview =>
        if negb (String.eqb (candidate interview) (user_id u)) && negb (is_admin u) then
          Failure 403 "Not authorized to access these answers"
        else Success 200 (List.filter (of_interview id) docs)
    end
  else if negb (is_admin u) then
    Success 200 (List.filter (of_own_interview interviews u) docs)
  else Success 200 docs.

(** [router.get('/:id')]: the candidate of the Answer's interview is
    read before the caller's role is looked at, and reading it throws
    when the interview is gone. *)
Definition get_one (interviews : gmap string Interview) (docs : list Stored)
    (u : User) (id : nat) : Response Stored :=
  match find_by_id id docs with
  | None => Failure 404 "Answer not found"
  | Some answer =>
      match interview_of answer ≫= (interviews !!.) with
      | None => Failure 400 "Cannot read properties of null"
      | Some interview =>
          if negb (String.eqb (candidate interview) (user_id u)) && negb (is_admin u) then
            Failure 403 "Not authorized to access this answer"
          else Success 200 answer
      end
  end.

(** [answer.deleteOne()]: the document found leaves the collection. *)
Fixpoint remove_first (p : Stored -> bool) (docs : list Stored) : list Stored :=
  match docs with
  | [] => []
  | d :: rest => if p d then rest else d :: remove_first p rest
  end.

(** [router.delete('/:id')], the handler behind [authorize('admin')]. *)
Definition remove (docs : list Stored) (id : nat) : Response unit * list Stored :=
  match find_by_id id docs with
  | None => (Failure 404 "Answer not found", docs)
  | Some _ => (Success 200 tt, remove_first (has_id id) docs)
  end.


End AnswerAccess.

(** ** The range [min: 0, max: 10] of the scores of the Answer schema *)

Module Scores.

Definition in_range (x : Q) : Prop := (0 <= x)%Q /\ (x <= 10)%Q.

End Scores.

(** ** [src/context/InterviewContext.tsx]: [refreshInterview] *)

Module Refresh.

Import Client JsString.

(** What [interviewAPI.getById] delivers of an interview: its [_id], the
    id of its candidate and the id of its tech stack. *)
Record ApiInterview := {
  api_id : string;
  api_candidate : string;
  api_techStack : string
}.

(** The update of the [interviews] state (lines 878-887): the entries
    with the id are replaced, and the interview is added at the end when
    there was none. *)
Definition replaced (interviewId : string) (formattedInterview : Interview)
    (prev : list Interview) : list Interview :=
  let updated := map (Context.add_answer interviewId formattedInterview) prev in
  if negb (existsb (fun i => String.eqb (i_id i) interviewId) prev)
  then updated ++ [formattedInterview]
  else updated.

Record Refreshed := {
  returned : option Interview;
  interviews_after : list Interview;
  toasted : Toast
}.

(** [refreshInterview(interviewId)]: [fetched] is the interview the
    server delivers ([None] when the call fails or delivers nothing),
    [answers] the Answers of the interview in the client's format
    ([None] when that call fails or delivers nothing). *)
Definition refreshInterview (interviews : list Interview) (interviewId : string)
    (fetched : option ApiInterview) (answers : option (list Answer)) : Refreshed :=
  match fetched with
  | None =>
      {| returned := None; interviews_after := interviews;
         toasted := (error, "Failed to refresh interview data") |}
  | Some apiInterview =>
      let formattedInterview :=
        {| i_id := api_id apiInterview; i_candidateId := api_candidate apiInterview;
           i_stackId := api_techStack apiInterview;
           i_answers := default [] answers |} in
      {| returned := Some formattedInterview;
         interviews_after := replaced interviewId formattedInterview interviews;
         toasted := (success, "Interview data refreshed") |}
  end.

End Refresh.

(** ** [src/pages/Interview.tsx]: the clock, the progress bar and
    [handleFinishInterview] *)

Module Finish.

Import Client JsString Session.

(** *** [formatTime] *)

(** The decimal text of an integer ([Number.prototype.toString]). *)
Definition of_Z (z : Z) : string := DecimalString.NilZero.string_of_int (Z.to_int z).

(** [s.padStart(2, '0')] *)
Definition padStart2 (s : string) : string :=
  match String.length s with
  | O => "00"
  | S O => "0" +:+ s
  | _ => s
  end.

(** [formatTime(seconds)], for a whole number of seconds. *)
Definition formatTime (seconds : Z) : string :=
  let mins := seconds / 60 in
  let secs := Z.rem seconds 60 in
  padStart2 (of_Z mins) +:+ ":" +:+ padStart2 (of_Z secs).

(** The character of a decimal digit. *)
Definition digit (d : Z) : ascii := ascii_of_N (48 + Z.to_N d).

(** *** The progress bar *)

(** [(answeredQuestions.size / questions.length) * 100] *)
Definition progressPercentage (questions : list Question) (p : Page) : Q :=
  (inject_Z (Z.of_nat (size (answeredQuestions p)))
   / inject_Z (Z.of_nat (length questions)) * 100)%Q.

(** *** What holds of every page a session goes through *)

(** The countdown values are in their ranges, and the timeout of the
    countdown effect is pending only while the countdown shows. *)
Definition timers_in_range (x : Timers) : Prop :=
  0 <= timeRemaining x <= MAX_QUESTION_TIME /\
  0 <= autoSubmitCountdown x <= 5 /\
  (effectTimer x = true -> 0 < autoSubmitCountdown x).

(** The page shows a question of the list. *)
Definition on_a_question (questions : list Question) (p : Page) : Prop :=
  (currentQuestionIndex p < length questions)%nat.

(** The ids of the questions of the interview. *)
Definition question_ids (questions : list Question) : gset string :=
  list_to_set (map q_id questions).

(** No timer of the page is running. *)
Definition timers_off (p : Page) : Prop :=
  timerRef (timers p) = false /\ autoSubmitRef (timers p) = false /\
  effectTimer (timers p) = false.

(** What a handler that only talks to the server leaves of the page:
    everything but the log, the interviews of the context, the local
    answers and the set of answered questions. *)
Definition kept (p p' : Page) : Prop :=
  currentQuestionIndex p' = currentQuestionIndex p /\
  isAnswering p' = isAnswering p /\
  showComplete p' = showComplete p /\
  timers p' = timers p.

(** From [p] to [p'] the set of answered questions is the same or has
    gained the question [p] shows. *)
Definition grown (questions : list Question) (p p' : Page) : Prop :=
  answeredQuestions p' = answeredQuestions p \/
  exists question, questions !! currentQuestionIndex p = Some question /\
                   answeredQuestions p' = answeredQuestions p ∪ {[ q_id question ]}.

(** No two local answers are for the same question. *)
Definition one_each (p : Page) : Prop := NoDup (map l_questionId (localAnswers p)).

(** *** [handleFinishInterview] *)

(** An element of [batchAnswers]. [audioUrl], [score] and [feedback]
    can be [undefined]. *)
Record BatchItem := {
  b_interview : string;
  b_question : string;
  b_audioUrl : option string;
  b_transcript : string;
  b_code : string;
  b_codeLanguage : string;
  b_score : option Q;
  b_feedback : option string;
  b_criteria : AI.Criteria
}.

(** The outcomes of the two calls made for one local answer. *)
Record ItemOutcome := { uploading : UploadOutcome; evaluating : EvaluateOutcome }.

(** The calls [handleFinishInterview] makes, in order. *)
Inductive Call :=
| CallUpload (audio : Blob)
| CallEvaluate (question transcript code : string)
| CallBatch (items : list BatchItem)
| CallCreate (item : BatchItem)
| CallEnd (interviewId : string).

Record Trace := { shown : list Toast; calls : list Call }.

Definition show (t : Toast) (tr : Trace) : Trace :=
  {| shown := shown tr ++ [t]; calls := calls tr |}.
Definition call (c : Call) (tr : Trace) : Trace :=
  {| shown := shown tr; calls := calls tr ++ [c] |}.

Definition nothing : Trace := {| shown := []; calls := [] |}.

Definition zeros : AI.Criteria :=
  {| AI.technicalAccuracy := 0; AI.completeness := 0; AI.clarity := 0; AI.examples := 0 |}.
Definition fives : AI.Criteria :=
  {| AI.technicalAccuracy := 5; AI.completeness := 5; AI.clarity := 5; AI.examples := 5 |}.

Definition failed_feedback : string :=
  "Your answer has been recorded, but automatic evaluation failed. An admin will review your response.".

(** The evaluation an item starts with, and the one it gets when the
    evaluation throws. *)
Definition not_evaluated : option Q * option string * AI.Criteria :=
  (Some 0%Q, Some "", zeros).
Definition evaluation_failed : option Q * option string * AI.Criteria :=
  (Some 5%Q, Some failed_feedback, fives).

(** Lines 578-599: the upload of the recording, if there is one. The
    URL is [data.url], which the client adds to a successful answer, or
    else [data.data.fileUrl]; an answer has no other place for it. *)
Definition uploadOne (local : LocalAnswer) (o : ItemOutcome) (tr : Trace)
  : option string * Trace :=
  match l_audioBlob local with
  | None => (None, tr)
  | Some blob =>
      let tr := call (CallUpload blob) tr in
      match uploading o with
      | UploadRejects =>
          (None, show (error, "Audio upload failed for one of your answers.") tr)
      | UploadResolves _ fileUrl =>
          (if nonempty fileUrl then Some fileUrl else None, tr)
      end
  end.

(** Lines 602-607: the transcript, or the placeholder when there is a
    recording without one. *)
Definition transcriptOf (local : LocalAnswer) : string :=
  if negb (nonempty (l_transcript local)) && bool_decide (is_Some (l_audioBlob local))
  then placeholder
  else l_transcript local.

(** Lines 615-663: the evaluation. Inside the [try], the criteria of
    the evaluation received are passed to [Object.keys], which throws
    when there are none. *)
Definition evaluateOne (local : LocalAnswer) (transcript : string) (o : ItemOutcome)
    (tr : Trace) : (option Q * option string * AI.Criteria) * Trace :=
  if nonempty transcript && nonempty (l_questionText local) then
    let tr := call (CallEvaluate (l_questionText local) transcript (l_code local)) tr in
    match evaluating o with
    | EvaluateResolves (Some evaluation) _ =>
        match e_criteria evaluation with
        | Some criteria => ((e_score evaluation, e_feedback evaluation, criteria), tr)
        | None => (evaluation_failed, tr)
        end
    | EvaluateResolves None _ => (not_evaluated, tr)
    | EvaluateRejects => (evaluation_failed, tr)
    end
  else (not_evaluated, tr).

(** One turn of the loop over [localAnswers]. *)
Definition prepare (interviewId : string) (local : LocalAnswer) (o : ItemOutcome)
    (tr : Trace) : BatchItem * Trace :=
  let up := uploadOne local o tr in
  let transcript := transcriptOf local in
  let ev := evaluateOne local transcript o up.2 in
  ({| b_interview := interviewId; b_question := l_questionId local;
      b_audioUrl := up.1; b_transcript := transcript;
      b_code := l_code local; b_codeLanguage := "javascript";
      b_score := ev.1.1.1; b_feedback := ev.1.1.2; b_criteria := ev.1.2 |},
   ev.2).

(** The loop: [outcomes k] are the outcomes of the calls made for the
    local answer at position [k]. *)
Fixpoint prepareAll (interviewId : string) (locals : list LocalAnswer) (k : nat)
    (outcomes : nat -> ItemOutcome) (tr : Trace) : list BatchItem * Trace :=
  match locals with
  | [] => ([], tr)
  | local :: rest =>
      let r := prepare interviewId local (outcomes k) tr in
      let rs := prepareAll interviewId rest (S k) outcomes r.2 in
      (r.1 :: rs.1, rs.2)
  end.

(** Lines 686-704: the batch, and the Answers one by one when the
    batch is rejected; whether a single create is rejected changes
    nothing. *)
Definition submit (batchAnswers : list BatchItem) (batching : bool) (tr : Trace)
  : Trace :=
  match batchAnswers with
  | [] => tr
  | _ :: _ =>
      let tr := call (CallBatch batchAnswers) tr in
      if batching then tr
      else
        fold_left (fun tr answer => call (CallCreate answer) tr) batchAnswers
          (show (error, "Some answers may not have been saved properly. Please contact support.") tr)
  end.

Record Finished := { trace : Trace; navigated : option string }.

(** [handleFinishInterview]: [batching] and [ending] say whether
    [answerAPI.batch] and [endInterview] go through; [endInterview]
    shows a toast of its own before the page shows its own. *)
Definition handleFinishInterview (currentInterview : option string) (isAdmin : bool)
    (localAnswers : list LocalAnswer) (outcomes : nat -> ItemOutcome)
    (batching ending : bool) : Finished :=
  match currentInterview with
  | None => {| trace := nothing; navigated := None |}
  | Some interviewId =>
      let prepared := prepareAll interviewId localAnswers 0 outcomes nothing in
      let tr := submit prepared.1 batching prepared.2 in
      let tr := call (CallEnd interviewId) tr in
      if ending then
        {| trace := show (success, "Interview submitted successfully!")
                      (show (success, "Interview completed!") tr);
           navigated := Some (if isAdmin then "/admin/report/" +:+ interviewId else "/") |}
      else
        {| trace := show (error, "Failed to mark interview as completed, but your answers were saved.")
                      (show (error, "Failed to end interview. Please try again.") tr);
           navigated := Some "/" |}
  end.

(** The calls made while the batch is put together. *)
Definition preparing (c : Call) : bool :=
  match c with
  | CallUpload _ | CallEvaluate _ _ _ => true
  | _ => false
  end.

(** The calls of one sort in a trace. *)
Definition batches (tr : Trace) : list (list BatchItem) :=
  omap (fun c => match c with CallBatch items => Some items | _ => None end) (calls tr).
Definition created (tr : Trace) : list BatchItem :=
  omap (fun c => match c with CallCreate item => Some item | _ => None end) (calls tr).
Definition ended (tr : Trace) : list string :=
  omap (fun c => match c with CallEnd id => Some id | _ => None end) (calls tr).
Definition evaluations (tr : Trace) : list Call :=
  List.filter (fun c => match c with CallEvaluate _ _ _ => true | _ => false end) (calls tr).

(** *** The requests as the server receives them *)

Definition criteria_json (c : AI.Criteria) : Json :=
  JObj [("technicalAccuracy", JNum (AI.technicalAccuracy c));
        ("completeness", JNum (AI.completeness c));
        ("clarity", JNum (AI.clarity c)); ("examples", JNum (AI.examples c))].

(** A key whose value is [undefined] is left out of the JSON text. *)
Definition optional (k : string) (v : option Json) (m : gmap string Json)
  : gmap string Json :=
  match v with
  | Some x => <[k := x]> m
  | None => m
  end.

(** The JSON object of an element of [batchAnswers]. *)
Definition item_json (b : BatchItem) : gmap string Json :=
  optional "audioUrl" (JStr <$> b_audioUrl b)
    (optional "score" (JNum <$> b_score b)
       (optional "feedback" (JStr <$> b_feedback b)
          {[ "interview" := JStr (b_interview b);
             "question" := JStr (b_question b);
             "transcript" := JStr (b_transcript b);
             "code" := JStr (b_code b);
             "codeLanguage" := JStr (b_codeLanguage b);
             "criteria" := criteria_json (b_criteria b) ]})).


End Finish.

(** ** Concrete data used by the examples below *)

Module Demo.

Import Interviews.

(** 2024-01-01T10:00:00Z and times around it, in milliseconds. *)
Definition t1000 : Z := 1704103200000.
Definition t0959 : Z := t1000 - 60000.
Definition t1015 : Z := t1000 + 15 * 60000.

(** The Date built-ins as the start route takes them to be, for one day:
    the stored date prints as its ISO day, and the constructor reads the
    ISO date-time of 10:00 on it. *)
Definition print_day (ms : Z) : string :=
  if ms =? 1704067200000 then "2024-01-01" else "Invalid Date".

Definition read_day (s : string) : JsDate :=
  if String.eqb s "2024-01-01T10:00" then ValidDate t1000 else InvalidDate.

(** The same day with the text [Date.prototype.toString] has for it, which
    followed by T and a time is not a date the constructor reads. *)
Definition print_long (ms : Z) : string :=
  if ms =? 1704067200000
  then "Mon Jan 01 2024 00:00:00 GMT+0000 (Coordinated Universal Time)"
  else "Invalid Date".

Definition interview1 : Interview :=
  {| candidate := "u1"; status := scheduled;
     scheduledDate := 1704067200000; scheduledTime := "10:00"; duration := 30 |}.

Definition finished1 : Interview := set_status completed interview1.

Definition candidate1 : User := {| user_id := "u1"; user_role := "user" |}.
Definition admin1 : User := {| user_id := "a1"; user_role := "admin" |}.

Definition interviews1 : gmap string Interview := {[ "i1" := interview1 ]}.
Definition interviews2 : gmap string Interview := {[ "i1" := finished1 ]}.

(** The validators of the Answer schema that can fail on a number:
    [score] between 0 and 10. *)
Definition score_in_range (m : gmap string Json) : bool :=
  match m !! "score" with
  | Some (JNum q) => Qle_bool 0 q && Qle_bool q 10
  | Some JNull | None => true
  | Some _ => false
  end.

Definition answer1 : Answers.Stored :=
  {| Answers.doc_id := 1;
     Answers.fields :=
       {[ "interview" := JStr "i1"; "question" := JStr "q1";
          "transcript" := JStr "a closure keeps its scope"; "score" := JNum 3 ]} |}.

Definition answers1 : list Answers.Stored := [answer1].

(** A candidate's attempt to raise the score while changing the transcript. *)
Definition body_score10 : gmap string Json :=
  {[ "score" := JNum 10; "transcript" := JStr "edited" ]}.

(** The body the client posts for question q1 of interview i1. *)
Definition body_q1 : gmap string Json :=
  {[ "interview" := JStr "i1"; "question" := JStr "q1";
     "transcript" := JStr "first take" ]}.

(** A reply of the model: an evaluation object inside a sentence. *)
Definition evaluation_object : string :=
  "{" +:+ JsString.quoted "score" +:+ ": 7.5, "
  +:+ JsString.quoted "feedback" +:+ ": " +:+ JsString.quoted "Good answer" +:+ ", "
  +:+ JsString.quoted "criteria" +:+ ": {"
  +:+ JsString.quoted "technicalAccuracy" +:+ ": 8, "
  +:+ JsString.quoted "completeness" +:+ ": 7, "
  +:+ JsString.quoted "clarity" +:+ ": 7, "
  +:+ JsString.quoted "examples" +:+ ": 6}}".

Definition evaluation_value : Json :=
  JObj [("score", JNum (15 # 2)); ("feedback", JStr "Good answer");
        ("criteria", JObj [("technicalAccuracy", JNum 8); ("completeness", JNum 7);
                           ("clarity", JNum 7); ("examples", JNum 6)])].

Definition reply_in_prose : string :=
  "Here is my evaluation: " +:+ evaluation_object +:+ " Thanks".

Definition evaluate_body : AI.EvaluateBody :=
  {| AI.question := Some "What is a closure in JavaScript?";
     AI.transcript := Some "A closure is a function with its scope";
     AI.techStack := Some "JavaScript"; AI.code := None |}.

(** An answer of 29 words about React. *)
Definition long_answer : string :=
  "A React component is a function that returns JSX and React keeps a virtual DOM so that state and props changes render only what changed for example a counter".

(** *** The client *)

Import Client.

Definition blob_url (b : Blob) : string := "blob:recording".

Definition question1 : Question :=
  {| q_id := "q1"; q_stackId := "s1"; q_text := "What is a closure in JavaScript?" |}.
Definition question2 : Question :=
  {| q_id := "q2"; q_stackId := "s1"; q_text := "What does the event loop do?" |}.
Definition questions1 : list Question := [question1; question2].

Definition session1 : list Client.Interview :=
  [{| i_id := "i1"; i_candidateId := "u1"; i_stackId := "s1"; i_answers := [] |}].

Definition recording : Blob := {| blob_size := 4096; blob_type := "audio/webm" |}.

Definition spoken : string :=
  "A closure is a function that keeps access to the variables of the scope it was created in".

Definition good_evaluation : EvalData :=
  {| e_score := Some 7%Q; e_feedback := Some "Good answer";
     e_criteria := Some {| AI.technicalAccuracy := 8; AI.completeness := 7;
                           AI.clarity := 7; AI.examples := 6 |} |}.

(** Every upload fails; the evaluation succeeds; the server would store
    the Answer if it were asked to. *)
Definition uploads_fail : Session.Outcomes :=
  {| Session.upload1 := UploadRejects;
     Session.evaluation1 := EvaluateResolves (Some good_evaluation) (Some "cohere");
     Session.fetched := None;
     Session.saving :=
       {| Context.transcribed := TranscribeRejects;
          Context.evaluated := EvaluateResolves (Some good_evaluation) (Some "cohere");
          Context.random := 0;
          Context.uploaded := UploadRejects;
          Context.created := CreateResolves (Some "a1") |} |}.

(** Every call succeeds. *)
Definition all_well : Session.Outcomes :=
  {| Session.upload1 := UploadResolves true "/uploads/r1.webm";
     Session.evaluation1 := EvaluateResolves (Some good_evaluation) (Some "cohere");
     Session.fetched := Some recording;
     Session.saving :=
       {| Context.transcribed := TranscribeResolves (Some spoken);
          Context.evaluated := EvaluateResolves (Some good_evaluation) (Some "cohere");
          Context.random := 0;
          Context.uploaded := UploadResolves true "/uploads/r1.webm";
          Context.created := CreateResolves (Some "a1") |} |}.

(** Nothing is reachable; [random] is the draw of the mock evaluation. *)
Definition offline (random : Q) : Context.Env :=
  {| Context.transcribed := TranscribeRejects; Context.evaluated := EvaluateRejects;
     Context.random := random; Context.uploaded := UploadRejects;
     Context.created := CreateRejects |}.

Definition no_log : Context.Log := {| Context.toasts := []; Context.requests := [] |}.

Definition page1 : Session.Page := Session.mounted session1.

(** The page of the examples: its step and its runs. *)
Definition step1 := Session.step blob_url questions1 (Some "i1") false "1704103200000".
Definition run1 := Session.run blob_url questions1 (Some "i1") false "1704103200000".

Definition with_outcomes (o : Session.Outcomes) (events : list Session.Event)
  : list (Session.Event * Session.Outcomes) :=
  map (fun e => (e, o)) events.

(** The candidate has started the first question and finished a
    recording. *)
Definition page_recorded : Session.Page :=
  run1 (with_outcomes uploads_fail
          [Session.StartAnswering; Session.RecordingDone recording (Some spoken)]) page1.

(** The countdown of a question runs out: 120 ticks of the timer. *)
Definition countdown : list Session.Event :=
  Session.StartAnswering :: repeat Session.TimerTick 120.

(** The grace interval fires four times, the countdown shows 1, and then
    the timeout of the countdown effect fires before the fifth firing of
    the interval. *)
Definition raced : list Session.Event :=
  countdown ++ repeat Session.GraceTick 4 ++ [Session.EffectTimeout].

End Demo.

(** ** More data for the examples *)

Module Demo2.

Import Interviews Demo.

(** The validators of the Answer schema on the criteria: an object of
    numbers between 0 and 10; with [score_in_range], what [save] checks
    on the paths an admin can set. *)
Definition axis_in_range (v : Json) : bool :=
  match v with
  | JNum q => Qle_bool 0 q && Qle_bool q 10
  | _ => false
  end.

Definition criteria_in_range (m : gmap string Json) : bool :=
  score_in_range m &&
  match m !! "criteria" with
  | Some (JObj axes) => forallb (fun kv => axis_in_range kv.2) axes
  | Some _ => false
  | None => true
  end.

(** An admin regrades an Answer with a score and with criteria of which
    one is out of range. *)
Definition body_regrade : gmap string Json :=
  {[ "score" := JNum 9;
     "criteria" := JObj [("technicalAccuracy", JNum 11); ("completeness", JNum 9);
                         ("clarity", JNum 9); ("examples", JNum 9)] ]}.



(** *** The end of a session *)

Import Client.

(** A recorded answer to the first question, and a recording without
    transcript for the second. *)
Definition local_recorded : Session.LocalAnswer :=
  {| Session.l_questionId := "q1"; Session.l_questionText := q_text question1;
     Session.l_audioBlob := Some recording; Session.l_audioUrl := "blob:recording";
     Session.l_transcript := spoken; Session.l_code := "";
     Session.l_score := None; Session.l_feedback := None; Session.l_criteria := None |}.

Definition local_silent : Session.LocalAnswer :=
  {| Session.l_questionId := "q2"; Session.l_questionText := q_text question2;
     Session.l_audioBlob := Some recording; Session.l_audioUrl := "blob:recording";
     Session.l_transcript := ""; Session.l_code := "";
     Session.l_score := None; Session.l_feedback := None; Session.l_criteria := None |}.

Definition locals1 : list Session.LocalAnswer := [local_recorded; local_silent].

(** Every upload goes through and every evaluation is rejected. *)
Definition no_evaluation (k : nat) : Finish.ItemOutcome :=
  {| Finish.uploading := UploadResolves true "/uploads/r1.webm";
     Finish.evaluating := EvaluateRejects |}.

(** The first question while it is being answered. *)
Definition page_answering : Session.Page := step1 all_well Session.StartAnswering page1.

End Demo2.

(** * Properties *)

(** ** The interview routes *)

Module InterviewProps.

Import Interviews.

Section Start.

Variable date_to_string : Z -> string.
Variable date_of_string : string -> JsDate.

Local Abbreviation start := (start date_to_string date_of_string).
Local Abbreviation scheduledStart := (scheduledStart date_to_string date_of_string).
Local Abbreviation scheduledEnd := (scheduledEnd date_to_string date_of_string).
Local Abbreviation outside_window := (outside_window date_to_string date_of_string).

Lemma start_missing db u id now :
  db !! id = None -> start db u id now = (Failure 404 msg_not_found, db).
Proof. intros H. unfold Interviews.start. now rewrite H. Qed.



Lemma start_owner_inside db u id i now :
  db !! id = Some i -> candidate i = user_id u -> outside_window i now = false ->
  status i = scheduled ->
  start db u id now
  = (Success 200 (set_status in_progress i), <[id := set_status in_progress i]> db).
Proof.
  intros H Ho Hin Hs. unfold Interviews.start. rewrite H, Ho, String.eqb_refl, Hs.
  unfold Interviews.outside_window in Hin. apply orb_false_iff in Hin as [-> ->].
  reflexivity.
Qed.

(** The start route changes the status in one way only. *)
Lemma start_status db u id i i' now :
  db !! id = Some i -> (start db u id now).2 !! id = Some i' ->
  status i' = status i \/ (status i = scheduled /\ status i' = in_progress).
Proof.
  intros H. unfold Interviews.start. rewrite H.
  repeat match goal with
         | |- context [if ?b then _ else _] => destruct b eqn:?
         end; simpl; intros H'.
  1-4: left; congruence.
  rewrite lookup_insert_eq in H'. injection H' as <-. right. split; [| reflexivity].
  destruct (status i); simpl in *; congruence.
Qed.

(** With a start that is no date at all, both comparisons are false: the
    candidate starts the interview whatever the clock says. *)
Lemma start_invalid_date db u id i now :
  db !! id = Some i -> candidate i = user_id u -> status i = scheduled ->
  scheduledStart i = InvalidDate ->
  succeeded (start db u id now).1 = true.
Proof.
  intros H Ho Hs Hd.
  rewrite (start_owner_inside db u id i now H Ho); [reflexivity | | exact Hs].
  unfold Interviews.outside_window, Interviews.scheduledEnd. now rewrite Hd.
Qed.


End Start.

Import Demo.

Example scenario_0959 :
  (start print_day read_day interviews1 candidate1 "i1" t0959).1
  = Failure 403 msg_too_early.
Proof. reflexivity. Qed.

Example scenario_1015 :
  (start print_day read_day interviews1 candidate1 "i1" t1015).1
  = Success 200 (set_status in_progress interview1).
Proof. reflexivity. Qed.

(** When the stored date is printed in the long form, the start is no
    date, and the candidate's request at 09:59 is accepted. *)
Example long_date_text_0959 :
  scheduledStart print_long read_day interview1 = InvalidDate /\
  (start print_long read_day interviews1 candidate1 "i1" t0959).1
  = Success 200 (set_status in_progress interview1).
Proof. split; reflexivity. Qed.



(** *** Status changes *)

Lemma keep_keys_singleton allowed k (v : Json) :
  k ∈ allowed -> keep_keys allowed {[ k := v ]} = {[ k := v ]}.
Proof.
  intros Hin. unfold keep_keys. apply map_filter_singleton_True. exact Hin.
Qed.

Lemma status_of_name_name s : status_of_name (status_name s) = Some s.
Proof. destruct s; reflexivity. Qed.

Lemma apply_update_status s i :
  apply_update {[ "status" := JStr (status_name s) ]} i = Some (set_status s i).
Proof.
  unfold apply_update.
  rewrite lookup_singleton_eq.
  rewrite !lookup_singleton_ne by discriminate.
  simpl. rewrite status_of_name_name. reflexivity.
Qed.

(** A status update by the candidate or an administrator is stored as
    asked, from every current status. *)
Lemma update_status db u id i s :
  db !! id = Some i -> candidate i = user_id u \/ is_admin u = true ->
  update db u id {[ "status" := JStr (status_name s) ]}
  = (Success 200 (set_status s i), <[id := set_status s i]> db).
Proof.
  intros H Hauth. unfold update. rewrite H.
  assert (negb (candidate i =? user_id u)%string && negb (is_admin u) = false) as ->.
  { destruct Hauth as [Ho | Ha];
      [rewrite Ho, String.eqb_refl; reflexivity | rewrite Ha; apply andb_false_r]. }
  destruct (is_admin u); simpl.
  - now rewrite apply_update_status.
  - rewrite keep_keys_singleton by (apply list_elem_of_In; simpl; auto).
    now rewrite apply_update_status.
Qed.

(** C2 (as amended). The start route moves the status from 'scheduled' to
    'in-progress' and in no other way; the update route stores whichever
    of the four values the candidate or an administrator asks for, from
    every current status, without comparing it to the current one; a new
    interview gets the status its body names, 'scheduled' by default. *)
Theorem status_changes to_s of_s db u id i :
  db !! id = Some i ->
  (forall now i', (start to_s of_s db u id now).2 !! id = Some i' ->
     status i' = status i \/ (status i = scheduled /\ status i' = in_progress)) /\
  (forall s, candidate i = user_id u \/ is_admin u = true ->
     update db u id {[ "status" := JStr (status_name s) ]}
     = (Success 200 (set_status s i), <[id := set_status s i]> db)) /\
  create_status ∅ = Some scheduled /\
  (forall s, create_status {[ "status" := JStr (status_name s) ]} = Some s).
Proof.
  intros H. repeat split.
  - intros now i'. apply start_status. exact H.
  - intros s Hauth. apply update_status; assumption.
  - intros s. unfold create_status. rewrite lookup_singleton_eq. simpl.
    apply status_of_name_name.
Qed.

Lemma status_changes_witness :
  update interviews2 candidate1 "i1" {[ "status" := JStr (status_name cancelled) ]}
  = (Success 200 (set_status cancelled finished1),
     <["i1" := set_status cancelled finished1]> interviews2).
Proof.
  apply (status_changes print_day read_day interviews2 candidate1 "i1" finished1);
    [reflexivity | left; reflexivity].
Defined.

(** C2 (as stated) fails: the candidate of a completed interview sends
    [{status: 'scheduled'}] to the update route and the interview is
    'scheduled' again. *)
Lemma update_regresses_status :
  (update interviews2 candidate1 "i1" {[ "status" := JStr "scheduled" ]}).2 !! "i1"
  = Some (set_status scheduled finished1) /\
  status finished1 = completed /\
  ~ forward (status finished1) (status (set_status scheduled finished1)).
Proof.
  split; [reflexivity |]. split; [reflexivity |].
  unfold forward. simpl. lia.
Qed.

End InterviewProps.

(** ** The answer routes *)

Module AnswerProps.

Import Interviews Answers.

(** A string literal is not in a list of other literals. *)
Ltac not_listed :=
  let Hin := fresh "Hin" in
  intros Hin;
  repeat (apply elem_of_cons in Hin as [Hin | Hin]; [discriminate Hin |]);
  apply elem_of_nil in Hin; exact Hin.

(** *** Lookups after a whitelist and after [update_first] *)

Lemma keep_keys_lookup_None allowed (body : gmap string Json) k :
  k ∉ allowed -> keep_keys allowed body !! k = None.
Proof.
  intros Hk. unfold keep_keys. apply map_lookup_filter_None. right.
  intros v _ Hin. apply Hk. exact Hin.
Qed.

Lemma keep_keys_lookup_Some allowed (body : gmap string Json) k :
  k ∈ allowed -> keep_keys allowed body !! k = body !! k.
Proof.
  intros Hk. unfold keep_keys. destruct (body !! k) as [v |] eqn:Hb.
  - apply map_lookup_filter_Some. split; [exact Hb | exact Hk].
  - apply map_lookup_filter_None. left. exact Hb.
Qed.


Lemma update_first_by_id id f docs :
  (forall d, doc_id (f d) = doc_id d) ->
  forall answer, find_by_id id docs = Some answer ->
  exists docs', update_first (has_id id) f docs = Some (f answer, docs') /\
    find_by_id id docs' = Some (f answer) /\
    (forall j, j <> id -> find_by_id j docs' = find_by_id j docs) /\
    length docs' = length docs.
Proof.
  intros Hid. unfold find_by_id, has_id.
  induction docs as [| d rest IH]; simpl; intros answer; [discriminate |].
  destruct (Nat.eqb_spec (doc_id d) id) as [He | Hne].
  - intros [= <-]. eexists. split; [reflexivity |]. simpl.
    rewrite Hid, He, Nat.eqb_refl. split; [reflexivity |]. split; [| reflexivity].
    intros j Hj. destruct (Nat.eqb_spec id j); [congruence | reflexivity].
  - intros Hfind. destruct (IH answer Hfind) as (docs' & -> & Hf & Hother & Hlen).
    eexists. split; [reflexivity |]. simpl.
    destruct (Nat.eqb_spec (doc_id d) id); [contradiction |].
    split; [exact Hf |]. split; [| now rewrite Hlen].
    intros j Hj. rewrite (Hother j Hj). reflexivity.
Qed.

Section Whitelist.

Variable valid : gmap string Json -> bool.
Variable valid_update : gmap string Json -> bool.

Local Abbreviation write_update := (write_update valid valid_update).
Local Abbreviation update := (update valid valid_update).








End Whitelist.

Import Demo.

Example candidate_cannot_raise_score :
  exists answer',
    find_by_id 1 (update score_in_range score_in_range interviews1 answers1
                    candidate1 1 body_score10).2 = Some answer' /\
    fields answer' !! "score" = Some (JNum 3) /\
    fields answer' !! "transcript" = Some (JStr "edited").
Proof. eexists. split; [reflexivity |]. split; reflexivity. Qed.


(** *** One Answer per question *)

Lemma count_pair_app i q a b :
  count_pair i q (a ++ b) = (count_pair i q a + count_pair i q b)%nat.
Proof. unfold count_pair. now rewrite List.filter_app, length_app. Qed.

(** An update in place that keeps the pair of the document it touches
    keeps every count. *)
Lemma update_first_count p f docs d docs' i q :
  (forall x, p x = true -> for_pair i q (f x) = for_pair i q x) ->
  update_first p f docs = Some (d, docs') ->
  count_pair i q docs' = count_pair i q docs /\ length docs' = length docs.
Proof.
  intros Hf. revert d docs'. unfold count_pair.
  induction docs as [| x rest IH]; simpl; intros d docs'; [discriminate |].
  destruct (p x) eqn:Hp.
  - intros [= <- <-]. simpl. rewrite (Hf x Hp).
    destruct (for_pair i q x); split; reflexivity.
  - destruct (update_first p f rest) as [[d1 r1] |]; simpl; [| discriminate].
    intros [= <- <-]. destruct (IH d1 r1 eq_refl) as [Hc Hl]. simpl.
    destruct (for_pair i q x); simpl; rewrite ?Hc, Hl; split; reflexivity.
Qed.

Lemma update_first_None_count i q f docs :
  update_first (for_pair i q) f docs = None -> count_pair i q docs = 0%nat.
Proof.
  unfold count_pair. induction docs as [| x rest IH]; simpl; [reflexivity |].
  destruct (for_pair i q x); [discriminate |].
  destruct (update_first _ f rest) as [[d1 r1] |]; simpl; [discriminate |].
  intros _. apply IH. reflexivity.
Qed.

Lemma update_first_Some_count i q f docs r :
  update_first (for_pair i q) f docs = Some r -> (0 < count_pair i q docs)%nat.
Proof.
  unfold count_pair. revert r. induction docs as [| x rest IH]; simpl; intros r; [discriminate |].
  destruct (for_pair i q x); simpl; [lia |].
  destruct (update_first _ f rest) as [r1 |]; simpl; [| discriminate].
  intros _. apply (IH r1). reflexivity.
Qed.

Lemma for_pair_iff i q d :
  for_pair i q d = true <->
  json_str (fields d !! "interview") = Some i /\ json_str (fields d !! "question") = Some q.
Proof.
  unfold for_pair. rewrite andb_true_iff, !bool_decide_eq_true. reflexivity.
Qed.

(** The paths [interview] and [question] after a body with both is
    written over a document, or over the defaults. *)
Lemma written_pair (ans base : gmap string Json) i q :
  json_str (ans !! "interview") = Some i -> json_str (ans !! "question") = Some q ->
  json_str ((keep_keys schema_paths ans ∪ base) !! "interview") = Some i /\
  json_str ((keep_keys schema_paths ans ∪ base) !! "question") = Some q.
Proof.
  intros Hi Hq.
  assert (forall k v, k ∈ schema_paths -> json_str (ans !! k) = Some v ->
            json_str ((keep_keys schema_paths ans ∪ base) !! k) = Some v) as Hw.
  { intros k v Hk Hv. destruct (ans !! k) as [x |] eqn:Hx; [| discriminate Hv].
    erewrite lookup_union_Some_l; [exact Hv |].
    rewrite keep_keys_lookup_Some by exact Hk. exact Hx. }
  split; apply Hw; try assumption; apply list_elem_of_In; simpl; auto.
Qed.

Lemma set_fields_same_pair ans i q x i' q' :
  json_str (ans !! "interview") = Some i -> json_str (ans !! "question") = Some q ->
  for_pair i q x = true ->
  for_pair i' q' (set_fields ans x) = for_pair i' q' x.
Proof.
  intros Hi Hq Hx. apply for_pair_iff in Hx as [Hxi Hxq].
  destruct (written_pair ans (fields x) i q Hi Hq) as [Hwi Hwq].
  unfold for_pair, set_fields. simpl. now rewrite Hwi, Hwq, Hxi, Hxq.
Qed.

(** One upsert: the count of its own pair becomes 1 if it was 0 and stays
    what it was otherwise; the counts of all other pairs stay. *)
Lemma upsert_counts docs ans now d docs' :
  upsert docs ans now = Some (d, docs') ->
  exists i q,
    json_str (ans !! "interview") = Some i /\ json_str (ans !! "question") = Some q /\
    count_pair i q docs' = Nat.max 1 (count_pair i q docs) /\
    (forall i' q', (i', q') <> (i, q) -> count_pair i' q' docs' = count_pair i' q' docs) /\
    ((0 < count_pair i q docs)%nat -> length docs' = length docs).
Proof.
  unfold upsert.
  destruct (json_str (ans !! "interview")) as [i |] eqn:Hi; [| discriminate].
  destruct (json_str (ans !! "question")) as [q |] eqn:Hq; [| discriminate].
  simpl. intros Hup. exists i, q. split; [reflexivity |]. split; [reflexivity |].
  destruct (update_first (for_pair i q) (set_fields ans) docs) as [r |] eqn:Hfirst.
  - injection Hup as ->.
    assert (forall i' q', count_pair i' q' docs' = count_pair i' q' docs
                          /\ length docs' = length docs) as Hsame.
    { intros i' q'. apply (update_first_count _ _ _ _ _ _ _ ltac:(
        intros x Hx; exact (set_fields_same_pair ans i q x i' q' Hi Hq Hx)) Hfirst). }
    pose proof (update_first_Some_count i q _ docs _ Hfirst) as Hpos.
    split; [rewrite (proj1 (Hsame i q)); lia |].
    split; [intros i' q' _; apply Hsame | intros _; apply (Hsame i q)].
  - injection Hup as <- <-.
    pose proof (update_first_None_count i q _ docs Hfirst) as Hzero.
    destruct (written_pair ans (defaults now) i q Hi Hq) as [Hwi Hwq].
    split; [| split].
    + rewrite count_pair_app, Hzero. unfold count_pair, for_pair. simpl.
      rewrite Hwi, Hwq, !bool_decide_eq_true_2 by reflexivity. reflexivity.
    + intros i' q' Hne. rewrite count_pair_app. unfold count_pair at 2, for_pair.
      simpl. rewrite Hwi, Hwq.
      destruct (decide (i = i')) as [<- | Hi'].
      * rewrite (bool_decide_eq_false_2 (Some q = Some q')); [rewrite andb_false_r; simpl; lia |].
        intros [= <-]. now apply Hne.
      * rewrite (bool_decide_eq_false_2 (Some i = Some i')); [simpl; lia |].
        intros [= <-]. now apply Hi'.
    + rewrite Hzero. lia.
Qed.

Lemma upsert_keeps_one docs ans now d docs' :
  one_per_question docs -> upsert docs ans now = Some (d, docs') ->
  one_per_question docs'.
Proof.
  intros Hone Hup i' q'.
  destruct (upsert_counts docs ans now d docs' Hup) as (i & q & _ & _ & Hown & Hother & _).
  destruct (decide ((i', q') = (i, q))) as [[= -> ->] | Hne].
  - rewrite Hown. specialize (Hone i q). lia.
  - rewrite (Hother i' q' Hne). apply Hone.
Qed.

Lemma batch_loop_keeps_one answers now : forall docs results,
  one_per_question docs -> one_per_question (batch_loop docs answers now results).2.
Proof.
  induction answers as [| ans rest IH]; simpl; intros docs results Hone; [exact Hone |].
  destruct (upsert docs ans now) as [[d docs'] |] eqn:Hup; [| exact Hone].
  apply IH. exact (upsert_keeps_one docs ans now d docs' Hone Hup).
Qed.



Example batch_updates_in_place :
  length (batch answers1 (Items [body_q1]) 0).2 = 1%nat.
Proof. reflexivity. Qed.


End AnswerProps.

(** ** The evaluator *)

Module EvaluatorProps.

Import JsString AI.

(** *** The match of the extraction *)

Lemma from_open_brace_skips pre rest :
  without "{" pre = true ->
  from_open_brace (pre +:+ String "{" rest) = Some (String "{" rest).
Proof.
  unfold without. induction pre as [| c pre IH]; simpl; [reflexivity |].
  intros H. apply andb_true_iff in H as [Hc Hpre].
  apply negb_true_iff in Hc. rewrite Hc. apply IH, Hpre.
Qed.

Lemma to_last_close_none post :
  without "}" post = true -> to_last_close post = None.
Proof.
  unfold without. induction post as [| c post IH]; simpl; [reflexivity |].
  intros H. apply andb_true_iff in H as [Hc Hpost].
  apply negb_true_iff in Hc. now rewrite (IH Hpost), Hc.
Qed.

Lemma to_last_close_stops mid post :
  without "}" post = true ->
  to_last_close (mid +:+ String "}" post) = Some (mid +:+ "}").
Proof.
  intros Hpost. induction mid as [| c mid IH]; simpl.
  - now rewrite (to_last_close_none post Hpost).
  - now rewrite IH.
Qed.

(** The match is the text between the first opening brace and the last
    closing brace. *)
Lemma jsonMatch_between pre mid post :
  without "{" pre = true -> without "}" post = true ->
  jsonMatch (pre +:+ String "{" (mid +:+ String "}" post))
  = Some (String "{" (mid +:+ "}")).
Proof.
  intros Hpre Hpost. unfold jsonMatch.
  rewrite (from_open_brace_skips pre _ Hpre), (to_last_close_stops mid post Hpost).
  reflexivity.
Qed.

Lemma from_open_brace_suffix s r :
  from_open_brace s = Some r -> exists pre, s = pre +:+ r.
Proof.
  induction s as [| c s IH]; simpl; [discriminate |].
  destruct (Ascii.eqb c "{").
  - intros [= <-]. now exists "".
  - intros H. destruct (IH H) as [pre ->]. now exists (String c pre).
Qed.

Lemma to_last_close_prefix s p :
  to_last_close s = Some p -> exists post, s = p +:+ post.
Proof.
  revert p. induction s as [| c s IH]; simpl; intros p; [discriminate |].
  destruct (to_last_close s) as [p' |].
  - intros [= <-]. destruct (IH p' eq_refl) as [post ->]. now exists post.
  - destruct (Ascii.eqb c "}"); [| discriminate]. intros [= <-]. now exists s.
Qed.

(** What is matched is a piece of the text. *)
Lemma jsonMatch_substring text m :
  jsonMatch text = Some m -> exists pre post, text = pre +:+ m +:+ post.
Proof.
  unfold jsonMatch. destruct (from_open_brace text) as [[| b r] |] eqn:Hopen; try discriminate.
  destruct (to_last_close r) as [p |] eqn:Hclose; simpl; [| discriminate].
  intros [= <-]. destruct (from_open_brace_suffix text _ Hopen) as [pre ->].
  destruct (to_last_close_prefix r p Hclose) as [post ->].
  exists pre, post. reflexivity.
Qed.

Section Extraction.

Variable JSON_parse : string -> option Json.

(** Nothing matched, or a match that does not parse: the neutral
    evaluation. *)
Lemma extraction_neutral text :
  (forall m, jsonMatch text = Some m -> JSON_parse m = None) ->
  extractEvaluation JSON_parse text = neutral text.
Proof.
  intros Hnone. unfold extractEvaluation.
  destruct (jsonMatch text) as [m |]; [| reflexivity].
  now rewrite (Hnone m eq_refl).
Qed.


(** A text none of whose pieces is JSON gets the neutral evaluation. *)
Lemma extraction_without_json text :
  (forall pre m post, text = pre +:+ m +:+ post -> JSON_parse m = None) ->
  extractEvaluation JSON_parse text = neutral text.
Proof.
  intros Hnone. apply extraction_neutral.
  intros m Hm. destruct (jsonMatch_substring text m Hm) as (pre & post & ->).
  apply (Hnone pre m post). reflexivity.
Qed.

End Extraction.

Import Demo.

Example extraction_from_prose :
  extractEvaluation MiniJson.parse reply_in_prose = evaluation_value.
Proof. reflexivity. Qed.

Example extraction_two_objects :
  extractEvaluation MiniJson.parse "see {} and {}" = neutral "see {} and {}".
Proof. reflexivity. Qed.


(** *** The heuristic evaluator *)

Lemma is_space_lower c : is_space (lower_char c) = is_space c.
Proof. destruct c as [[] [] [] [] [] [] [] []]; reflexivity. Qed.

Lemma count_words_from_lower inside s :
  count_words_from inside (toLowerCase s) = count_words_from inside s.
Proof.
  revert inside. induction s as [| c s IH]; simpl; intros inside; [reflexivity |].
  rewrite is_space_lower. destruct (is_space c); [apply IH |].
  destruct inside; now rewrite IH.
Qed.

(** Lower-casing keeps the number of words. *)
Lemma count_words_normalized transcript :
  count_words (normalized transcript) = count_words (default "" transcript).
Proof.
  unfold normalized, count_words. destruct transcript as [t |]; [| reflexivity].
  simpl. unfold nonempty. destruct (String.eqb_spec t "") as [-> | _]; simpl;
    [reflexivity | apply count_words_from_lower].
Qed.

(** C6. For a transcript of fewer than 20 words (an absent one has none),
    or one that matches the greeting pattern, the heuristic evaluator
    returns score 1 and the four criteria at 1, whatever the question, the
    tech stack and the code. *)
Theorem short_or_greeting_scores_one question transcript techStack code :
  (count_words (default "" transcript) < 20)%nat
  \/ isJustGreeting (normalized transcript) = true ->
  score (createFallbackEvaluation question transcript techStack code) = 1%Q /\
  criteria (createFallbackEvaluation question transcript techStack code) = all_ones.
Proof.
  intros H. unfold createFallbackEvaluation.
  assert (isJustGreeting (normalized transcript)
          || (count_words (normalized transcript) <? 20)%nat = true) as Hpenalty.
  { rewrite count_words_normalized. destruct H as [Hshort | ->]; [| reflexivity].
    apply Nat.ltb_lt in Hshort. rewrite Hshort. apply orb_true_r. }
  rewrite Hpenalty. simpl. split; reflexivity.
Qed.

Lemma short_or_greeting_scores_one_witness :
  score (createFallbackEvaluation "What is React?" (Some "Hello, my name is Sam") None None)
  = 1%Q /\
  criteria (createFallbackEvaluation "What is React?" (Some "Hello, my name is Sam") None None)
  = all_ones.
Proof.
  apply (short_or_greeting_scores_one "What is React?" (Some "Hello, my name is Sam")
           None None).
  left. vm_compute. lia.
Defined.

Example greeting_matches : isJustGreeting (normalized (Some "  Hello there")) = true.
Proof. reflexivity. Qed.

Example greeting_needs_word_end : isJustGreeting (normalized (Some "hitchhiker")) = false.
Proof. reflexivity. Qed.

(** Past the penalty: 6 of the 8 question keywords (relevance 7.5), 12
    keywords in all (keyword score 10), 157 characters (length score 3.14),
    hence round(73.78) / 10. *)
Example fallback_on_a_long_answer :
  let e := createFallbackEvaluation "What is a React component?" (Some long_answer)
             (Some "React") None in
  Qeq_bool (score e) (74 # 10) = true /\
  Qeq_bool (technicalAccuracy (criteria e)) (75 # 10) = true /\
  Qeq_bool (completeness (criteria e)) 10 = true /\
  Qeq_bool (clarity (criteria e)) (29 # 10) = true /\
  Qeq_bool (examples (criteria e)) 7 = true.
Proof. repeat split. Qed.

(** *** When the call to the model fails *)

Section Failure.

Variable JSON_parse : string -> option Json.

Lemma evaluateAnswer_forwards body message :
  well_formed body ->
  evaluateAnswer JSON_parse body true (CohereThrows message) = cohere_failed message.
Proof.
  intros [Hq Hta]. unfold evaluateAnswer. rewrite Hq.
  destruct (given (transcript body)), (given (code body)); try discriminate; reflexivity.
Qed.

(** Every evaluation the handler sends is labelled with the model. *)
Lemma evaluateAnswer_method body apiKey outcome data method :
  evaluateAnswer JSON_parse body apiKey outcome = Evaluated data method ->
  method = "cohere".
Proof.
  unfold evaluateAnswer, cohere_failed.
  destruct (_ || _); [discriminate |]. destruct (negb apiKey); [discriminate |].
  destruct outcome as [m | [[| text rest] |]]; try discriminate.
  now intros [= _ <-].
Qed.

End Failure.

End EvaluatorProps.

(** ** The client's save *)

Module PipelineProps.

Import Client JsString Context.

(** *** What a log gains *)

Lemma toasts_where_say f t l :
  toasts_where f (say t l) = toasts_where f l ++ (if f t then [t] else []).
Proof. unfold toasts_where, say. simpl. now rewrite List.filter_app. Qed.

Lemma toasts_where_send f r l : toasts_where f (send r l) = toasts_where f l.
Proof. reflexivity. Qed.

Lemma creates_say t l : creates (say t l) = creates l.
Proof. reflexivity. Qed.

Lemma creates_send r l :
  creates (send r l) = creates l ++ (if is_create r then [r] else []).
Proof. unfold creates, send. simpl. now rewrite List.filter_app. Qed.

(** Push the observations of a log through what was added to it. *)
Ltac through_log :=
  repeat first [ rewrite toasts_where_say | rewrite toasts_where_send
               | rewrite creates_say | rewrite creates_send ];
  simpl; rewrite ?app_nil_r.

(** *** The mock evaluation *)

Lemma mock_score_range random :
  (0 <= random)%Q -> (random < 1)%Q -> 6 <= mock_score random <= 10.
Proof.
  intros H0 H1. unfold mock_score.
  assert (0 <= Qfloor (random * 5) < 5) as Hfloor.
  { split.
    - change 0 with (Qfloor 0). apply Qfloor_resp_le.
      apply Qmult_le_0_compat; [exact H0 | discriminate].
    - rewrite Zlt_Qlt.
      apply Qle_lt_trans with (y := (random * 5)%Q); [apply Qfloor_le |].
      change (inject_Z 5) with (1 * 5)%Q.
      apply Qmult_lt_compat_r; [reflexivity | exact H1]. }
  lia.
Qed.

(** When the evaluation request fails, or answers without data, the mock
    evaluation takes its place. *)
Lemma getEvaluation_backup question finalTranscript code env l :
  (forall e m, evaluated env <> EvaluateResolves (Some e) m) ->
  getEvaluation question finalTranscript code env l
  = ((Some (inject_Z (mock_score (random env))),
      Some ("[MOCK EVALUATION] " +:+ mock_feedback (mock_score (random env)) +:+ mock_note),
      None),
     say (error, "Evaluation failed, using backup method")
       (send (ReqEvaluate question finalTranscript code) l)).
Proof.
  intros Hnone. unfold getEvaluation, mockEvaluateAnswer.
  destruct (evaluated env) as [| [e |] m]; try reflexivity.
  now destruct (Hnone e m).
Qed.

Lemma getEvaluation_score question finalTranscript code env l :
  (getEvaluation question finalTranscript code env l).1.1.1 = saved_score env.
Proof.
  unfold getEvaluation, saved_score, mockEvaluateAnswer.
  destruct (evaluated env) as [| [e |] m]; try reflexivity.
  destruct (String.eqb _ "cohere"); [reflexivity |].
  now destruct (String.eqb _ "fallback").
Qed.

(** The evaluation step sends one request, never a create, and shows no
    warning and no upload error. *)
Lemma getEvaluation_log question finalTranscript code env l :
  let l' := (getEvaluation question finalTranscript code env l).2 in
  requests l' = requests l ++ [ReqEvaluate question finalTranscript code] /\
  creates l' = creates l /\ warnings l' = warnings l /\
  upload_errors l' = upload_errors l.
Proof.
  unfold getEvaluation, mockEvaluateAnswer, warnings, upload_errors.
  destruct (evaluated env) as [| [e |] m]; simpl;
    try (rewrite !toasts_where_say, !toasts_where_send, creates_say, creates_send;
         simpl; rewrite !app_nil_r; repeat split; reflexivity).
  destruct (String.eqb _ "cohere"); simpl;
    [rewrite !toasts_where_say, !toasts_where_send, creates_say, creates_send;
     simpl; rewrite !app_nil_r; repeat split; reflexivity |].
  destruct (String.eqb _ "fallback"); simpl;
    rewrite ?toasts_where_say, ?toasts_where_send, ?creates_say, creates_send;
    simpl; rewrite !app_nil_r; repeat split; reflexivity.
Qed.

(** C3 (as amended). When the call to the model fails, the server's
    evaluation handler does not fall back on the heuristic: it passes a 500
    error 'Cohere AI evaluation failed: ...' on, and every evaluation it
    does send is labelled 'cohere'. The client's [saveAnswer], whose
    evaluation request then fails, puts a mock evaluation in its place:
    the score is [floor(random * 5) + 6], between 6 and 10, the feedback
    is marked '[MOCK EVALUATION]', there are no criteria, and no request
    beyond the failed one is sent. *)
Theorem failed_evaluation_is_mocked JSON_parse body message question finalTranscript code env l :
  AI.well_formed body ->
  evaluated env = EvaluateRejects ->
  (0 <= random env)%Q -> (random env < 1)%Q ->
  AI.evaluateAnswer JSON_parse body true (AI.CohereThrows message)
  = AI.cohere_failed message /\
  (forall apiKey outcome data method,
     AI.evaluateAnswer JSON_parse body apiKey outcome = AI.Evaluated data method ->
     method = "cohere") /\
  (exists n,
     6 <= n <= 10 /\
     (getEvaluation question finalTranscript code env l).1
     = (Some (inject_Z n), Some ("[MOCK EVALUATION] " +:+ mock_feedback n +:+ mock_note),
        None)) /\
  requests (getEvaluation question finalTranscript code env l).2
  = requests l ++ [ReqEvaluate question finalTranscript code].
Proof.
  intros Hbody Hrejects H0 H1.
  split; [apply EvaluatorProps.evaluateAnswer_forwards, Hbody |].
  split; [intros apiKey outcome data method;
          apply EvaluatorProps.evaluateAnswer_method |].
  split; [| apply getEvaluation_log].
  exists (mock_score (random env)). split; [apply mock_score_range; assumption |].
  rewrite getEvaluation_backup; [reflexivity |].
  intros e m. rewrite Hrejects. discriminate.
Qed.

(** *** A save whose upload fails *)

Lemma find_added interviewId updated interviews interview :
  i_id updated = interviewId ->
  List.find (fun i => String.eqb (i_id i) interviewId) interviews = Some interview ->
  List.find (fun i => String.eqb (i_id i) interviewId)
    (map (add_answer interviewId updated) interviews) = Some updated.
Proof.
  intros Hid. induction interviews as [| i rest IH]; simpl; [discriminate |].
  destruct (String.eqb (i_id i) interviewId) eqn:Hi.
  - intros _. unfold add_answer at 1 2. now rewrite Hi, Hid, String.eqb_refl.
  - unfold add_answer at 1 2. rewrite Hi, Hi. exact IH.
Qed.

Section SaveAnswer.

Variable createObjectURL : Blob -> string.

(** With a transcript in hand and the upload failing, [saveAnswer] sends
    the evaluation and the upload and nothing else, shows the warning that
    the answer is only local, and appends the answer, with the object URL
    of the recording, to the interview in the client's state. *)
Lemma saveAnswer_upload_fails interviews questions useFreeMode tempId interviewId
    questionId audioBlob transcript code codeLanguage env l interview question :
  List.find (fun i => String.eqb (i_id i) interviewId) interviews = Some interview ->
  List.find (fun q => String.eqb (q_id q) questionId) questions = Some question ->
  nonempty transcript = true ->
  upload_failed (uploaded env) = true ->
  let r := saveAnswer createObjectURL interviews questions useFreeMode tempId
             interviewId questionId audioBlob (Some transcript) code codeLanguage env l in
  rejected r = false /\
  creates (log r) = creates l /\
  warnings (log r)
  = warnings l ++ (if too_short transcript then [too_short_warning] else [])
    ++ [local_only_warning] /\
  upload_errors (log r) = upload_errors l /\
  exists answer,
    List.find (fun i => String.eqb (i_id i) interviewId) (interviews_after r)
    = Some {| i_id := i_id interview; i_candidateId := i_candidateId interview;
              i_stackId := i_stackId interview;
              i_answers := i_answers interview ++ [answer] |} /\
    a_questionId answer = questionId /\
    a_audioUrl answer = createObjectURL audioBlob /\
    a_transcript answer = transcript /\
    a_score answer = saved_score env.
Proof.
  intros Hi Hq Ht Hup. unfold saveAnswer. rewrite Hi, Hq.
  unfold getTranscript. cbn [given]. rewrite Ht.
  set (l1 := if too_short transcript then say too_short_warning l else l).
  pose proof (getEvaluation_log (q_text question) transcript code env l1) as Hlog.
  pose proof (getEvaluation_score (q_text question) transcript code env l1) as Hscore.
  destruct (getEvaluation (q_text question) transcript code env l1)
    as [[[score feedback] criteria] l2].
  cbn [fst snd] in Hlog, Hscore. destruct Hlog as (_ & Hc & Hw & He).
  assert (uploadAndCreate interviewId questionId audioBlob transcript (default "" code)
            (default "" codeLanguage) score feedback criteria env l2
          = (None, say local_only_warning
                     (send (ReqUpload (if nonempty (blob_type audioBlob) then audioBlob
                                       else {| blob_size := blob_size audioBlob;
                                               blob_type := "audio/webm" |})) l2)))
    as ->.
  { unfold uploadAndCreate. destruct (uploaded env) as [| [] url];
      [reflexivity | discriminate Hup | reflexivity]. }
  cbn [rejected log interviews_after default].
  split; [reflexivity |].
  assert (warnings l1
          = warnings l ++ (if too_short transcript then [too_short_warning] else []))
    as Hw1.
  { unfold l1, warnings. destruct (too_short transcript);
      [apply toasts_where_say | now rewrite app_nil_r]. }
  assert (creates l1 = creates l /\ upload_errors l1 = upload_errors l) as [Hc1 He1].
  { unfold l1. destruct (too_short transcript); [| split; reflexivity].
    unfold upload_errors. rewrite creates_say, toasts_where_say. simpl.
    now rewrite app_nil_r. }
  split; [now rewrite !creates_say, creates_send, app_nil_r, Hc, Hc1 |].
  split.
  { unfold warnings in *. rewrite !toasts_where_say, toasts_where_send, Hw, Hw1.
    simpl. now rewrite app_nil_r, app_assoc. }
  split.
  { unfold upload_errors in *. rewrite !toasts_where_say, toasts_where_send, He, He1.
    simpl. now rewrite !app_nil_r. }
  eexists. split.
  - apply find_added with (interview := interview); [| exact Hi]. simpl.
    clear -Hi. induction interviews as [| i rest IH]; simpl in Hi; [discriminate |].
    destruct (String.eqb_spec (i_id i) interviewId) as [He | _];
      [now injection Hi as <- | exact (IH Hi)].
  - simpl. repeat split. exact Hscore.
Qed.

End SaveAnswer.

Import Demo.

Lemma failed_evaluation_is_mocked_witness :
  AI.evaluateAnswer MiniJson.parse evaluate_body true (AI.CohereThrows "timeout")
  = AI.cohere_failed "timeout".
Proof.
  apply (failed_evaluation_is_mocked MiniJson.parse evaluate_body "timeout"
           "What is a closure in JavaScript?" spoken None (offline (9 # 10)) no_log);
    [split; reflexivity | reflexivity | discriminate | reflexivity].
Defined.

(** C3 (as stated) fails: with the model unreachable the server answers
    with an error, not with the heuristic evaluation; and what the client
    then uses in its place depends on the random draw (6 for one, 10 for
    another), where the heuristic gives this transcript its fixed score. *)
Lemma model_failure_is_an_error :
  AI.evaluateAnswer MiniJson.parse evaluate_body true (AI.CohereThrows "timeout")
  = AI.NextError
      "Cohere AI evaluation failed: timeout. Please check your Cohere API key and try again."
      500 /\
  (getEvaluation "What is a closure in JavaScript?" spoken None (offline 0) no_log).1.1.1
  = Some 6%Q /\
  (getEvaluation "What is a closure in JavaScript?" spoken None (offline (9 # 10)) no_log).1.1.1
  = Some 10%Q /\
  AI.score (AI.createFallbackEvaluation "What is a closure in JavaScript?" (Some spoken)
              (Some "JavaScript") None)
  = 1%Q.
Proof. repeat split. Qed.

End PipelineProps.

(** ** The question page *)

Module SessionProps.

Import Client JsString Session.

Section Page.

Variable createObjectURL : Blob -> string.
Variable questions : list Question.
Variable currentInterview : option string.
Variable useFreeMode : bool.
Variable tempId : string.

Local Abbreviation step := (step createObjectURL questions currentInterview useFreeMode tempId).
Local Abbreviation run := (run createObjectURL questions currentInterview useFreeMode tempId).

(** The countdown of a question runs out, then the grace interval fires
    five times: the page is back where the question can be started again,
    with the two warnings shown and nothing else changed. *)
Lemma time_up_by_grace_interval o p :
  idle p ->
  run (map (fun e => (e, o)) (StartAnswering :: repeat TimerTick 120 ++ repeat GraceTick 5)) p
  = with_timers (fun _ => timers_over)
      (with_log (Context.say time_up_warning)
         (with_log (Context.say thirty_seconds_warning) p)).
Proof.
  destruct p as [idx answering answered locals complete shown text
                 [remaining count warned started ref1 ref2 pending] ivs lg].
  unfold idle. simpl. intros (-> & -> & -> & -> & -> & ->).
  vm_compute. reflexivity.
Qed.

(** *** What the handlers do to the set of answered questions *)

Lemma pageUpload_answered audio o p :
  answeredQuestions (pageUpload audio o p) = answeredQuestions p.
Proof. unfold pageUpload. now destruct (upload_failed _). Qed.

Lemma pageEvaluate_answered ask strict q t c o p :
  answeredQuestions (pageEvaluate ask strict q t c o p).2 = answeredQuestions p.
Proof.
  unfold pageEvaluate. destruct ask; [| reflexivity].
  destruct (evaluation1 o) as [| [e |] m]; try reflexivity. now destruct strict.
Qed.

(** A save marks the current question as answered, whatever was recorded
    or written. *)
Lemma handleSaveResponse_answered interviewId o p question :
  currentQuestion questions p = Some question ->
  answeredQuestions
    (handleSaveResponse createObjectURL questions (Some interviewId) useFreeMode tempId o p)
  = answeredQuestions p ∪ {[ q_id question ]}.
Proof.
  intros Hq. unfold handleSaveResponse. rewrite Hq. cbn zeta.
  cbn [answeredQuestions toast with_log callSaveAnswer setInterviews].
  match goal with
  | |- answeredQuestions (match ?a with _ => _ end) = _ => destruct a
  end; cbn [answeredQuestions setLocalAnswers]; rewrite pageEvaluate_answered;
    (destruct (_ ≫= l_audioBlob); cbn [from_option];
     [rewrite pageUpload_answered |]); reflexivity.
Qed.

(** Keeping a recording, moving on, starting, and the three timers leave
    the set as it is. *)
Lemma other_handlers_keep_answered audio transcript p :
  answeredQuestions (onRecordingComplete createObjectURL questions audio transcript p)
  = answeredQuestions p /\
  answeredQuestions (handleNextQuestion questions p) = answeredQuestions p /\
  answeredQuestions (handleStartAnswering p) = answeredQuestions p /\
  answeredQuestions (timerTick p) = answeredQuestions p /\
  answeredQuestions (graceTick p) = answeredQuestions p /\
  answeredQuestions (handleTimeUp p) = answeredQuestions p /\
  answeredQuestions (effectTimeout p) = answeredQuestions p.
Proof.
  repeat split; try reflexivity.
  - unfold onRecordingComplete. now destruct (currentQuestion questions p).
  - unfold handleNextQuestion. now destruct (_ <? _)%nat.
  - unfold timerTick. now destruct (_ =? 30), (_ <=? 0).
  - unfold graceTick. now destruct (_ <=? 0).
Qed.

(** C4 (as amended). A save marks the current question as answered on
    every call, also when no transcript and no code are there: these only
    decide whether an evaluation is asked for. Keeping a finished recording
    in memory, moving to the next question, starting to answer, the ticks
    of the two intervals and [handleTimeUp] at the end of the grace
    interval never add a question to the set. *)
Theorem answered_on_every_save interviewId o p question :
  currentQuestion questions p = Some question ->
  answeredQuestions
    (handleSaveResponse createObjectURL questions (Some interviewId) useFreeMode tempId o p)
  = answeredQuestions p ∪ {[ q_id question ]} /\
  (forall audio transcript,
     answeredQuestions (onRecordingComplete createObjectURL questions audio transcript p)
     = answeredQuestions p) /\
  answeredQuestions (handleNextQuestion questions p) = answeredQuestions p /\
  answeredQuestions (handleStartAnswering p) = answeredQuestions p /\
  answeredQuestions (timerTick p) = answeredQuestions p /\
  answeredQuestions (graceTick p) = answeredQuestions p /\
  answeredQuestions (handleTimeUp p) = answeredQuestions p.
Proof.
  intros Hq. split; [apply handleSaveResponse_answered, Hq |].
  split; [intros audio transcript; apply other_handlers_keep_answered |].
  destruct (other_handlers_keep_answered empty_blob None p) as (_ & H1 & H2 & H3 & H4 & H5 & _).
  repeat split; assumption.
Qed.

(** *** A save whose uploads fail *)

Lemma pageEvaluate_frame ask strict q t c o p :
  let p' := (pageEvaluate ask strict q t c o p).2 in
  interviews p' = interviews p /\
  Context.creates (log p') = Context.creates (log p) /\
  Context.warnings (log p') = Context.warnings (log p) /\
  Context.upload_errors (log p') = Context.upload_errors (log p).
Proof.
  unfold pageEvaluate, Context.warnings, Context.upload_errors.
  destruct ask; [| repeat split].
  destruct (evaluation1 o) as [| [e |] m]; [| repeat split | destruct strict; [| repeat split]];
    cbn [snd toast request with_log log interviews];
    PipelineProps.through_log; repeat split.
Qed.

Lemma find_current (p : Page) question :
  currentQuestion questions p = Some question ->
  exists q, List.find (fun x => String.eqb (q_id x) (q_id question)) questions = Some q.
Proof.
  unfold currentQuestion. generalize (currentQuestionIndex p). clear p.
  induction questions as [| x rest IH]; intros [| n] H; try discriminate; simpl in *.
  - injection H as ->. rewrite String.eqb_refl. eauto.
  - destruct (String.eqb (q_id x) (q_id question)); [eauto | exact (IH n H)].
Qed.

(** C7 (as amended). A save of a recorded answer, with a transcript, all
    of whose audio uploads fail: no create request is sent, so the Answer
    is not stored on the server by this save; it is appended to the
    interview in the client's state with the object URL of the recording as
    its audio reference, its transcript, and the score of the evaluation
    (of the mock evaluation if the evaluation failed); the page shows the
    error 'Failed to upload audio' once, and [saveAnswer] the warning that
    the answer is saved locally only, after the too-short warning if the
    transcript has fewer than five words; the question counts as answered. *)
Theorem upload_failure_keeps_answer_local interviewId o p question recorded blob interview :
  currentQuestion questions p = Some question ->
  List.find (fun a => String.eqb (l_questionId a) (q_id question)) (localAnswers p)
  = Some recorded ->
  l_audioBlob recorded = Some blob ->
  nonempty (l_transcript recorded) = true ->
  List.find (fun i => String.eqb (i_id i) interviewId) (interviews p) = Some interview ->
  upload_failed (upload1 o) = true ->
  upload_failed (Context.uploaded (saving o)) = true ->
  let p' := handleSaveResponse createObjectURL questions (Some interviewId)
              useFreeMode tempId o p in
  Context.creates (log p') = Context.creates (log p) /\
  Context.warnings (log p')
  = Context.warnings (log p)
    ++ (if Context.too_short (l_transcript recorded) then [Context.too_short_warning] else [])
    ++ [Context.local_only_warning] /\
  Context.upload_errors (log p') = Context.upload_errors (log p) ++ [Context.upload_error] /\
  q_id question ∈ answeredQuestions p' /\
  exists answer,
    List.find (fun i => String.eqb (i_id i) interviewId) (interviews p')
    = Some {| i_id := i_id interview; i_candidateId := i_candidateId interview;
              i_stackId := i_stackId interview;
              i_answers := i_answers interview ++ [answer] |} /\
    a_questionId answer = q_id question /\
    a_audioUrl answer = createObjectURL blob /\
    a_transcript answer = l_transcript recorded /\
    a_score answer = Context.saved_score (saving o).
Proof.
  intros Hq Hrec Hblob Ht Hi Hup1 Hup2 p'.
  destruct (find_current p question Hq) as [q' Hq'].
  unfold p', handleSaveResponse. rewrite Hq. cbn zeta.
  cbn [toast with_log localAnswers code showCodeEditor]. rewrite Hrec.
  cbn [mbind option_bind from_option]. rewrite Hblob. cbn [from_option].
  match goal with
  | |- context [pageEvaluate ?a ?s ?q ?t ?c o ?x] =>
      pose proof (pageEvaluate_frame a s q t c o x) as Hframe;
      set (asked := pageEvaluate a s q t c o x) in *
  end.
  cbn zeta in Hframe. destruct Hframe as (Hivs & Hc & Hw & He).
  match goal with
  | |- context [callSaveAnswer _ _ _ _ _ _ ?b ?t ?sc o ?x] => set (before := x)
  end.
  assert (interviews before = interviews p /\
          Context.creates (log before) = Context.creates (log p) /\
          Context.warnings (log before) = Context.warnings (log p) /\
          Context.upload_errors (log before)
          = Context.upload_errors (log p) ++ [Context.upload_error]) as (Hb1 & Hb2 & Hb3 & Hb4).
  { assert (interviews before = interviews asked.2 /\ log before = log asked.2) as [-> ->].
    { unfold before. now destruct asked.1. }
    rewrite Hivs, Hc, Hw, He. unfold pageUpload. rewrite Hup1.
    unfold Context.warnings, Context.upload_errors.
    cbn [interviews log with_log request toast setAnsweredQuestions setLocalAnswers].
    PipelineProps.through_log. repeat split. }
  unfold callSaveAnswer.
  match goal with
  | |- context [Context.saveAnswer _ ?ivs _ _ _ _ ?qid ?b (Some ?t) ?c ?cl ?env ?l] =>
      destruct (PipelineProps.saveAnswer_upload_fails createObjectURL ivs questions
                  useFreeMode tempId interviewId qid b t c cl env l interview q')
        as (_ & Sc & Sw & Se & answer & Sfind & Sq & Surl & St & Ss);
      [rewrite Hb1; exact Hi | exact Hq' | exact Ht | exact Hup2 |]
  end.
  cbn [log interviews toast with_log setInterviews].
  unfold Context.warnings, Context.upload_errors in *.
  PipelineProps.through_log. rewrite Sc, Sw, Se, Hb2, Hb3, Hb4.
  split; [reflexivity |]. split; [reflexivity |]. split; [reflexivity |].
  split.
  { assert (answeredQuestions before = answeredQuestions p ∪ {[ q_id question ]}) as ->.
    { unfold before. destruct asked.1; cbn [answeredQuestions setLocalAnswers];
        unfold asked; rewrite pageEvaluate_answered, pageUpload_answered; reflexivity. }
    apply elem_of_union_r, elem_of_singleton. reflexivity. }
  exists answer. rewrite Sfind. repeat split; assumption.
Qed.

End Page.


Import Demo.

Lemma answered_on_every_save_witness :
  answeredQuestions
    (handleSaveResponse blob_url questions1 (Some "i1") false "1704103200000"
       uploads_fail page1)
  = answeredQuestions page1 ∪ {[ "q1" ]}.
Proof.
  apply (answered_on_every_save blob_url questions1 false "1704103200000" "i1"
           uploads_fail page1 question1).
  reflexivity.
Defined.

(** C4 (as stated) fails: the candidate starts the first question and
    saves at once, with nothing recorded and the editor closed; the local
    answer has an empty transcript and empty code, and the question counts
    as answered. *)
Lemma answered_without_transcript_or_code :
  let p := run1 (with_outcomes uploads_fail [StartAnswering; SaveResponse]) page1 in
  map (fun a => (l_questionId a, l_transcript a, l_code a, l_audioBlob a)) (localAnswers p)
  = [("q1", "", "", None)] /\
  elements (answeredQuestions p) = ["q1"] /\
  "q1" ∈ answeredQuestions p.
Proof.
  split; [reflexivity |]. split; [reflexivity |].
  apply elem_of_elements. vm_compute. left.
Qed.

Lemma upload_failure_keeps_answer_local_witness :
  Context.creates
    (log (handleSaveResponse blob_url questions1 (Some "i1") false "1704103200000"
            uploads_fail page_recorded))
  = Context.creates (log page_recorded) /\
  Context.warnings
    (log (handleSaveResponse blob_url questions1 (Some "i1") false "1704103200000"
            uploads_fail page_recorded))
  = [Context.local_only_warning].
Proof.
  destruct (upload_failure_keeps_answer_local blob_url questions1 false "1704103200000"
              "i1" uploads_fail page_recorded question1
              {| l_questionId := "q1"; l_questionText := q_text question1;
                 l_audioBlob := Some recording; l_audioUrl := "blob:recording";
                 l_transcript := spoken; l_code := "";
                 l_score := None; l_feedback := None; l_criteria := None |}
              recording
              {| i_id := "i1"; i_candidateId := "u1"; i_stackId := "s1"; i_answers := [] |}
              eq_refl eq_refl eq_refl eq_refl eq_refl eq_refl eq_refl)
    as (Hcreates & Hwarnings & _).
  split; [exact Hcreates | exact Hwarnings].
Defined.

(** C7 (as stated) fails: the candidate records an answer and saves it
    while every upload fails. No create request leaves the client, so no
    Answer is persisted; the Answer kept in the client's state refers to
    the recording by its object URL, not by an empty reference; and the
    failure is shown twice, as an error and as a warning. *)
Lemma failed_upload_is_not_persisted :
  let p := step1 uploads_fail SaveResponse page_recorded in
  Context.creates (log p) = [] /\
  map (fun i => map (fun a => (a_questionId a, a_audioUrl a, a_score a)) (i_answers i))
    (interviews p)
  = [[("q1", "blob:recording", Some 7%Q)]] /\
  List.filter (fun t => is_warning t || is_error t) (Context.toasts (log p))
  = [Context.upload_error; Context.local_only_warning].
Proof. repeat split. Qed.

(** *** The end of the countdown *)

Example time_up_returns_to_question :
  let p := run1 (with_outcomes all_well (countdown ++ repeat GraceTick 5)) page1 in
  isAnswering p = false /\ currentQuestionIndex p = currentQuestionIndex page1 /\
  answeredQuestions p = answeredQuestions page1 /\ localAnswers p = [] /\
  Context.requests (log p) = [] /\
  Context.toasts (log p)
  = [thirty_seconds_warning; time_up_warning].
Proof. repeat split. Qed.

(** C8, where the code departs from it. The countdown of the first
    question runs out with nothing saved; the grace interval brings the
    grace countdown to 1; the one-second timeout of the countdown effect
    then brings it to 0 while the page is still answering, and the effect
    calls [handleRecordingComplete(new Blob(), '')]: the question is in
    [answeredQuestions], an answer is in [localAnswers], and a create
    request has gone to the server. The next firing of the grace interval
    then announces that the answer was not recorded. *)
Theorem grace_countdown_raced_by_effect :
  let p := run1 (with_outcomes all_well raced) page1 in
  let q := step1 all_well GraceTick p in
  autoSubmitCountdown (timers p) = 0 /\ isAnswering p = true /\
  elements (answeredQuestions page1) = [] /\
  elements (answeredQuestions p) = ["q1"] /\
  map l_questionId (localAnswers p) = ["q1"] /\
  length (Context.creates (log p)) = 1%nat /\
  isAnswering q = false /\
  elements (answeredQuestions q) = ["q1"] /\
  List.filter is_warning (Context.toasts (log q))
  = [thirty_seconds_warning; time_up_warning].
Proof. repeat split. Qed.

End SessionProps.

(** * Further properties of the code *)

(** ** The interview routes *)

Module InterviewAccessProps.

Import Interviews InterviewAccess Demo.


Lemma same_but_status_refl i : same_but_status i i.
Proof. repeat split. Qed.

Lemma status_only_refl id db : status_only id db db.
Proof.
  split; [reflexivity |]. split; [| tauto].
  intros i Hi. exists i. split; [exact Hi | apply same_but_status_refl].
Qed.

Lemma status_only_insert id db i i' :
  db !! id = Some i -> same_but_status i i' -> status_only id db (<[id := i']> db).
Proof.
  intros Hi Hsame. split; [| split].
  - intros j Hj. apply lookup_insert_ne. congruence.
  - intros i0 Hi0. exists i'. rewrite lookup_insert_eq. split; [reflexivity |].
    congruence.
  - congruence.
Qed.

Lemma apply_update_status_only (body : gmap string Json) i i' :
  apply_update (keep_keys ["status"] body) i = Some i' -> same_but_status i i'.
Proof.
  unfold apply_update.
  rewrite (AnswerProps.keep_keys_lookup_None _ _ "candidate") by AnswerProps.not_listed.
  rewrite (AnswerProps.keep_keys_lookup_None _ _ "scheduledDate") by AnswerProps.not_listed.
  rewrite (AnswerProps.keep_keys_lookup_None _ _ "scheduledTime") by AnswerProps.not_listed.
  rewrite (AnswerProps.keep_keys_lookup_None _ _ "duration") by AnswerProps.not_listed.
  simpl. intros H.
  destruct (keep_keys ["status"] body !! "status") as [v |]; simpl in H.
  - destruct (cast_string v ≫= status_of_name) as [s |]; simpl in H; [| discriminate].
    injection H as <-. repeat split.
  - injection H as <-. repeat split.
Qed.

Section Dates.

Variable date_to_string : Z -> string.
Variable date_of_string : string -> JsDate.

Local Abbreviation start := (Interviews.start date_to_string date_of_string).

(** X1. Whoever calls the start route, and whatever it answers, the
    interview it names has afterwards the candidate, date, time and
    duration it had, and every other interview is as it was; the same
    holds for an update sent by a caller who is not an admin, whatever
    its body names. *)
Theorem start_and_candidate_update_touch_status_only db u id :
  (forall now, status_only id db (start db u id now).2) /\
  (forall body, is_admin u = false -> status_only id db (update db u id body).2).
Proof.
  split.
  - intros now. unfold Interviews.start.
    destruct (db !! id) as [i |] eqn:Hi; [| apply status_only_refl].
    repeat (match goal with |- context [if ?c then _ else _] => destruct c end;
            [apply status_only_refl |]).
    apply (status_only_insert id db i); [exact Hi | repeat split].
  - intros body Hu. unfold update.
    destruct (db !! id) as [i |] eqn:Hi; [| apply status_only_refl].
    rewrite Hu. simpl. rewrite andb_true_r.
    destruct (negb (candidate i =? user_id u)%string); [apply status_only_refl |].
    destruct (apply_update (keep_keys ["status"] body) i) as [i' |] eqn:Happ;
      [| apply status_only_refl].
    apply (status_only_insert id db i); [exact Hi |].
    apply (apply_update_status_only body); exact Happ.
Qed.

(** X2. An interview is started once: after a start that succeeded,
    every further start of it, by any caller and at any time, is
    refused and changes nothing. *)
Theorem start_only_once db u id now i' db' :
  start db u id now = (Success 200 i', db') ->
  forall u' now',
    succeeded (start db' u' id now').1 = false /\ (start db' u' id now').2 = db'.
Proof.
  unfold Interviews.start at 1.
  destruct (db !! id) as [i |] eqn:Hi; [| discriminate].
  repeat (match goal with |- context [if ?c then _ else _] => destruct c end;
          [discriminate |]).
  intros H. injection H as <- <-. intros u' now'.
  unfold Interviews.start. rewrite lookup_insert_eq.
  change (status (set_status in_progress i)) with in_progress.
  change (negb (status_eqb in_progress scheduled)) with true.
  repeat (match goal with |- context [if ?c then _ else _] => destruct c end;
          [split; reflexivity |]).
  split; reflexivity.
Qed.

End Dates.


(** X4. A deleted interview is gone for every route and every caller:
    reading, updating and starting it answer 404 and change nothing,
    and the other interviews are read as before. *)
Theorem deleted_interview_is_gone date_to_string date_of_string db id db' :
  remove db id = (Success 200 tt, db') ->
  (forall u, get_one db' u id = Failure 404 msg_not_found) /\
  (forall u body, update db' u id body = (Failure 404 msg_not_found, db')) /\
  (forall u now,
     Interviews.start date_to_string date_of_string db' u id now
     = (Failure 404 msg_not_found, db')) /\
  (forall u j, j <> id -> get_one db' u j = get_one db u j).
Proof.
  unfold remove. destruct (db !! id) as [i |] eqn:Hi; [| discriminate].
  intros H. injection H as <-.
  assert (Hgone : delete id db !! id = None) by apply lookup_delete_eq.
  repeat split.
  - intros u. unfold get_one. rewrite Hgone. reflexivity.
  - intros u body. unfold update. rewrite Hgone. reflexivity.
  - intros u now. unfold Interviews.start. rewrite Hgone. reflexivity.
  - intros u j Hj. unfold get_one. rewrite lookup_delete_ne by congruence. reflexivity.
Qed.

Lemma start_and_candidate_update_touch_status_only_witness :
  status_only "i1" interviews2
    (update interviews2 candidate1 "i1"
       {[ "status" := JStr "cancelled"; "duration" := JNum 5;
          "candidate" := JStr "u2" ]}).2.
Proof.
  apply (proj2 (start_and_candidate_update_touch_status_only print_day read_day
                  interviews2 candidate1 "i1")).
  reflexivity.
Defined.

Lemma start_only_once_witness :
  succeeded (Interviews.start print_day read_day
               (<["i1" := set_status in_progress interview1]> interviews1)
               candidate1 "i1" (t1015 + 1)).1 = false.
Proof.
  apply (start_only_once print_day read_day interviews1 candidate1 "i1" t1015
           (set_status in_progress interview1)).
  reflexivity.
Defined.


Lemma deleted_interview_is_gone_witness :
  get_one (delete "i1" interviews1) candidate1 "i1" = Failure 404 msg_not_found.
Proof.
  apply (deleted_interview_is_gone print_day read_day interviews1 "i1").
  reflexivity.
Defined.

End InterviewAccessProps.

(** ** The invitation link *)

Module InvitationProps.

Import Interviews Invitation Demo.

Section Dates.

Variable date_to_string : Z -> string.
Variable date_of_string : string -> JsDate.

Local Abbreviation scheduledStart := (Interviews.scheduledStart date_to_string date_of_string).
Local Abbreviation start := (Interviews.start date_to_string date_of_string).
Local Abbreviation verify := (verifyInterviewToken date_to_string date_of_string).




End Dates.

Example link_at_1005 :
  verifyInterviewToken print_day read_day interviews1 "i1" (Some "i1") (t1000 + 300000)
  = Success 200 interview1.
Proof. reflexivity. Qed.

Example link_two_minutes_early :
  verifyInterviewToken print_day read_day interviews1 "i1" (Some "i1") (t1000 - 90000)
  = Failure 403 "Interview has not started yet. Please join at the scheduled time in 2 minute(s).".
Proof. reflexivity. Qed.


Example link_dead_with_the_long_date_text :
  verifyInterviewToken print_long read_day interviews1 "i1" (Some "i1") t1000
  = Failure 403 msg_not_active.
Proof. reflexivity. Qed.


End InvitationProps.

(** ** The answer routes *)

Module AnswerAccessProps.

Import Interviews Answers AnswerAccess Demo Demo2.

Lemma find_by_id_In id docs answer :
  find_by_id id docs = Some answer -> In answer docs /\ doc_id answer = id.
Proof.
  intros H. apply find_some in H as [Hin Hid].
  split; [exact Hin | apply Nat.eqb_eq; exact Hid].
Qed.


(** X8. Deleting an interview leaves its Answers in their collection,
    where no caller can read them by id any more, admins included (400,
    not 404), and the candidate cannot update them; the unfiltered list
    of an admin still shows them, and the one of anybody else does not. *)
Theorem answers_outlive_their_interview valid valid_update interviews interviews'
    docs id aid answer :
  InterviewAccess.remove interviews id = (Success 200 tt, interviews') ->
  find_by_id aid docs = Some answer -> interview_of answer = Some id ->
  (forall u, get_one interviews' docs u aid
             = Failure 400 "Cannot read properties of null") /\
  (forall u body, is_admin u = false ->
     Answers.update valid valid_update interviews' docs u aid body
     = (Failure 400 "Cannot read properties of null", docs)) /\
  (forall u, is_admin u = true ->
     exists l, get_all interviews' docs u None = Success 200 l /\ In answer l) /\
  (forall u, is_admin u = false ->
     exists l, get_all interviews' docs u None = Success 200 l /\ ~ In answer l).
Proof.
  unfold InterviewAccess.remove.
  destruct (interviews !! id) as [i |] eqn:Hi; [| discriminate].
  intros H Hfind Hof. injection H as <-.
  assert (Hgone : delete id interviews !! id = None) by apply lookup_delete_eq.
  split; [| split; [| split]].
  - intros u. unfold get_one. rewrite Hfind, Hof. simpl. rewrite Hgone. reflexivity.
  - intros u body Hu. unfold Answers.update. rewrite Hfind, Hu.
    unfold interview_of in Hof. rewrite Hof. simpl. rewrite Hgone. reflexivity.
  - intros u Hu. exists docs. unfold get_all. rewrite Hu. simpl.
    split; [reflexivity |]. apply (find_by_id_In aid). exact Hfind.
  - intros u Hu. eexists. unfold get_all. rewrite Hu. simpl.
    split; [reflexivity |]. intros Hin. apply filter_In in Hin as [_ Hown].
    unfold of_own_interview in Hown. rewrite Hof in Hown. simpl in Hown.
    rewrite Hgone in Hown. discriminate.
Qed.

Lemma below_fresh_id docs d : In d docs -> (doc_id d < fresh_id docs)%nat.
Proof.
  unfold fresh_id. induction docs as [| x rest IH]; simpl; [tauto |].
  intros [-> | Hin]; [lia |]. specialize (IH Hin). lia.
Qed.

Lemma find_by_id_fresh docs d :
  doc_id d = fresh_id docs -> find_by_id (doc_id d) (docs ++ [d]) = Some d.
Proof.
  intros Hd. unfold find_by_id.
  assert (H : forall l, (forall x, In x l -> doc_id x <> doc_id d) ->
            List.find (fun x => Nat.eqb (doc_id x) (doc_id d)) (l ++ [d]) = Some d).
  { induction l as [| x rest IH]; simpl; intros Hl.
    - rewrite Nat.eqb_refl. reflexivity.
    - rewrite (proj2 (Nat.eqb_neq _ _) (Hl x (or_introl eq_refl))).
      apply IH. intros y Hy. apply Hl. right. exact Hy. }
  apply H. intros x Hx. pose proof (below_fresh_id docs x Hx). lia.
Qed.

Lemma remove_first_fresh docs d :
  doc_id d = fresh_id docs -> remove_first (has_id (doc_id d)) (docs ++ [d]) = docs.
Proof.
  intros Hd.
  assert (H : forall l, (forall x, In x l -> doc_id x <> doc_id d) ->
            remove_first (has_id (doc_id d)) (l ++ [d]) = l).
  { induction l as [| x rest IH]; simpl; intros Hl.
    - unfold has_id. rewrite Nat.eqb_refl. reflexivity.
    - unfold has_id at 1.
      rewrite (proj2 (Nat.eqb_neq _ _) (Hl x (or_introl eq_refl))).
      f_equal. apply IH. intros y Hy. apply Hl. right. exact Hy. }
  apply H. intros x Hx. pose proof (below_fresh_id docs x Hx). lia.
Qed.

(** X9. Deleting the Answer that a create has just stored gives back
    the collection as it was before the create. *)
Theorem remove_undoes_create valid interviews docs u body now d docs' :
  create valid interviews docs u body now = (Success 201 d, docs') ->
  remove docs' (doc_id d) = (Success 200 tt, docs).
Proof.
  unfold create.
  destruct (json_str (body !! "interview") ≫= (interviews !!.)) as [i |];
    [| discriminate].
  destruct (negb (candidate i =? user_id u)%string && negb (is_admin u));
    [discriminate |].
  simpl. destruct (valid _); [| discriminate].
  intros H. injection H as <- <-. unfold remove. simpl doc_id.
  set (d := {| doc_id := fresh_id docs;
               fields := keep_keys schema_paths body ∪ defaults now |}).
  change (fresh_id docs) with (doc_id d).
  rewrite (find_by_id_fresh docs d eq_refl), (remove_first_fresh docs d eq_refl).
  reflexivity.
Qed.

Lemma set_fields_twice ans x : set_fields ans (set_fields ans x) = set_fields ans x.
Proof.
  unfold set_fields. simpl. f_equal.
  rewrite (assoc_L (∪)). rewrite (idemp_L (∪)). reflexivity.
Qed.

Lemma update_first_again p f docs d docs' :
  (forall x, p x = true -> p (f x) = true) -> (forall x, f (f x) = f x) ->
  update_first p f docs = Some (d, docs') ->
  update_first p f docs' = Some (d, docs').
Proof.
  intros Hp Hf. revert d docs'.
  induction docs as [| x rest IH]; simpl; intros d docs' H; [discriminate |].
  destruct (p x) eqn:Hx.
  - injection H as <- <-. simpl. rewrite (Hp x Hx), Hf. reflexivity.
  - destruct (update_first p f rest) as [[d1 rest1] |]; simpl in H; [| discriminate].
    injection H as <- <-. simpl. rewrite Hx, (IH d1 rest1 eq_refl). reflexivity.
Qed.

Lemma update_first_appended p f docs d :
  update_first p f docs = None -> p d = true ->
  update_first p f (docs ++ [d]) = Some (f d, docs ++ [f d]).
Proof.
  intros H Hd. induction docs as [| x rest IH]; simpl in *.
  - rewrite Hd. reflexivity.
  - destruct (p x); [discriminate |].
    destruct (update_first p f rest) as [[d1 rest1] |]; [discriminate |].
    rewrite (IH eq_refl). reflexivity.
Qed.

(** X10. An item of a batch can be sent again: the upsert of an item
    that has just been upserted returns the same document and leaves
    the collection as it is, at whatever time it runs. *)
Theorem upsert_again_changes_nothing docs ans now now' d docs' :
  upsert docs ans now = Some (d, docs') -> upsert docs' ans now' = Some (d, docs').
Proof.
  unfold upsert.
  destruct (json_str (ans !! "interview")) as [i |] eqn:Hi; [| discriminate].
  destruct (json_str (ans !! "question")) as [q |] eqn:Hq; [| discriminate].
  simpl.
  destruct (update_first (for_pair i q) (set_fields ans) docs) as [r |] eqn:Hup.
  - intros H. injection H as ->.
    rewrite (update_first_again _ _ docs d docs'); [reflexivity | | | exact Hup].
    + intros x Hx. rewrite (AnswerProps.set_fields_same_pair ans i q x); assumption.
    + apply set_fields_twice.
  - intros H. injection H as <- <-.
    set (d := {| doc_id := fresh_id docs;
                 fields := keep_keys schema_paths ans ∪ defaults now |}).
    assert (Hd : for_pair i q d = true).
    { apply AnswerProps.for_pair_iff. apply AnswerProps.written_pair; assumption. }
    rewrite (update_first_appended _ _ docs d Hup Hd).
    assert (Hsame : set_fields ans d = d).
    { unfold set_fields, d. simpl. f_equal.
      rewrite (assoc_L (∪)). rewrite (idemp_L (∪)). reflexivity. }
    rewrite Hsame. reflexivity.
Qed.








(** X13. An update is not all or nothing either: when an admin sends a
    score or a feedback together with criteria that the validators
    refuse, the answer is 400 and the score and the feedback are
    stored all the same. *)
Theorem refused_criteria_leave_the_score_written valid valid_update interviews docs
    u id body answer c :
  is_admin u = true -> find_by_id id docs = Some answer ->
  body !! "criteria" = Some c -> truthy c = true ->
  let updateData := delete "criteria" (keep_keys admin_updates body) in
  valid_update (keep_keys schema_paths updateData) = true ->
  valid (fields (set_criteria c (set_fields updateData answer))) = false ->
  let r := Answers.update valid valid_update interviews docs u id body in
  r.1 = Failure 400 "Validation failed" /\
  find_by_id id r.2 = Some (set_fields updateData answer) /\
  (forall k v, k = "score" \/ k = "feedback" -> body !! k = Some v ->
     fields (set_fields updateData answer) !! k = Some v).
Proof.
  intros Hu Hfind Hc Htruthy updateData Hvu Hv r.
  assert (Hr : r = (Failure 400 "Validation failed",
                    (r.2)) /\ find_by_id id r.2 = Some (set_fields updateData answer)).
  { unfold r, Answers.update. rewrite Hfind, Hu. unfold write_update.
    fold updateData. rewrite Hvu. simpl.
    destruct (AnswerProps.update_first_by_id id (set_fields updateData) docs
                (fun d => eq_refl) answer Hfind) as (docs1 & Hup & Hfound & _).
    rewrite Hup.
    rewrite (AnswerProps.keep_keys_lookup_Some admin_updates body "criteria")
      by (apply list_elem_of_In; simpl; auto).
    rewrite Hc, Htruthy.
    change (valid (<["criteria" := c]> (fields (set_fields updateData answer))))
      with (valid (fields (set_criteria c (set_fields updateData answer)))).
    rewrite Hv. simpl. split; [reflexivity | exact Hfound]. }
  destruct Hr as [Hr Hfound]. split; [rewrite Hr; reflexivity |].
  split; [exact Hfound |].
  intros k v Hk Hbody. unfold set_fields. simpl. apply lookup_union_Some_l.
  assert (Hpath : k ∈ schema_paths)
    by (destruct Hk as [-> | ->]; apply list_elem_of_In; simpl; auto 12).
  assert (Hadm : k ∈ admin_updates)
    by (destruct Hk as [-> | ->]; apply list_elem_of_In; simpl; auto).
  rewrite AnswerProps.keep_keys_lookup_Some by exact Hpath.
  unfold updateData. rewrite lookup_delete_ne by (destruct Hk as [-> | ->]; discriminate).
  rewrite AnswerProps.keep_keys_lookup_Some by exact Hadm. exact Hbody.
Qed.


Lemma answers_outlive_their_interview_witness :
  get_one (delete "i1" interviews1) answers1 admin1 1
  = Failure 400 "Cannot read properties of null".
Proof.
  apply (answers_outlive_their_interview score_in_range score_in_range interviews1
           (delete "i1" interviews1) answers1 "i1" 1%nat answer1).
  - reflexivity.
  - reflexivity.
  - reflexivity.
Defined.

Lemma remove_undoes_create_witness :
  remove (create score_in_range interviews1 answers1 candidate1 body_q1 0).2 2
  = (Success 200 tt, answers1).
Proof.
  apply (remove_undoes_create score_in_range interviews1 answers1 candidate1 body_q1 0
           {| doc_id := 2; fields := keep_keys schema_paths body_q1 ∪ defaults 0 |}).
  reflexivity.
Defined.

Lemma upsert_again_changes_nothing_witness :
  exists d docs',
    upsert [] body_q1 0 = Some (d, docs') /\ upsert docs' body_q1 5 = Some (d, docs').
Proof.
  destruct (upsert [] body_q1 0) as [[d docs'] |] eqn:H.
  - exists d, docs'. split; [reflexivity |].
    apply (upsert_again_changes_nothing [] body_q1 0 5 d docs'). exact H.
  - vm_compute in H. discriminate H.
Defined.



Lemma refused_criteria_leave_the_score_written_witness :
  (Answers.update criteria_in_range score_in_range interviews1 answers1 admin1 1
     body_regrade).1 = Failure 400 "Validation failed" /\
  exists stored,
    find_by_id 1 (Answers.update criteria_in_range score_in_range interviews1 answers1
                    admin1 1 body_regrade).2 = Some stored /\
    fields stored !! "score" = Some (JNum 9).
Proof.
  destruct (refused_criteria_leave_the_score_written criteria_in_range score_in_range
              interviews1 answers1 admin1 1%nat body_regrade answer1
              (JObj [("technicalAccuracy", JNum 11); ("completeness", JNum 9);
                     ("clarity", JNum 9); ("examples", JNum 9)])
              eq_refl eq_refl eq_refl eq_refl eq_refl eq_refl)
    as (Hcode & Hstored & Hscore).
  split; [exact Hcode |].
  eexists. split; [exact Hstored |].
  apply Hscore; [left; reflexivity | reflexivity].
Defined.



Example stranger_rewrites_a_score_by_batch :
  exists d docs',
    batch answers1 (Items [<["score" := JNum 10]> body_q1]) 0 = (Success 201 [d], docs') /\
    fields d !! "score" = Some (JNum 10) /\ doc_id d = doc_id answer1.
Proof. eexists. eexists. split; [reflexivity |]. split; reflexivity. Qed.

End AnswerAccessProps.

(** ** The evaluator *)

Module EvaluatorMoreProps.

Import JsString AI Scores Demo.

Lemma from_open_brace_split s r :
  from_open_brace s = Some r ->
  exists pre r', r = String "{" r' /\ s = pre +:+ r /\ without "{" pre = true.
Proof.
  induction s as [| c t IH]; simpl; [discriminate |].
  destruct (Ascii.eqb c "{") eqn:Hc.
  - intros H. injection H as <-. apply Ascii.eqb_eq in Hc as ->.
    exists "", t. repeat split.
  - intros H. destruct (IH H) as (pre & r' & -> & -> & Hpre).
    exists (String c pre), r'. repeat split. unfold without in *. simpl.
    rewrite Hc, Hpre. reflexivity.
Qed.

Lemma to_last_close_split s p :
  to_last_close s = Some p ->
  exists mid post, p = mid +:+ "}" /\ s = mid +:+ String "}" post /\
                   without "}" post = true.
Proof.
  revert p. induction s as [| c t IH]; simpl; intros p; [discriminate |].
  destruct (to_last_close t) as [p' |] eqn:Ht.
  - intros H. injection H as <-.
    destruct (IH p' eq_refl) as (mid & post & -> & -> & Hpost).
    exists (String c mid), post. repeat split. exact Hpost.
  - destruct (Ascii.eqb c "}") eqn:Hc; [| discriminate].
    intros H. injection H as <-. apply Ascii.eqb_eq in Hc as ->.
    exists "", t. repeat split.
    clear IH. induction t as [| d u IHu]; [reflexivity |].
    simpl in Ht. destruct (to_last_close u); [discriminate |].
    destruct (Ascii.eqb d "}") eqn:Hd; [discriminate |].
    unfold without in *. simpl. rewrite Hd. simpl. apply IHu. reflexivity.
Qed.

Lemma to_last_close_finds a b : to_last_close (a +:+ String "}" b) <> None.
Proof.
  induction a as [| c t IH]; simpl.
  - destruct (to_last_close b); discriminate.
  - destruct (to_last_close (t +:+ String "}" b)); [discriminate | contradiction].
Qed.

Lemma append_assoc (a b c : string) : (a +:+ b) +:+ c = a +:+ (b +:+ c).
Proof.
  induction a as [| x t IH]; [reflexivity |].
  change (String x ((t +:+ b) +:+ c) = String x (t +:+ (b +:+ c))).
  f_equal. exact IH.
Qed.

Lemma from_open_brace_finds a b :
  exists pre r, from_open_brace (a +:+ String "{" b) = Some (String "{" r) /\
                r = pre +:+ b.
Proof.
  induction a as [| c t IH]; simpl.
  - exists "", b. split; reflexivity.
  - destruct (Ascii.eqb c "{") eqn:Hc.
    + apply Ascii.eqb_eq in Hc as ->. exists (t +:+ "{"), (t +:+ String "{" b).
      split; [reflexivity |]. rewrite append_assoc. reflexivity.
    + exact IH.
Qed.

(** X14. What the regular expression of the evaluator matches: the
    text from its first opening brace to its last closing brace, when
    that closing brace comes after the opening one; and it matches
    nothing exactly when no opening brace of the text is followed by a
    closing one. *)
Theorem jsonMatch_first_to_last_brace text :
  (forall m,
     jsonMatch text = Some m <->
     exists pre mid post,
       text = pre +:+ String "{" (mid +:+ String "}" post) /\
       without "{" pre = true /\ without "}" post = true /\
       m = String "{" (mid +:+ "}")) /\
  (jsonMatch text = None <->
   forall a b c, text <> a +:+ String "{" (b +:+ String "}" c)).
Proof.
  assert (Hsome : forall m,
    jsonMatch text = Some m <->
    exists pre mid post,
      text = pre +:+ String "{" (mid +:+ String "}" post) /\
      without "{" pre = true /\ without "}" post = true /\
      m = String "{" (mid +:+ "}")).
  { intros m. split.
    - unfold jsonMatch.
      destruct (from_open_brace text) as [r |] eqn:Hopen; [| discriminate].
      apply from_open_brace_split in Hopen as (pre & r' & -> & -> & Hpre).
      destruct (to_last_close r') as [p |] eqn:Hclose; simpl; [| discriminate].
      apply to_last_close_split in Hclose as (mid & post & -> & -> & Hpost).
      intros H. injection H as <-. exists pre, mid, post. repeat split; assumption.
    - intros (pre & mid & post & -> & Hpre & Hpost & ->).
      apply EvaluatorProps.jsonMatch_between; assumption. }
  split; [exact Hsome |]. split.
  - intros Hnone a b c ->. revert Hnone. unfold jsonMatch.
    destruct (from_open_brace_finds a (b +:+ String "}" c)) as (pre & r & -> & ->).
    rewrite <- append_assoc.
    destruct (to_last_close ((pre +:+ b) +:+ String "}" c)) eqn:Hclose;
      [discriminate |].
    now apply to_last_close_finds in Hclose.
  - intros Hno. destruct (jsonMatch text) as [m |] eqn:Hm; [| reflexivity].
    destruct (proj1 (Hsome m) eq_refl) as (pre & mid & post & Htext & _).
    now apply Hno in Htext.
Qed.

Lemma jsonMatch_first_to_last_brace_witness :
  jsonMatch "see {a} and {b}." = Some "{a} and {b}".
Proof.
  apply (proj1 (jsonMatch_first_to_last_brace "see {a} and {b}.")).
  exists "see ", "a} and {b", ".". repeat split.
Defined.

Example jsonMatch_spans_two_objects :
  jsonMatch "a {x} b {y} c" = Some "{x} b {y}" /\ jsonMatch "} then {" = None.
Proof. split; reflexivity. Qed.

(** *** The fallback evaluation stays within the schema *)

Lemma qmin_le_l a b : (qmin a b <= a)%Q.
Proof.
  unfold qmin. destruct (Qle_bool a b) eqn:H; [apply Qle_refl |].
  destruct (Qlt_le_dec b a) as [Hlt | Hle]; [apply Qlt_le_weak, Hlt |].
  apply Qle_bool_iff in Hle. congruence.
Qed.

Lemma qmin_le_r a b : (qmin a b <= b)%Q.
Proof.
  unfold qmin. destruct (Qle_bool a b) eqn:H; [| apply Qle_refl].
  apply Qle_bool_iff. exact H.
Qed.

Lemma qmin_nonneg a b : (0 <= a)%Q -> (0 <= b)%Q -> (0 <= qmin a b)%Q.
Proof. unfold qmin. destruct (Qle_bool a b); auto. Qed.

Lemma q_of_nat_nonneg n : (0 <= q_of_nat n)%Q.
Proof.
  unfold q_of_nat. change 0%Q with (inject_Z 0). rewrite <- Zle_Qle. lia.
Qed.

Lemma round1_nonneg x : (0 <= x)%Q -> (0 <= round1 x)%Q.
Proof.
  intros H. unfold round1, round.
  assert (Hz : 0 <= Qfloor (x * 10 + (1 # 2))).
  { change 0 with (Qfloor 0). apply Qfloor_resp_le.
    apply Qle_trans with (x * 10)%Q.
    - apply Qmult_le_0_compat; [exact H | discriminate].
    - rewrite <- (Qplus_0_r (x * 10)) at 1. apply Qplus_le_r. discriminate. }
  apply Qle_shift_div_l; [reflexivity |]. rewrite Qmult_0_l.
  change 0%Q with (inject_Z 0). rewrite <- Zle_Qle. exact Hz.
Qed.

Lemma round1_le_10 x : (x <= 10)%Q -> (round1 x <= 10)%Q.
Proof.
  intros H. unfold round1, round.
  assert (Hz : Qfloor (x * 10 + (1 # 2)) <= 100).
  { change 100 with (Qfloor (100 + (1 # 2))). apply Qfloor_resp_le.
    apply Qplus_le_l. change 100%Q with (10 * 10)%Q.
    apply Qmult_le_compat_r; [exact H | discriminate]. }
  apply Qle_shift_div_r; [reflexivity |].
  change (10 * 10)%Q with (inject_Z 100). rewrite <- Zle_Qle. exact Hz.
Qed.

Lemma in_range_round1 x : in_range x -> in_range (round1 x).
Proof. intros [H0 H1]. split; [apply round1_nonneg | apply round1_le_10]; assumption. Qed.

Lemma in_range_capped x : (0 <= x)%Q -> in_range (qmin 10 x).
Proof.
  intros H. split; [apply qmin_nonneg; [discriminate | exact H] | apply qmin_le_l].
Qed.

Lemma share_nonneg a b : (0 <= q_of_nat a / b * 10)%Q \/ (b < 0)%Q.
Proof.
  destruct (Qlt_le_dec b 0) as [Hb | Hb]; [right; exact Hb | left].
  apply Qmult_le_0_compat; [| discriminate].
  unfold Qdiv. apply Qmult_le_0_compat; [apply q_of_nat_nonneg |].
  apply Qinv_le_0_compat. exact Hb.
Qed.

Lemma share_of_nat a b : (0 <= q_of_nat a / q_of_nat b * 10)%Q.
Proof.
  destruct (share_nonneg a (q_of_nat b)) as [H | H]; [exact H |].
  pose proof (q_of_nat_nonneg b) as Hb. exfalso.
  apply (Qlt_irrefl 0). apply Qle_lt_trans with (q_of_nat b); assumption.
Qed.

Lemma share_of_constant a (k : Q) : (0 < k)%Q -> (0 <= q_of_nat a / k * 10)%Q.
Proof.
  intros Hk. destruct (share_nonneg a k) as [H | H]; [exact H |].
  exfalso. apply (Qlt_irrefl 0). apply Qlt_trans with k; assumption.
Qed.

Lemma sum_nonneg x y : (0 <= x)%Q -> (0 <= y)%Q -> (0 <= x + y)%Q.
Proof.
  intros Hx Hy. change 0%Q with (0 + 0)%Q. apply Qplus_le_compat; assumption.
Qed.

Lemma weighted_nonneg a b c :
  (0 <= a)%Q -> (0 <= b)%Q -> (0 <= c)%Q ->
  (0 <= a * (5 # 10) + b * (3 # 10) + c * (2 # 10))%Q.
Proof.
  intros Ha Hb Hc.
  repeat (apply sum_nonneg || apply Qmult_le_0_compat); try assumption; discriminate.
Qed.

Lemma mixed_nonneg a b :
  (0 <= a)%Q -> (0 <= b)%Q -> (0 <= a * (6 # 10) + b * (4 # 10))%Q.
Proof.
  intros Ha Hb.
  repeat (apply sum_nonneg || apply Qmult_le_0_compat); try assumption; discriminate.
Qed.

(** X15. Whatever the question and the answer, the score of the
    fallback evaluation and each of its four criteria lie between 0
    and 10, the range the Answer schema accepts. *)
Theorem fallback_stays_in_range question transcript techStack code :
  let e := createFallbackEvaluation question transcript techStack code in
  in_range (score e) /\
  in_range (technicalAccuracy (criteria e)) /\ in_range (completeness (criteria e)) /\
  in_range (clarity (criteria e)) /\ in_range (examples (criteria e)).
Proof.
  unfold createFallbackEvaluation.
  match goal with |- context [if ?c then _ else _] => destruct c end.
  { simpl. repeat split; discriminate. }
  cbn [score criteria technicalAccuracy completeness clarity examples].
  set (qk := questionKeywords question).
  set (relevance := if (0 <? length qk)%nat then _ else 5%Q).
  assert (Hrel : in_range relevance).
  { unfold relevance. destruct (0 <? length qk)%nat;
      [apply in_range_capped, share_of_nat | split; discriminate]. }
  set (keyword := qmin 10 (_ / 8 * 10)%Q).
  assert (Hkey : in_range keyword).
  { apply in_range_capped, share_of_constant. reflexivity. }
  set (len := if given transcript && given code then _ else _).
  assert (Hlen : (0 <= len)%Q).
  { unfold len. destruct (given transcript), (given code); simpl;
      try (apply mixed_nonneg);
      try (apply qmin_nonneg; [discriminate | apply share_of_constant; reflexivity]);
      discriminate. }
  split; [| split; [| split; [| split]]].
  - apply in_range_capped, round1_nonneg, weighted_nonneg;
      [apply Hrel | apply Hkey | exact Hlen].
  - apply in_range_round1, Hrel.
  - apply in_range_round1, Hkey.
  - destruct (given transcript); [| split; discriminate].
    split; [| apply qmin_le_r].
    apply qmin_nonneg; [| discriminate].
    apply Qle_shift_div_l; [reflexivity |]. rewrite Qmult_0_l. apply q_of_nat_nonneg.
  - match goal with |- context [if ?c then _ else _] => destruct c end;
      split; discriminate.
Qed.

(** *** The word test *)

Lemma lower_char_twice c : lower_char (lower_char c) = lower_char c.
Proof.
  destruct c as [[] [] [] [] [] [] [] []]; reflexivity.
Qed.

Lemma toLowerCase_twice s : toLowerCase (toLowerCase s) = toLowerCase s.
Proof.
  induction s as [| c t IH]; simpl; [reflexivity |].
  now rewrite lower_char_twice, IH.
Qed.

Lemma includes_nonempty s sub : includes s sub = true -> nonempty sub = true -> nonempty s = true.
Proof.
  destruct s; [| reflexivity]. destruct sub; [discriminate |]. simpl. discriminate.
Qed.

(** X16. A transcript in which the letters t, e, s, t follow one
    another anywhere, in capitals or not ("latest", "Jest", "testing"),
    gets the lowest evaluation of the fallback evaluator: score 1 and
    1 on every criterion, whatever else it says and however long it
    is. *)
Theorem any_mention_of_test_scores_one question t techStack code :
  includes (toLowerCase t) "test" = true ->
  let e := createFallbackEvaluation question (Some t) techStack code in
  score e = 1%Q /\ criteria e = all_ones /\
  (isJustGreeting (toLowerCase t) = false ->
   feedback e = penalty_feedback false true).
Proof.
  intros H. unfold createFallbackEvaluation.
  assert (Hn : normalized (Some t) = toLowerCase t).
  { unfold normalized. destruct (nonempty t) eqn:Ht; [reflexivity |].
    apply negb_false_iff, String.eqb_eq in Ht. subst t. reflexivity. }
  rewrite Hn, toLowerCase_twice, H, !orb_true_r.
  cbn [score criteria feedback]. split; [reflexivity |]. split; [reflexivity |].
  intros ->. reflexivity.
Qed.

Lemma any_mention_of_test_scores_one_witness :
  score (createFallbackEvaluation "What is a React component?"
           (Some ("In the latest React " +:+ long_answer)) (Some "React") None) = 1%Q.
Proof.
  apply (any_mention_of_test_scores_one "What is a React component?"
           ("In the latest React " +:+ long_answer) (Some "React") None).
  reflexivity.
Defined.

End EvaluatorMoreProps.

(** ** The context of the client *)

Module ContextMoreProps.

Import Client JsString Context Demo.

Lemma creates_getTranscript useFreeMode audioBlob transcript env l :
  creates (getTranscript useFreeMode audioBlob transcript env l).2 = creates l.
Proof.
  unfold getTranscript. destruct (given transcript); [reflexivity |].
  destruct (transcribed env) as [| [text |]];
    [| destruct (nonempty text); [| destruct useFreeMode] | destruct useFreeMode];
    cbn [snd]; PipelineProps.through_log; reflexivity.
Qed.

Lemma creates_uploadAndCreate interviewId questionId audioBlob t code codeLanguage
    score feedback criteria env l :
  let l' := (uploadAndCreate interviewId questionId audioBlob t code codeLanguage
               score feedback criteria env l).2 in
  creates l' = creates l \/
  exists body, creates l' = creates l ++ [ReqCreate body] /\
    c_interview body = interviewId /\ c_question body = questionId /\
    c_transcript body = t /\
    uploaded env = UploadResolves true (c_audioUrl body).
Proof.
  unfold uploadAndCreate.
  destruct (uploaded env) as [| [] url]; cbn [snd].
  - left. PipelineProps.through_log. reflexivity.
  - right.
    match goal with |- context [ReqCreate ?b] => exists b end.
    split; [| repeat split].
    destruct (created env); cbn [snd]; PipelineProps.through_log; reflexivity.
  - left. PipelineProps.through_log. reflexivity.
Qed.

(** X17. One save sends one create request at most, and only for the
    interview and the question it was called for, with the transcript
    it ended up with and the URL of an upload that succeeded; a save
    that is rejected (unknown interview or question, or no transcript
    to be had) sends none and leaves the interviews of the context as
    they were. *)
Theorem save_sends_one_create_at_most createObjectURL interviews questions useFreeMode
    tempId interviewId questionId audioBlob transcript code codeLanguage env l :
  let r := saveAnswer createObjectURL interviews questions useFreeMode tempId
             interviewId questionId audioBlob transcript code codeLanguage env l in
  (rejected r = true ->
     interviews_after r = interviews /\ creates (log r) = creates l) /\
  (creates (log r) = creates l \/
   exists body,
     creates (log r) = creates l ++ [ReqCreate body] /\
     c_interview body = interviewId /\ c_question body = questionId /\
     uploaded env = UploadResolves true (c_audioUrl body) /\
     rejected r = false).
Proof.
  unfold saveAnswer.
  destruct (List.find _ interviews) as [interview |];
    [| split; [intros _; split; [reflexivity | apply PipelineProps.creates_say]
              | left; apply PipelineProps.creates_say]].
  destruct (List.find _ questions) as [question |];
    [| split; [intros _; split; [reflexivity | apply PipelineProps.creates_say]
              | left; apply PipelineProps.creates_say]].
  pose proof (creates_getTranscript useFreeMode audioBlob transcript env l) as Hgt.
  destruct (getTranscript useFreeMode audioBlob transcript env l) as [[ft |] l1];
    cbn [snd] in Hgt.
  2: { cbn [rejected interviews_after log].
       rewrite PipelineProps.creates_say, Hgt.
       split; [intros _; split; reflexivity | left; reflexivity]. }
  set (l2 := if too_short ft then say too_short_warning l1 else l1).
  assert (Hl2 : creates l2 = creates l).
  { unfold l2. destruct (too_short ft); [rewrite PipelineProps.creates_say |]; exact Hgt. }
  pose proof (PipelineProps.getEvaluation_log (q_text question) ft code env l2) as Hev.
  destruct (getEvaluation (q_text question) ft code env l2)
    as [[[score feedback] criteria] l3].
  cbn [snd] in Hev. destruct Hev as (_ & Hl3 & _).
  pose proof (creates_uploadAndCreate interviewId questionId audioBlob ft
                (default "" code) (default "" codeLanguage) score feedback criteria
                env l3) as Hup.
  destruct (uploadAndCreate interviewId questionId audioBlob ft (default "" code)
              (default "" codeLanguage) score feedback criteria env l3)
    as [serverId l4].
  cbn [snd] in Hup. cbn [rejected interviews_after log].
  rewrite PipelineProps.creates_say.
  split; [discriminate |].
  destruct Hup as [Hsame | (body & Hbody & Hi & Hq & _ & Hurl)].
  - left. congruence.
  - right. exists body. repeat split; try assumption. congruence.
Qed.

Lemma save_sends_one_create_at_most_witness :
  interviews_after
    (saveAnswer blob_url session1 questions1 false "t1" "i9" "q1" recording
       (Some spoken) None None (Session.saving all_well) no_log) = session1.
Proof.
  apply (save_sends_one_create_at_most blob_url session1 questions1 false "t1" "i9" "q1"
           recording (Some spoken) None None (Session.saving all_well) no_log).
  reflexivity.
Defined.

(** *** [refreshInterview] *)

Import Refresh.

Lemma replaced_ids interviewId formatted prev :
  i_id formatted = interviewId ->
  map i_id (map (add_answer interviewId formatted) prev) = map i_id prev.
Proof.
  intros Hid. rewrite map_map. apply map_ext_in. intros i _.
  unfold add_answer. destruct (String.eqb (i_id i) interviewId) eqn:Hi; [| reflexivity].
  apply String.eqb_eq in Hi. congruence.
Qed.

Lemma existsb_ids interviewId prev :
  existsb (fun i => String.eqb (i_id i) interviewId) prev = true
  <-> In interviewId (map i_id prev).
Proof.
  rewrite existsb_exists, in_map_iff. split.
  - intros (i & Hin & Hi). exists i. apply String.eqb_eq in Hi. split; assumption.
  - intros (i & Hi & Hin). exists i. split; [exact Hin | now apply String.eqb_eq].
Qed.

Lemma find_replaced interviewId formatted prev :
  i_id formatted = interviewId ->
  List.find (fun i => String.eqb (i_id i) interviewId)
    (replaced interviewId formatted prev) = Some formatted.
Proof.
  intros Hid.
  assert (Hself : String.eqb (i_id formatted) interviewId = true)
    by (rewrite Hid; apply String.eqb_refl).
  unfold replaced.
  destruct (existsb (fun i => String.eqb (i_id i) interviewId) prev) eqn:Hex; cbn [negb].
  - induction prev as [| i rest IH]; [discriminate |].
    cbn [existsb] in Hex. cbn [map List.find].
    destruct (String.eqb (i_id i) interviewId) eqn:Hi.
    + assert (add_answer interviewId formatted i = formatted) as ->
        by (unfold add_answer; now rewrite Hi).
      now rewrite Hself.
    + assert (add_answer interviewId formatted i = i) as ->
        by (unfold add_answer; now rewrite Hi).
      rewrite Hi. apply IH. exact Hex.
  - induction prev as [| i rest IH].
    + cbn. now rewrite Hself.
    + cbn [existsb] in Hex. apply orb_false_iff in Hex as [Hi Hrest].
      cbn [map app List.find].
      assert (add_answer interviewId formatted i = i) as ->
        by (unfold add_answer; now rewrite Hi).
      rewrite Hi. apply IH, Hrest.
Qed.

Lemma replaced_twice interviewId formatted prev :
  i_id formatted = interviewId ->
  replaced interviewId formatted (replaced interviewId formatted prev)
  = replaced interviewId formatted prev.
Proof.
  intros Hid.
  assert (Hmap : forall l,
            map (add_answer interviewId formatted) (map (add_answer interviewId formatted) l)
            = map (add_answer interviewId formatted) l).
  { intros l. rewrite map_map. apply map_ext. intros i. unfold add_answer.
    destruct (String.eqb (i_id i) interviewId) eqn:Hi; [| now rewrite Hi].
    now rewrite Hid, String.eqb_refl. }
  assert (Hex : existsb (fun i => String.eqb (i_id i) interviewId)
                  (replaced interviewId formatted prev) = true).
  { apply existsb_exists. exists formatted.
    split; [| now apply String.eqb_eq].
    pose proof (find_replaced interviewId formatted prev Hid) as H.
    apply find_some in H. apply H. }
  unfold replaced at 1. rewrite Hex. cbn [negb].
  unfold replaced. destruct (negb _).
  - rewrite map_app, Hmap. cbn [map]. unfold add_answer at 2.
    now rewrite Hid, String.eqb_refl.
  - apply Hmap.
Qed.

(** X18. Refreshing an interview keeps one entry for an interview in
    the client's state: when the interviews there have different ids,
    they still have after a refresh; the entry of the refreshed
    interview is the one the server delivered, with the Answers the
    server delivered and no other; the other interviews are what they
    were; and a second refresh with the same data changes nothing. A
    refresh that fails changes nothing. *)
Theorem refresh_keeps_one_entry interviews interviewId api answers :
  api_id api = interviewId ->
  NoDup (map i_id interviews) ->
  let r := refreshInterview interviews interviewId (Some api) answers in
  NoDup (map i_id (interviews_after r)) /\
  (exists entry,
     List.find (fun i => String.eqb (i_id i) interviewId) (interviews_after r)
     = Some entry /\
     returned r = Some entry /\ i_answers entry = default [] answers) /\
  (forall i, In i interviews -> i_id i <> interviewId -> In i (interviews_after r)) /\
  interviews_after (refreshInterview (interviews_after r) interviewId (Some api) answers)
  = interviews_after r /\
  interviews_after (refreshInterview interviews interviewId None answers) = interviews.
Proof.
  intros Hid Hnodup r. unfold r, refreshInterview. cbn [interviews_after returned].
  set (formatted := {| i_id := api_id api; i_candidateId := api_candidate api;
                       i_stackId := api_techStack api;
                       i_answers := default [] answers |}).
  assert (Hf : i_id formatted = interviewId) by exact Hid.
  split; [| split; [| split; [| split]]].
  - unfold replaced.
    destruct (existsb (fun i => String.eqb (i_id i) interviewId) interviews) eqn:Hex;
      cbn [negb].
    + rewrite replaced_ids by exact Hf. exact Hnodup.
    + rewrite map_app, replaced_ids by exact Hf. cbn [map].
      apply NoDup_app. split; [exact Hnodup |]. split; [| apply NoDup_singleton].
      intros x Hx Hx'. apply list_elem_of_singleton in Hx'. subst x.
      apply list_elem_of_In in Hx. rewrite Hf in Hx.
      apply existsb_ids in Hx. congruence.
  - exists formatted. split; [apply find_replaced, Hf | split; reflexivity].
  - intros i Hin Hne. unfold replaced.
    assert (In i (map (add_answer interviewId formatted) interviews)).
    { apply in_map_iff. exists i. split; [| exact Hin].
      unfold add_answer. destruct (String.eqb (i_id i) interviewId) eqn:Hi; [| reflexivity].
      apply String.eqb_eq in Hi. contradiction. }
    destruct (negb _); [apply in_or_app; left |]; assumption.
  - apply replaced_twice, Hf.
  - reflexivity.
Qed.

Lemma refresh_keeps_one_entry_witness :
  NoDup (map i_id
           (interviews_after
              (refreshInterview session1 "i2"
                 (Some {| api_id := "i2"; api_candidate := "u1"; api_techStack := "s1" |})
                 None))).
Proof.
  apply (refresh_keeps_one_entry session1 "i2"
           {| api_id := "i2"; api_candidate := "u1"; api_techStack := "s1" |} None).
  - reflexivity.
  - apply NoDup_singleton.
Defined.

End ContextMoreProps.

(** ** The question page: what holds of every page of a session *)

Module SessionMoreProps.

Import Client JsString Session Finish Demo Demo2.

Lemma kept_refl p : kept p p.
Proof. repeat split. Qed.

Lemma kept_trans a b c : kept a b -> kept b c -> kept a c.
Proof.
  unfold kept. intros (H1 & H2 & H3 & H4) (K1 & K2 & K3 & K4).
  repeat split; congruence.
Qed.

Lemma kept_with_log f p : kept p (with_log f p).
Proof. repeat split. Qed.

Lemma kept_setInterviews l p : kept p (setInterviews l p).
Proof. repeat split. Qed.

Lemma kept_setLocalAnswers f p : kept p (setLocalAnswers f p).
Proof. repeat split. Qed.

Lemma kept_setAnsweredQuestions f p : kept p (setAnsweredQuestions f p).
Proof. repeat split. Qed.

Lemma kept_setEditor b t p : kept p (setEditor b t p).
Proof. repeat split. Qed.

Lemma kept_pageUpload audio o p : kept p (pageUpload audio o p).
Proof. unfold pageUpload. destruct (upload_failed _); repeat split. Qed.

Lemma kept_pageEvaluate ask strict q t c o p : kept p (pageEvaluate ask strict q t c o p).2.
Proof.
  unfold pageEvaluate. destruct ask; [| apply kept_refl].
  destruct (evaluation1 o) as [| [e |] m]; [| | destruct strict];
    cbn [snd]; repeat split.
Qed.

Lemma localAnswers_pageUpload audio o p :
  localAnswers (pageUpload audio o p) = localAnswers p.
Proof. unfold pageUpload. now destruct (upload_failed _). Qed.

Lemma localAnswers_pageEvaluate ask strict q t c o p :
  localAnswers (pageEvaluate ask strict q t c o p).2 = localAnswers p.
Proof.
  unfold pageEvaluate. destruct ask; [| reflexivity].
  destruct (evaluation1 o) as [| [e |] m]; try reflexivity. now destruct strict.
Qed.

Ltac keeps :=
  repeat first
    [ apply kept_refl
    | eapply kept_trans; [| apply kept_with_log]
    | eapply kept_trans; [| apply kept_setInterviews]
    | eapply kept_trans; [| apply kept_setLocalAnswers]
    | eapply kept_trans; [| apply kept_setAnsweredQuestions]
    | eapply kept_trans; [| apply kept_pageUpload]
    | eapply kept_trans; [| apply kept_pageEvaluate] ].

Lemma replace_local_ids a prev :
  NoDup (map l_questionId prev) -> NoDup (map l_questionId (replace_local a prev)).
Proof.
  intros H. unfold replace_local. rewrite map_app. simpl.
  apply NoDup_app. split; [| split].
  - induction prev as [| x rest IH]; simpl; [constructor |].
    apply NoDup_cons in H as [Hx Hrest].
    destruct (other_question (l_questionId a) x); simpl; [| exact (IH Hrest)].
    apply NoDup_cons. split; [| exact (IH Hrest)].
    intros Hin. apply Hx. apply list_elem_of_fmap in Hin as (y & Hy & Hin).
    apply list_elem_of_In, filter_In in Hin as [Hin _].
    apply list_elem_of_fmap. exists y. split; [exact Hy |].
    apply list_elem_of_In. exact Hin.
  - intros x Hin Hx. apply list_elem_of_singleton in Hx as ->.
    apply list_elem_of_fmap in Hin as (y & Hy & Hin).
    apply list_elem_of_In, filter_In in Hin as [_ Hother].
    unfold other_question in Hother. rewrite <- Hy, String.eqb_refl in Hother.
    discriminate.
  - apply NoDup_singleton.
Qed.

Lemma set_evaluation_ids qid e l :
  map l_questionId (map (set_evaluation qid e) l) = map l_questionId l.
Proof.
  rewrite map_map. apply map_ext. intros a. unfold set_evaluation.
  now destruct (String.eqb (l_questionId a) qid).
Qed.

Section Page.

Variable createObjectURL : Blob -> string.
Variable questions : list Question.
Variable currentInterview : option string.
Variable useFreeMode : bool.
Variable tempId : string.

Local Abbreviation handle := (handle createObjectURL questions currentInterview useFreeMode tempId).
Local Abbreviation countdownEffect :=
  (countdownEffect createObjectURL questions currentInterview useFreeMode tempId).
Local Abbreviation step := (step createObjectURL questions currentInterview useFreeMode tempId).
Local Abbreviation run := (run createObjectURL questions currentInterview useFreeMode tempId).
Local Abbreviation handleSaveResponse :=
  (handleSaveResponse createObjectURL questions currentInterview useFreeMode tempId).
Local Abbreviation handleRecordingComplete :=
  (handleRecordingComplete createObjectURL questions currentInterview useFreeMode tempId).
Local Abbreviation onRecordingComplete := (onRecordingComplete createObjectURL questions).
Local Abbreviation callSaveAnswer :=
  (callSaveAnswer createObjectURL questions useFreeMode tempId).

Lemma kept_callSaveAnswer i q b t c o p : kept p (callSaveAnswer i q b t c o p).
Proof. repeat split. Qed.

Lemma kept_handleSaveResponse o p : kept p (handleSaveResponse o p).
Proof.
  unfold Session.handleSaveResponse.
  destruct currentInterview as [interviewId |]; [| apply kept_refl].
  destruct (currentQuestion questions p) as [question |]; [| apply kept_refl].
  cbn zeta. unfold toast.
  eapply kept_trans; [| apply kept_with_log].
  eapply kept_trans; [| apply kept_callSaveAnswer].
  match goal with
  | |- kept _ (match ?a with _ => _ end) => destruct a
  end; keeps;
    match goal with
    | |- kept _ (from_option _ _ ?b) => destruct b; cbn [from_option]; keeps
    end.
Qed.

Lemma kept_handleRecordingComplete o b t p : kept p (handleRecordingComplete o b t p).
Proof.
  unfold Session.handleRecordingComplete.
  destruct currentInterview as [interviewId |]; [| apply kept_refl].
  destruct (currentQuestion questions p) as [question |]; [| apply kept_refl].
  cbn zeta. unfold toast. keeps.
Qed.

Lemma kept_onRecordingComplete b t p : kept p (onRecordingComplete b t p).
Proof.
  unfold Session.onRecordingComplete.
  destruct (currentQuestion questions p); [| apply kept_refl]. unfold toast. keeps.
Qed.

(** *** The timers *)



Lemma same_deps_countdown a b :
  same_deps a b = true -> autoSubmitCountdown (timers b) = autoSubmitCountdown (timers a).
Proof.
  unfold same_deps. intros H.
  apply andb_true_iff in H as [H _]. apply andb_true_iff in H as [H _].
  apply Z.eqb_eq in H. congruence.
Qed.



(** *** The question shown *)

Lemma index_handle o e p :
  on_a_question questions p ->
  (currentQuestionIndex p <= currentQuestionIndex (handle o e p))%nat /\
  on_a_question questions (handle o e p).
Proof.
  unfold on_a_question. intros Hp.
  assert (Hnext : (currentQuestionIndex p
                   <= currentQuestionIndex (handleNextQuestion questions p))%nat /\
                  (currentQuestionIndex (handleNextQuestion questions p)
                   < length questions)%nat).
  { unfold handleNextQuestion.
    cbn [currentQuestionIndex with_timers setIsAnswering].
    destruct (currentQuestionIndex p <? length questions - 1)%nat eqn:Hlt;
      cbn [currentQuestionIndex setCurrentQuestionIndex setShowComplete
           with_timers setIsAnswering].
    - apply Nat.ltb_lt in Hlt. lia.
    - lia. }
  assert (Hsame : forall p', currentQuestionIndex p' = currentQuestionIndex p ->
            (currentQuestionIndex p <= currentQuestionIndex p')%nat /\
            (currentQuestionIndex p' < length questions)%nat).
  { intros p' ->. lia. }
  unfold Session.handle.
  destruct e as [| | | | audio transcript | | text | | | |];
    repeat match goal with
           | |- context [if ?c then _ else _] => destruct c
           end;
    try exact Hnext;
    try (cbn [currentQuestionIndex setCurrentQuestionIndex]; lia);
    apply Hsame; try reflexivity.
  - unfold timerTick.
    repeat match goal with
           | |- context [if ?c then _ else _] => destruct c
           end; reflexivity.
  - unfold graceTick.
    repeat match goal with
           | |- context [if ?c then _ else _] => destruct c
           end; reflexivity.
  - apply kept_onRecordingComplete.
  - apply kept_handleSaveResponse.
Qed.

Lemma index_step o e p :
  on_a_question questions p ->
  (currentQuestionIndex p <= currentQuestionIndex (step o e p))%nat /\
  on_a_question questions (step o e p).
Proof.
  intros Hp. destruct (index_handle o e p Hp) as [Hle Hon].
  unfold Session.step, Session.countdownEffect.
  repeat match goal with
         | |- context [if ?c then _ else _] => destruct c
         end; try (split; assumption).
  unfold on_a_question in *.
  match goal with
  | |- context [Session.handleRecordingComplete _ _ _ _ _ ?o ?b ?t ?x] =>
      destruct (kept_handleRecordingComplete o b t x) as (-> & _)
  end.
  cbn. split; assumption.
Qed.

(** X20. The handlers of the page never go back to an earlier
    question and never leave the list: from a page that shows one of
    the questions, the index of the question shown only grows along a
    run of events and stays below the number of questions. (The
    restoring of a stored progress when the page mounts is not one of
    these events.) *)
Theorem question_index_only_grows events : forall p,
  on_a_question questions p ->
  (currentQuestionIndex p <= currentQuestionIndex (run events p))%nat /\
  on_a_question questions (run events p).
Proof.
  induction events as [| [e o] rest IH]; intros p H;
    [split; [apply Nat.le_refl | exact H] |].
  destruct (index_step o e p H) as [Hle Hon].
  destruct (IH (step o e p) Hon) as [Hle' Hon'].
  split; [| exact Hon'].
  eapply Nat.le_trans; [exact Hle | exact Hle'].
Qed.

(** *** The questions answered *)

Lemma current_in_ids p question :
  currentQuestion questions p = Some question -> q_id question ∈ question_ids questions.
Proof.
  unfold currentQuestion, question_ids. intros H.
  apply elem_of_list_to_set, list_elem_of_fmap. exists question.
  split; [reflexivity |]. apply (list_elem_of_lookup_2 _ _ _ H).
Qed.

Local Abbreviation grown := (Finish.grown questions).

Lemma grown_handleRecordingComplete o b t p : grown p (handleRecordingComplete o b t p).
Proof.
  unfold Finish.grown, Session.handleRecordingComplete.
  destruct currentInterview as [interviewId |]; [| left; reflexivity].
  destruct (currentQuestion questions p) as [question |] eqn:Hq; [| left; reflexivity].
  right. exists question. split; [exact Hq |]. cbn zeta.
  cbn [answeredQuestions toast with_log setAnsweredQuestions setLocalAnswers
       Session.callSaveAnswer setInterviews].
  rewrite SessionProps.pageEvaluate_answered, SessionProps.pageUpload_answered.
  reflexivity.
Qed.

Lemma grown_handleSaveResponse o p : grown p (handleSaveResponse o p).
Proof.
  unfold Finish.grown.
  destruct currentInterview as [interviewId |] eqn:Hi.
  - destruct (currentQuestion questions p) as [question |] eqn:Hq.
    + right. exists question. split; [exact Hq |].
      apply SessionProps.handleSaveResponse_answered. exact Hq.
    + left. unfold Session.handleSaveResponse. rewrite Hq. reflexivity.
  - left. reflexivity.
Qed.

Lemma grown_handle o e p : grown p (handle o e p).
Proof.
  unfold Session.handle.
  destruct e as [| | | | audio transcript | | text | | | |];
    repeat match goal with
           | |- context [if ?c then _ else _] => destruct c
           end;
    try apply grown_handleSaveResponse; left; try reflexivity;
    try apply (SessionProps.other_handlers_keep_answered createObjectURL questions
                 empty_blob None p).
  apply (SessionProps.other_handlers_keep_answered createObjectURL questions
           audio transcript p).
Qed.

Lemma grown_step o e p :
  answeredQuestions p ⊆ answeredQuestions (step o e p) /\
  (answeredQuestions p ⊆ question_ids questions ->
   answeredQuestions (step o e p) ⊆ question_ids questions).
Proof.
  assert (Hgrown : forall a b, grown a b ->
            answeredQuestions a ⊆ answeredQuestions b /\
            (answeredQuestions a ⊆ question_ids questions ->
             answeredQuestions b ⊆ question_ids questions)).
  { intros a b [-> | (question & Hq & ->)]; [split; [reflexivity | tauto] |].
    split; [apply union_subseteq_l |]. intros Ha.
    apply union_least; [exact Ha |].
    apply singleton_subseteq_l, (current_in_ids a), Hq. }
  destruct (Hgrown p (handle o e p) (grown_handle o e p)) as [H1 H2].
  unfold Session.step, Session.countdownEffect.
  repeat match goal with
         | |- context [if ?c then _ else _] => destruct c
         end; try (split; assumption).
  match goal with
  | |- context [Session.handleRecordingComplete _ _ _ _ _ ?o ?b ?t ?x] =>
      destruct (Hgrown x _ (grown_handleRecordingComplete o b t x)) as [K1 K2]
  end.
  cbn [answeredQuestions with_timers] in K1, K2.
  split; [etransitivity; eassumption | intros H; apply K2, H2, H].
Qed.

(** X21. A question that counts as answered stays so: along every run
    of events the set of answered questions only grows, and when it
    holds only ids of questions of the interview, it does so after the
    run. *)
Theorem answered_questions_only_grow events : forall p,
  answeredQuestions p ⊆ answeredQuestions (run events p) /\
  (answeredQuestions p ⊆ question_ids questions ->
   answeredQuestions (run events p) ⊆ question_ids questions).
Proof.
  induction events as [| [e o] rest IH]; intros p; [split; [reflexivity | tauto] |].
  destruct (grown_step o e p) as [H1 H2].
  destruct (IH (step o e p)) as [K1 K2].
  split; [etransitivity; eassumption | intros H; apply K2, H2, H].
Qed.

Lemma answered_within events : forall p,
  answeredQuestions p ⊆ question_ids questions ->
  answeredQuestions (run events p) ⊆ question_ids questions.
Proof.
  induction events as [| [e o] rest IH]; intros p H; [exact H |].
  apply IH, grown_step, H.
Qed.

Lemma size_question_ids : (size (question_ids questions) <= length questions)%nat.
Proof.
  unfold question_ids. induction questions as [| q rest IH].
  - change (size (∅ : gset string) <= 0)%nat. rewrite size_empty. lia.
  - change (size ({[q_id q]} ∪ list_to_set (map q_id rest) : gset string)
            <= S (length rest))%nat.
    rewrite size_union_alt, size_singleton.
    pose proof (subseteq_size (list_to_set (map q_id rest) ∖ {[q_id q]})
                  (list_to_set (map q_id rest) : gset string)
                  ltac:(apply subseteq_difference_l; reflexivity)).
    lia.
Qed.

(** X22. The progress bar stays between 0 and 100 per cent: after
    every run of events that starts with no answered question outside
    the interview, as on the page that mounts, the percentage is at
    least 0 and at most 100. *)
Theorem progress_between_0_and_100 events p :
  questions <> [] ->
  answeredQuestions p ⊆ question_ids questions ->
  (0 <= progressPercentage questions (run events p) <= 100)%Q.
Proof.
  intros Hq Hp. unfold progressPercentage.
  pose proof (subseteq_size _ _ (answered_within events p Hp)) as Hsize.
  pose proof size_question_ids as Hids.
  set (a := size (answeredQuestions (run events p))) in *.
  assert (Hn : (0 < length questions)%nat) by (destruct questions; [congruence | simpl; lia]).
  assert (Hpos : (0 < inject_Z (Z.of_nat (length questions)))%Q).
  { change 0%Q with (inject_Z 0). rewrite <- Zlt_Qlt. lia. }
  split.
  - apply Qmult_le_0_compat; [| discriminate].
    apply Qle_shift_div_l; [exact Hpos |]. rewrite Qmult_0_l.
    change 0%Q with (inject_Z 0). rewrite <- Zle_Qle. lia.
  - rewrite <- (Qmult_1_l 100) at 2. apply Qmult_le_compat_r; [| discriminate].
    apply Qle_shift_div_r; [exact Hpos |]. rewrite Qmult_1_l.
    rewrite <- Zle_Qle. lia.
Qed.

(** *** The recordings kept *)

Lemma one_each_handleSaveResponse o p : one_each p -> one_each (handleSaveResponse o p).
Proof.
  unfold one_each, Session.handleSaveResponse. intros H.
  destruct currentInterview as [interviewId |]; [| exact H].
  destruct (currentQuestion questions p) as [question |]; [| exact H].
  cbn zeta. cbn [localAnswers toast with_log Session.callSaveAnswer setInterviews].
  match goal with
  | |- context [match ?a with Some _ => _ | None => _ end] => destruct a
  end; cbn [localAnswers setLocalAnswers]; rewrite ?set_evaluation_ids;
    rewrite localAnswers_pageEvaluate;
    (match goal with
     | |- context [from_option _ _ ?b] => destruct b; cbn [from_option]
     end; rewrite ?localAnswers_pageUpload;
     cbn [localAnswers setLocalAnswers setAnsweredQuestions with_log];
     apply replace_local_ids, H).
Qed.

Lemma one_each_handleRecordingComplete o b t p :
  one_each p -> one_each (handleRecordingComplete o b t p).
Proof.
  unfold one_each, Session.handleRecordingComplete. intros H.
  destruct currentInterview as [interviewId |]; [| exact H].
  destruct (currentQuestion questions p) as [question |]; [| exact H].
  cbn zeta.
  cbn [localAnswers toast with_log setAnsweredQuestions setLocalAnswers
       Session.callSaveAnswer setInterviews].
  rewrite localAnswers_pageEvaluate, localAnswers_pageUpload.
  apply replace_local_ids, H.
Qed.

Lemma one_each_step o e p : one_each p -> one_each (step o e p).
Proof.
  intros H.
  assert (Hh : one_each (handle o e p)).
  { unfold Session.handle.
    destruct e as [| | | | audio transcript | | text | | | |];
      repeat match goal with
             | |- context [if ?c then _ else _] => destruct c
             end;
      try exact H; try (apply one_each_handleSaveResponse, H).
    - unfold timerTick.
      repeat match goal with
             | |- context [if ?c then _ else _] => destruct c
             end; exact H.
    - unfold graceTick.
      repeat match goal with
             | |- context [if ?c then _ else _] => destruct c
             end; exact H.
    - unfold Session.onRecordingComplete.
      destruct (currentQuestion questions p); [| exact H].
      unfold one_each. cbn [localAnswers toast with_log setLocalAnswers].
      apply replace_local_ids, H.
    - unfold handleNextQuestion.
      repeat match goal with
             | |- context [if ?c then _ else _] => destruct c
             end; exact H.
    - unfold handleNextQuestion.
      repeat match goal with
             | |- context [if ?c then _ else _] => destruct c
             end; exact H. }
  unfold Session.step, Session.countdownEffect.
  repeat match goal with
         | |- context [if ?c then _ else _] => destruct c
         end; try exact Hh.
  apply one_each_handleRecordingComplete. exact Hh.
Qed.

(** X23. The page keeps one recording for a question at most: when no
    two local answers are for the same question, as on the page that
    mounts, no run of events makes two of them be. *)
Theorem one_local_answer_for_a_question events : forall p,
  NoDup (map l_questionId (localAnswers p)) ->
  NoDup (map l_questionId (localAnswers (run events p))).
Proof.
  induction events as [| [e o] rest IH]; intros p H; [exact H |].
  apply IH, one_each_step, H.
Qed.

(** *** Moving on *)

(** X24. Moving on stops everything: after "Next Question" while
    answering, or after a skip, no timer is left running, the grace
    countdown is at 0, and no request was sent, no toast shown and no
    answer recorded or marked by it; a tick of a timer that was started
    before then changes nothing. *)
Theorem moving_on_stops_the_timers o e p :
  (e = NextQuestion /\ isAnswering p = true) \/ e = SkipQuestion ->
  showComplete p = false ->
  timers_in_range (timers p) ->
  let p' := step o e p in
  timers_off p' /\ isAnswering p' = false /\ autoSubmitCountdown (timers p') = 0 /\
  log p' = log p /\ answeredQuestions p' = answeredQuestions p /\
  localAnswers p' = localAnswers p /\
  (forall o' t, t = TimerTick \/ t = GraceTick \/ t = EffectTimeout -> step o' t p' = p').
Proof.
  intros He Hc (_ & Hcount & Hpending) p'.
  assert (Hh : handle o e p = handleNextQuestion questions p).
  { unfold Session.handle.
    destruct He as [[-> Ha] | ->]; rewrite Hc; [rewrite Ha |]; reflexivity. }
  assert (Hp' : p' = with_timers (setEffectTimer false) (handleNextQuestion questions p)
                \/ (p' = handleNextQuestion questions p /\ effectTimer (timers p) = false)).
  { unfold p', Session.step, Session.countdownEffect. rewrite Hh.
    destruct (same_deps p (handleNextQuestion questions p)) eqn:Hdeps.
    - right. split; [reflexivity |].
      apply same_deps_countdown in Hdeps.
      assert (autoSubmitCountdown (timers (handleNextQuestion questions p)) = 0) as H0
        by (unfold handleNextQuestion; destruct (_ <? _)%nat; reflexivity).
      destruct (effectTimer (timers p)); [| reflexivity].
      specialize (Hpending eq_refl). lia.
    - left.
      assert (autoSubmitCountdown (timers (handleNextQuestion questions p)) = 0) as ->
        by (unfold handleNextQuestion; destruct (_ <? _)%nat; reflexivity).
      assert (isAnswering (with_timers (setEffectTimer false)
                             (handleNextQuestion questions p)) = false) as ->
        by (unfold handleNextQuestion; destruct (_ <? _)%nat; reflexivity).
      reflexivity. }
  assert (Hfacts : timers_off p' /\ isAnswering p' = false /\
                   autoSubmitCountdown (timers p') = 0 /\ log p' = log p /\
                   answeredQuestions p' = answeredQuestions p /\
                   localAnswers p' = localAnswers p).
  { destruct Hp' as [-> | [-> Hoff]]; unfold handleNextQuestion, timers_off;
      destruct (_ <? _)%nat; cbn; repeat split; try exact Hoff. }
  destruct Hfacts as ((Hr1 & Hr2 & Hr3) & Ha & H0 & Hl & Hq & Hloc).
  repeat split; try assumption.
  intros o' t Ht.
  assert (Hsame : same_deps p' p' = true).
  { unfold same_deps. rewrite !Z.eqb_refl. destruct (isAnswering p'); reflexivity. }
  unfold Session.step, Session.handle, Session.countdownEffect.
  destruct Ht as [-> | [-> | ->]]; rewrite ?Hr1, ?Hr2, ?Hr3, Hsame; reflexivity.
Qed.

End Page.


Lemma question_index_only_grows_witness :
  on_a_question questions1
    (run1 (with_outcomes all_well [NextOutline; NextOutline; NextOutline]) page1).
Proof.
  apply (question_index_only_grows blob_url questions1 (Some "i1") false "1704103200000"
           (with_outcomes all_well [NextOutline; NextOutline; NextOutline]) page1).
  unfold on_a_question. simpl. lia.
Defined.

Lemma answered_questions_only_grow_witness :
  answeredQuestions
    (run1 (with_outcomes all_well [StartAnswering; SaveResponse; NextQuestion]) page1)
  ⊆ question_ids questions1.
Proof.
  apply (answered_questions_only_grow blob_url questions1 (Some "i1") false
           "1704103200000"
           (with_outcomes all_well [StartAnswering; SaveResponse; NextQuestion]) page1).
  apply empty_subseteq.
Defined.

Lemma progress_between_0_and_100_witness :
  (0 <= progressPercentage questions1
          (run1 (with_outcomes all_well [StartAnswering; SaveResponse; SaveResponse]) page1)
   <= 100)%Q.
Proof.
  apply (progress_between_0_and_100 blob_url questions1 (Some "i1") false "1704103200000"
           (with_outcomes all_well [StartAnswering; SaveResponse; SaveResponse]) page1).
  - discriminate.
  - apply empty_subseteq.
Defined.

Example progress_after_one_save :
  Qeq_bool
    (progressPercentage questions1
       (run1 (with_outcomes all_well [StartAnswering; SaveResponse; SaveResponse]) page1))
    50 = true.
Proof. vm_compute. reflexivity. Qed.

Lemma one_local_answer_for_a_question_witness :
  NoDup (map l_questionId
           (localAnswers
              (run1 (with_outcomes all_well
                       [StartAnswering; RecordingDone recording (Some spoken);
                        RecordingDone recording None; SaveResponse]) page1))).
Proof.
  apply (one_local_answer_for_a_question blob_url questions1 (Some "i1") false
           "1704103200000"
           (with_outcomes all_well
              [StartAnswering; RecordingDone recording (Some spoken);
               RecordingDone recording None; SaveResponse]) page1).
  apply NoDup_nil_2.
Defined.

Lemma moving_on_stops_the_timers_witness :
  timers_off (step1 all_well NextQuestion page_answering).
Proof.
  apply (moving_on_stops_the_timers blob_url questions1 (Some "i1") false "1704103200000"
           all_well NextQuestion page_answering).
  - left. split; reflexivity.
  - reflexivity.
  - unfold timers_in_range, MAX_QUESTION_TIME. simpl.
    repeat split; (lia || discriminate).
Defined.

End SessionMoreProps.

(** ** The end of a session *)

Module FinishProps.

Import Client JsString Session Finish Demo Demo2.

Lemma calls_uploadOne local o tr :
  exists extra, calls (uploadOne local o tr).2 = calls tr ++ extra /\
                forallb preparing extra = true.
Proof.
  unfold uploadOne. destruct (l_audioBlob local) as [blob |].
  - exists [CallUpload blob]. destruct (uploading o); split; reflexivity.
  - exists []. rewrite app_nil_r. split; reflexivity.
Qed.

Lemma calls_evaluateOne local t o tr :
  exists extra, calls (evaluateOne local t o tr).2 = calls tr ++ extra /\
                forallb preparing extra = true.
Proof.
  unfold evaluateOne.
  destruct (nonempty t && nonempty (l_questionText local)).
  - exists [CallEvaluate (l_questionText local) t (l_code local)].
    destruct (evaluating o) as [| [e |] m]; [| destruct (e_criteria e) |];
      split; reflexivity.
  - exists []. rewrite app_nil_r. split; reflexivity.
Qed.

Lemma calls_prepare id local o tr :
  exists extra, calls (prepare id local o tr).2 = calls tr ++ extra /\
                forallb preparing extra = true.
Proof.
  unfold prepare. cbn [snd].
  destruct (calls_evaluateOne local (transcriptOf local) o (uploadOne local o tr).2)
    as (e2 & -> & H2).
  destruct (calls_uploadOne local o tr) as (e1 & -> & H1).
  exists (e1 ++ e2). rewrite app_assoc, forallb_app, H1, H2. split; reflexivity.
Qed.

Lemma prepareAll_items id outcomes locals : forall k tr,
  let r := prepareAll id locals k outcomes tr in
  map b_question r.1 = map l_questionId locals /\
  Forall (fun b => b_interview b = id) r.1 /\
  exists extra, calls r.2 = calls tr ++ extra /\ forallb preparing extra = true.
Proof.
  induction locals as [| local rest IH]; intros k tr; cbn [prepareAll fst snd].
  - repeat split; [constructor |]. exists []. rewrite app_nil_r. split; reflexivity.
  - destruct (IH (S k) (prepare id local (outcomes k) tr).2) as (Hq & Hi & e2 & He2 & H2).
    destruct (calls_prepare id local (outcomes k) tr) as (e1 & He1 & H1).
    split; [cbn [map]; f_equal; exact Hq |].
    split; [constructor; [reflexivity | exact Hi] |].
    exists (e1 ++ e2). rewrite He2, He1, app_assoc, forallb_app, H1, H2.
    split; reflexivity.
Qed.

Lemma calls_creates items : forall tr,
  calls (fold_left (fun tr answer => call (CallCreate answer) tr) items tr)
  = calls tr ++ map CallCreate items.
Proof.
  induction items as [| b rest IH]; intros tr; simpl.
  - now rewrite app_nil_r.
  - rewrite IH. simpl. now rewrite <- app_assoc.
Qed.

Lemma omap_cons {A B} (f : A -> option B) x l :
  omap f (x :: l) = match f x with Some y => y :: omap f l | None => omap f l end.
Proof. reflexivity. Qed.

Lemma omap_preparing {A} (f : Call -> option A) extra :
  (forall c, preparing c = true -> f c = None) ->
  forallb preparing extra = true -> omap f extra = [].
Proof.
  intros Hf. induction extra as [| c rest IH]; [reflexivity |].
  intros H. apply andb_true_iff in H as [Hc Hrest].
  rewrite omap_cons, (Hf c Hc). apply IH, Hrest.
Qed.

Lemma omap_creates {A} (f : Call -> option A) items :
  omap f (map CallCreate items) = omap (fun b => f (CallCreate b)) items.
Proof.
  induction items as [| b rest IH]; [reflexivity |].
  cbn [map]. rewrite !omap_cons, IH. reflexivity.
Qed.

Lemma omap_Some {A} (l : list A) : omap Some l = l.
Proof. induction l as [| x rest IH]; [reflexivity |]. now rewrite omap_cons, IH. Qed.

Lemma omap_None {A B} (l : list A) : omap (fun _ => @None B) l = [].
Proof. induction l as [| x rest IH]; [reflexivity |]. now rewrite omap_cons, IH. Qed.

(** X25. What the end of a session sends: after the uploads and the
    evaluations of the local answers, one batch with one item for each
    local answer, in their order and all for the current interview (no
    batch when there is no local answer); then, when the batch is
    rejected, one create for each item of the batch, in the same
    order, whether or not any of these is rejected; then, in every
    case, the request that ends the interview. *)
Theorem finish_sends_a_batch_then_single_answers id isAdmin locals outcomes
    batching ending :
  let r := handleFinishInterview (Some id) isAdmin locals outcomes batching ending in
  let items := (prepareAll id locals 0 outcomes nothing).1 in
  map b_question items = map l_questionId locals /\
  Forall (fun b => b_interview b = id) items /\
  (exists before,
     forallb preparing before = true /\
     calls (trace r)
     = before
       ++ match items with
          | [] => []
          | _ :: _ => CallBatch items :: (if batching then [] else map CallCreate items)
          end
       ++ [CallEnd id]) /\
  batches (trace r) = match items with [] => [] | _ :: _ => [items] end /\
  created (trace r) = (if batching then [] else items) /\
  ended (trace r) = [id].
Proof.
  intros r items.
  destruct (prepareAll_items id outcomes locals 0%nat nothing)
    as (Hq & Hi & before & Hcalls & Hbefore).
  fold items in Hq, Hi. simpl in Hcalls.
  split; [exact Hq |]. split; [exact Hi |].
  assert (Hr : calls (trace r)
               = before
                 ++ match items with
                    | [] => []
                    | _ :: _ =>
                        CallBatch items :: (if batching then [] else map CallCreate items)
                    end
                 ++ [CallEnd id]).
  { unfold r, handleFinishInterview. fold items.
    assert (calls (submit items batching (prepareAll id locals 0 outcomes nothing).2)
            = before ++ match items with
                        | [] => []
                        | _ :: _ =>
                            CallBatch items
                            :: (if batching then [] else map CallCreate items)
                        end) as Hs.
    { unfold submit. destruct items as [| b rest] eqn:Hitems.
      - now rewrite app_nil_r.
      - destruct batching.
        + cbn [calls call]. rewrite Hcalls. reflexivity.
        + rewrite calls_creates. cbn [calls call show]. rewrite Hcalls.
          rewrite <- app_assoc. reflexivity. }
    destruct ending; cbn [trace calls show call]; rewrite Hs;
      rewrite <- app_assoc; reflexivity. }
  split; [exists before; split; [exact Hbefore | exact Hr] |].
  unfold batches, created, ended. rewrite Hr, !omap_app.
  rewrite !(omap_preparing _ before) by (assumption || (intros [] H; (discriminate H || reflexivity))).
  destruct items as [| b rest]; [destruct batching; repeat split |].
  destruct batching; simpl; rewrite ?omap_app, ?omap_creates, ?omap_Some, ?omap_None;
    simpl; rewrite ?app_nil_r; repeat split.
Qed.

(** X26. The evaluation an item of the batch carries. An answer
    without transcript and without recording is not evaluated: it is
    sent with score 0 and all criteria 0. When the evaluation is
    rejected, and also when it arrives without criteria, the item gets
    score 5, the criteria 5 and the text that an admin will review it;
    a score that came with an evaluation without criteria is dropped.
    A recording without transcript is evaluated on the placeholder
    text. *)
Theorem finish_evaluation_of_an_item id local o tr :
  let r := prepare id local o tr in
  (l_transcript local = "" -> l_audioBlob local = None ->
     evaluations r.2 = evaluations tr /\
     b_score r.1 = Some 0%Q /\ b_criteria r.1 = zeros) /\
  (nonempty (transcriptOf local) && nonempty (l_questionText local) = true ->
     evaluating o = EvaluateRejects \/
     (exists e m, evaluating o = EvaluateResolves (Some e) m /\ e_criteria e = None) ->
     b_score r.1 = Some 5%Q /\ b_criteria r.1 = fives /\
     b_feedback r.1 = Some failed_feedback) /\
  (l_transcript local = "" -> forall blob, l_audioBlob local = Some blob ->
     nonempty (l_questionText local) = true ->
     b_transcript r.1 = placeholder /\
     In (CallEvaluate (l_questionText local) placeholder (l_code local)) (calls r.2)).
Proof.
  intros r. split; [| split].
  - intros Ht Hb. unfold r, prepare, evaluateOne, transcriptOf, uploadOne, evaluations.
    rewrite Ht, Hb. cbn. repeat split.
  - intros Hask Ho. unfold r, prepare, evaluateOne. cbn [fst snd b_score b_criteria b_feedback].
    rewrite Hask.
    destruct Ho as [-> | (e & m & -> & ->)]; repeat split.
  - intros Ht blob Hb Hq. unfold r, prepare, evaluateOne, transcriptOf.
    rewrite Ht, Hb, Hq. cbn [nonempty String.eqb negb andb fst snd b_transcript].
    rewrite bool_decide_eq_true_2 by (eexists; reflexivity).
    split; [reflexivity |].
    change (nonempty placeholder) with true. cbn [andb].
    destruct (evaluating o) as [| [e |] m]; [| destruct (e_criteria e) |];
      cbn [snd calls call]; apply in_or_app; right; left; reflexivity.
Qed.

(** *** The batch at the server *)

Import Answers.

Lemma item_json_pair b :
  json_str (item_json b !! "interview") = Some (b_interview b) /\
  json_str (item_json b !! "question") = Some (b_question b).
Proof.
  unfold item_json, optional.
  destruct (b_audioUrl b), (b_score b), (b_feedback b); simpl;
    rewrite ?lookup_insert_ne by discriminate; split; reflexivity.
Qed.

Lemma pair_dec (a b : string * string) : {a = b} + {a <> b}.
Proof. repeat decide equality. Qed.

Lemma batch_loop_items now items : forall docs acc,
  exists results docs',
    batch_loop docs (map item_json items) now acc = (Success 201 results, docs') /\
    forall i q,
      (In (i, q) (map (fun b => (b_interview b, b_question b)) items) ->
       count_pair i q docs' = Nat.max 1 (count_pair i q docs)) /\
      (~ In (i, q) (map (fun b => (b_interview b, b_question b)) items) ->
       count_pair i q docs' = count_pair i q docs).
Proof.
  induction items as [| b rest IH]; intros docs acc; cbn [map batch_loop].
  - exists acc, docs. split; [reflexivity |]. intros i q. split; [intros [] | reflexivity].
  - destruct (item_json_pair b) as [Hi Hq].
    destruct (upsert docs (item_json b) now) as [[d docs1] |] eqn:Hup.
    2: { unfold upsert in Hup. rewrite Hi, Hq in Hup. simpl in Hup.
         destruct (update_first _ _ docs); discriminate. }
    destruct (AnswerProps.upsert_counts docs (item_json b) now d docs1 Hup)
      as (i0 & q0 & Hi0 & Hq0 & Hsame & Hother & _).
    assert (i0 = b_interview b) as -> by congruence.
    assert (q0 = b_question b) as -> by congruence.
    destruct (IH docs1 (acc ++ [d])) as (results & docs' & Hloop & Hcount).
    exists results, docs'. split; [exact Hloop |].
    intros i q. destruct (Hcount i q) as [Hin Hout].
    destruct (pair_dec (i, q) (b_interview b, b_question b)) as [Heq | Hne].
    + injection Heq as -> ->. split; [| intros H; exfalso; apply H; left; reflexivity].
      intros _.
      destruct (in_dec pair_dec (b_interview b, b_question b)
                  (map (fun b => (b_interview b, b_question b)) rest)) as [Hr | Hr].
      * rewrite (Hin Hr), Hsame. lia.
      * rewrite (Hout Hr), Hsame. reflexivity.
    + rewrite <- (Hother i q Hne). split.
      * intros [H | H]; [congruence | exact (Hin H)].
      * intros H. apply Hout. intros Hr. apply H. right. exact Hr.
Qed.

(** X27. From the page to the collection: when the batch that the end
    of a session puts together reaches the batch route, the route
    accepts it, and if the collection had at most one Answer for every
    interview and question, it still has, with exactly one Answer for
    each question that has a local answer, whether or not an earlier
    save had stored one. *)
Theorem finished_answers_are_stored_once id locals outcomes docs now :
  one_per_question docs ->
  let items := (prepareAll id locals 0 outcomes nothing).1 in
  let r := batch docs (Items (map item_json items)) now in
  succeeded r.1 = true /\ one_per_question r.2 /\
  forall local, In local locals -> count_pair id (l_questionId local) r.2 = 1%nat.
Proof.
  intros Hone items r.
  destruct (prepareAll_items id outcomes locals 0%nat nothing) as (Hq & Hi & _).
  fold items in Hq, Hi.
  destruct (batch_loop_items now items docs []) as (results & docs' & Hloop & Hcount).
  assert (Hr : r = (Success 201 results, docs')) by exact Hloop.
  rewrite Hr. cbn [fst snd succeeded]. split; [reflexivity |].
  split.
  { pose proof (AnswerProps.batch_loop_keeps_one (map item_json items) now docs [] Hone)
      as H. rewrite Hloop in H. exact H. }
  intros local Hin.
  assert (Hpair : In (id, l_questionId local)
                    (map (fun b => (b_interview b, b_question b)) items)).
  { assert (Hqin : In (l_questionId local) (map b_question items))
      by (rewrite Hq; apply in_map, Hin).
    apply in_map_iff in Hqin as (b & Hb & Hbin).
    apply in_map_iff. exists b. split; [| exact Hbin].
    rewrite Forall_forall in Hi. rewrite (Hi b) by (apply list_elem_of_In, Hbin).
    now rewrite Hb. }
  rewrite (proj1 (Hcount id (l_questionId local)) Hpair).
  specialize (Hone id (l_questionId local)). lia.
Qed.

(** *** The request that ends the interview *)

Import Interviews.


(** *** The clock *)

Lemma two_digits n :
  0 <= n < 100 ->
  padStart2 (of_Z n) = String (digit (n / 10)) (String (digit (n mod 10)) "").
Proof.
  intros Hn.
  assert (Hall : forallb (fun k =>
            String.eqb (padStart2 (of_Z (Z.of_nat k)))
              (String (digit (Z.of_nat k / 10)) (String (digit (Z.of_nat k mod 10)) "")))
            (seq 0 100) = true) by (vm_compute; reflexivity).
  rewrite forallb_forall in Hall.
  specialize (Hall (Z.to_nat n)). rewrite Z2Nat.id in Hall by lia.
  apply String.eqb_eq, Hall, in_seq. lia.
Qed.

(** X29. The clock of a question: for a time of less than a hundred
    minutes, [formatTime] gives five characters, the two digits of the
    minutes, a colon and the two digits of the seconds; so two
    different times left never look the same. *)
Theorem clock_shows_minutes_and_seconds s :
  0 <= s < 6000 ->
  formatTime s
  = String (digit (s / 600)) (String (digit (s / 60 mod 10))
      (String ":" (String (digit (s mod 60 / 10)) (String (digit (s mod 10)) "")))).
Proof.
  intros Hs. unfold formatTime.
  rewrite Z.rem_mod_nonneg by lia.
  rewrite (two_digits (s / 60)).
  2: { split; [apply Z.div_pos; lia | apply Z.div_lt_upper_bound; lia]. }
  rewrite (two_digits (s mod 60)).
  2: { pose proof (Z.mod_pos_bound s 60 ltac:(lia)). lia. }
  rewrite Z.div_div by lia. change (60 * 10) with 600.
  assert (Hmod : s mod 60 mod 10 = s mod 10).
  { change 60 with (10 * 6). rewrite Z.rem_mul_r by lia.
    rewrite (Z.mul_comm 10), Z.mod_add by lia. apply Z.mod_mod. lia. }
  rewrite Hmod. reflexivity.
Qed.

Example clock_at_ninety_seconds : formatTime 90 = "01:30".
Proof. reflexivity. Qed.

Example finish_with_a_rejected_batch :
  let r := handleFinishInterview (Some "i1") false locals1 no_evaluation false true in
  map b_question (created (trace r)) = ["q1"; "q2"] /\
  map b_transcript (created (trace r)) = [spoken; placeholder] /\
  map b_score (created (trace r)) = [Some 5%Q; Some 5%Q] /\
  length (batches (trace r)) = 1%nat /\ navigated r = Some "/".
Proof. repeat split. Qed.

Lemma finish_evaluation_of_an_item_witness :
  b_score (prepare "i1" local_recorded (no_evaluation 0) nothing).1 = Some 5%Q.
Proof.
  apply (finish_evaluation_of_an_item "i1" local_recorded (no_evaluation 0) nothing).
  - reflexivity.
  - left. reflexivity.
Defined.

Lemma one_per_question_answers1 : Answers.one_per_question answers1.
Proof.
  intros i q. unfold Answers.count_pair, answers1. cbn [List.filter].
  destruct (Answers.for_pair i q answer1); simpl; lia.
Qed.

Lemma finished_answers_are_stored_once_witness :
  Answers.count_pair "i1" "q1"
    (Answers.batch answers1
       (Answers.Items (map item_json (prepareAll "i1" locals1 0 no_evaluation nothing).1))
       0).2 = 1%nat.
Proof.
  destruct (finished_answers_are_stored_once "i1" locals1 no_evaluation answers1 0
              one_per_question_answers1) as (_ & _ & Hstored).
  apply (Hstored local_recorded). left. reflexivity.
Defined.


Lemma clock_shows_minutes_and_seconds_witness :
  formatTime 119
  = String (digit (119 / 600)) (String (digit (119 / 60 mod 10))
      (String ":" (String (digit (119 mod 60 / 10)) (String (digit (119 mod 10)) "")))).
Proof.
  apply (clock_shows_minutes_and_seconds 119). lia.
Defined.

End FinishProps.
